(** * AeroSense: conversation persistence and translation synchronisation

    A shallow embedding of the conversation store ([src/lib/chatStorage.ts]),
    the translation helpers ([src/lib/api.ts]) and the translation
    scheduling code of the chat page (the [MessageItem] component and the
    language-change effect of [AppContent]), together with the properties
    the design document states about them.  Further sections cover the
    auto-save effect, the escaping and the reply-building code of the
    page, and the renaming handler of the sidebar
    ([src/components/Sidebar.tsx]).

    Conventions of the embedding.
    - A JavaScript value that the code treats as untyped (the result of
      [JSON.parse], opaque payloads such as [weatherData], [meta] or the
      [translations] object) is a tree of type [value].  A number is an
      integer, or one of the two infinities (which [JSON.parse] returns
      for a literal out of range and [JSON.stringify] writes as [null]);
      fractions are outside the model.  [VNum n] stands for the Number
      nearest to [n] (53 significant bits): the integers up to [2^53]
      in size stand for themselves, and [String] prints a larger one
      as JavaScript does, with the fewest digits that tell its Number
      from the next, in exponent form from [10^21] on.
    - Property reads are own-property reads: names inherited from a
      prototype ([constructor], the [length] of an array) are outside
      the model.  The one inherited method the code calls, [toString]
      through [String(v)], is modelled in [toString]: an own property
      of that name, which cannot be a function in a value read from
      JSON, hides it.
    - A JavaScript string is a [string]; [String.length] counts its units.
    - An exception is the [Throw] case of [result]; [try]/[catch] is a
      [match] on it.
    - [Date] objects are [JsDate]: a number of milliseconds, or the
      invalid date.  The clock is read from the environment. *)

From Stdlib Require Import ZArith String Ascii List Lia.
From Stdlib Require Import DecimalString DecimalPos DecimalZ.
From stdpp Require Import gmap strings list.

Set Warnings "-register-all".

Local Open Scope string_scope.
Local Open Scope Z_scope.

(** ** JavaScript values *)

Inductive value : Type :=
| VUndef
| VNull
| VBool (b : bool)
| VNum (n : Z)
| VInfinity (negative : bool)
| VStr (s : string)
| VArr (items : list value)
| VObj (props : list (string * value)).

(** Exceptions. *)
Inductive result (A : Type) : Type :=
| Ok (a : A)
| Throw (e : string).
Arguments Ok {A} a.
Arguments Throw {A} e.

Definition bind {A B} (r : result A) (k : A -> result B) : result B :=
  match r with
  | Ok a => k a
  | Throw e => Throw e
  end.

Notation "'let*' x ':=' r 'in' k" := (bind r (fun x => k))
  (at level 10, x name, r at level 100, k at level 200).

(** [xs.map(f)] where the callback may throw: the first exception aborts
    the whole [map]. *)
Fixpoint mapR {A B} (f : A -> result B) (xs : list A) : result (list B) :=
  match xs with
  | [] => Ok []
  | x :: xs' =>
      let* y := f x in
      let* ys := mapR f xs' in
      Ok (y :: ys)
  end.

Definition TypeError : string := "TypeError".

(** [o[k]] on an object literal: the own property [k], [undefined] when
    there is none. *)
Fixpoint lookupProp (k : string) (ps : list (string * value)) : value :=
  match ps with
  | [] => VUndef
  | (k', x) :: ps' => if String.eqb k' k then x else lookupProp k ps'
  end.

(** ** Numbers as text *)

(** The decimal digits of an integer. *)
Definition decimal (n : Z) : string := NilZero.string_of_int (Z.to_int n).

(** The Number nearest to a positive integer: 53 significant bits, of
    two equally near the one whose last bit is 0. *)
Definition nearestDouble (z : Z) : Z :=
  let bits := Z.log2 z + 1 in
  if bits <=? 53 then z
  else
    let shift := bits - 53 in
    let q := Z.shiftr z shift in
    let r := Z.land z (Z.ones shift) in
    let half := Z.shiftl 1 (shift - 1) in
    let q' := if (half <? r) || ((r =? half) && Z.odd q) then q + 1 else q in
    Z.shiftl q' shift.

(** The integers whose nearest Number is an infinity. *)
Definition isInfinite (n : Z) : bool := 2 ^ 1024 <=? nearestDouble (Z.abs n).

Definition digitCount (x : Z) : Z := Z.of_nat (String.length (decimal x)).

(** The multiples of [p] next to [x], the nearer one first (of two
    equally near, the one with the even last digit). *)
Definition roundings (x p : Z) : list Z :=
  let below := x / p * p in
  let above := below + p in
  if (x - below <? above - x) || ((x - below =? above - x) && Z.even (x / p))
  then [below; above] else [above; below].

(** The decimal number with the fewest significant digits whose nearest
    Number is [x]; the search goes from one digit up, [p] being the
    weight of the last digit kept. *)
Fixpoint shortestFrom (fuel : nat) (x p : Z) : Z :=
  match fuel with
  | O => x
  | S fuel' =>
      match List.find (fun c => nearestDouble c =? x) (roundings x p) with
      | Some c => c
      | None => shortestFrom fuel' x (p / 10)
      end
  end.

Definition shortestDecimal (x : Z) : Z :=
  let d := digitCount x in
  shortestFrom (Z.to_nat d) x (10 ^ (d - 1)).

Fixpoint dropZeros (fuel : nat) (c : Z) : Z :=
  match fuel with
  | O => c
  | S fuel' => if (c mod 10 =? 0) && negb (c =? 0) then dropZeros fuel' (c / 10) else c
  end.

(** The exponent form: the first digit, the others after a point, and
    the power of ten. *)
Definition exponential (c : Z) : string :=
  let n := digitCount c in
  match decimal (dropZeros (Z.to_nat n) c) with
  | String d rest =>
      String d (match rest with EmptyString => "" | _ => "." ++ rest end)
      ++ "e+" ++ decimal (n - 1)
  | EmptyString => ""
  end.

Definition showPositive (z : Z) : string :=
  let x := nearestDouble z in
  if x <? 2 ^ 53 then decimal x
  else if 2 ^ 1024 <=? x then "Infinity"
  else
    let c := shortestDecimal x in
    if c <? 10 ^ 21 then decimal c else exponential c.

(** [String(n)] for a number, as [String] and template literals print
    it ([Number::toString]). *)
Definition showZ (n : Z) : string :=
  if n <? 0 then "-" ++ showPositive (- n) else showPositive n.

Definition showNat (n : nat) : string := showZ (Z.of_nat n).

(** [xs[k]] on an array: [k] selects an element when it is the decimal
    form of an index in range. *)
Fixpoint lookupIndex (k : string) (i : nat) (xs : list value) : value :=
  match xs with
  | [] => VUndef
  | x :: xs' => if String.eqb (showNat i) k then x else lookupIndex k (S i) xs'
  end.

(** The own property [k] of a value that is neither [null] nor
    [undefined]; primitives have no own property among the names this
    code reads. *)
Definition field (v : value) (k : string) : value :=
  match v with
  | VObj ps => lookupProp k ps
  | VArr xs => lookupIndex k 0 xs
  | _ => VUndef
  end.

(** JavaScript truthiness. *)
Definition truthy (v : value) : bool :=
  match v with
  | VUndef | VNull => false
  | VBool b => b
  | VNum n => negb (n =? 0)
  | VStr s => negb (String.eqb s "")
  | VInfinity _ | VArr _ | VObj _ => true
  end.

(** [typeof v === 'string'], [Array.isArray(v)], and the idiom
    [typeof v === 'object' && v]. *)
Definition isString (v : value) : bool :=
  match v with VStr _ => true | _ => false end.

Definition isArray (v : value) : bool :=
  match v with VArr _ => true | _ => false end.

Definition isObjectAndTruthy (v : value) : bool :=
  match v with VArr _ | VObj _ => true | _ => false end.

(** [v ?? d]. *)
Definition nullish (v : value) : bool :=
  match v with VUndef | VNull => true | _ => false end.

(** [v.k] / [v[k]]: reading a property of [null] or [undefined] throws. *)
Definition getProp (v : value) (k : string) : result value :=
  if nullish v then Throw TypeError else Ok (field v k).

Definition coalesce (v d : value) : value := if nullish v then d else v.

Fixpoint joinWith (sep : string) (parts : list string) : string :=
  match parts with
  | [] => ""
  | [p] => p
  | p :: ps => p ++ sep ++ joinWith sep ps
  end.

(** [k in o] for an own property. *)
Definition hasOwn (k : string) (ps : list (string * value)) : bool :=
  existsb (fun kv => String.eqb (fst kv) k) ps.

(** [String(v)].  An array prints its elements separated by commas, with
    [null] and [undefined] elements printed as the empty string.  An
    object is printed by the [toString] it inherits, unless it has an
    own property of that name: no value of the model is a function, so
    the conversion finds nothing to call (the inherited [valueOf]
    returns the object itself) and throws a [TypeError]. *)
Fixpoint toString (v : value) : result string :=
  match v with
  | VUndef => Ok "undefined"
  | VNull => Ok "null"
  | VBool true => Ok "true"
  | VBool false => Ok "false"
  | VNum n => Ok (showZ n)
  | VInfinity false => Ok "Infinity"
  | VInfinity true => Ok "-Infinity"
  | VStr s => Ok s
  | VArr xs =>
      let* parts :=
        (fix each (l : list value) : result (list string) :=
           match l with
           | [] => Ok []
           | x :: l' =>
               let* part := if nullish x then Ok "" else toString x in
               let* parts := each l' in
               Ok (part :: parts)
           end) xs in
      Ok (joinWith "," parts)
  | VObj ps => if hasOwn "toString" ps then Throw TypeError else Ok "[object Object]"
  end.

(** ** Dates *)

Inductive JsDate : Type :=
| DateMs (ms : Z)
| InvalidDate.

(** The date primitives of the runtime the store relies on:
    [new Date(s)] on a string and [Date.prototype.toISOString].  The only
    fact used about them is that the textual form of a valid date parses
    back to the same instant.  A [DateMs ms] stands for a date within
    the range of the runtime. *)
Class DateApi := {
  Date_parse : string -> JsDate;
  Date_toISOString : Z -> string;
  Date_parse_toISOString : forall ms, Date_parse (Date_toISOString ms) = DateMs ms
}.

(** The JSON text primitives.  [JSON_parse] is [None] where [JSON.parse]
    throws a [SyntaxError]; [JSON_stringify] prints a JSON tree. *)
Class JsonApi := {
  JSON_parse : string -> option value;
  JSON_stringify : value -> string
}.

(** ** Data model ([src/lib/chatStorage.ts]) *)

Inductive Role : Type := user | assistant | system.

Definition Role_eqb (a b : Role) : bool :=
  match a, b with
  | user, user | assistant, assistant | system, system => true
  | _, _ => false
  end.

(** A field declared [T | null] that may also be left out. *)
Inductive nullable (A : Type) : Type :=
| Absent
| Null
| Has (a : A).
Arguments Absent {A}.
Arguments Null {A}.
Arguments Has {A} a.

(** [interface ChatMessage].  The optional fields are [None] when
    [undefined]. *)
Record ChatMessage : Type := {
  msg_id : string;
  msg_type : Role;
  msg_original : string;
  msg_translations : option value;
  msg_timestamp : JsDate;
  msg_weatherData : option value;
  msg_sources : option value
}.

(** [interface ChatRecord].  [meta] is kept as the untyped object the
    decoder passes through. *)
Record ChatRecord : Type := {
  chat_id : string;
  chat_userId : nullable string;
  chat_title : string;
  chat_snippet : string;
  chat_city : nullable string;
  chat_messages : list ChatMessage;
  chat_meta : value;
  chat_createdAt : JsDate;
  chat_updatedAt : JsDate;
  chat_lastSyncedAt : nullable JsDate;
  chat_synced : bool;
  chat_unsyncedOps : option value
}.

Definition MAX_MESSAGE_SIZE : Z := 500000.

(** ** Titles and snippets *)

Definition isUser (m : ChatMessage) : bool := Role_eqb (msg_type m) user.
Definition isAssistant (m : ChatMessage) : bool := Role_eqb (msg_type m) assistant.

(** [text.substring(0, n) + (text.length > n ? '...' : '')]. *)
Definition ellipsize (n : nat) (text : string) : string :=
  substring 0 n text ++ (if (n <? String.length text)%nat then "..." else "").

Definition getChatTitle (messages : list ChatMessage) : string :=
  let userMsgs := List.filter isUser messages in
  match userMsgs with
  | [] => "Untitled Chat"
  | first :: _ => ellipsize 50 (msg_original first)
  end.

(** The snippet comes from the first assistant message, or else the
    first user message ([source.original || ''] is [source.original], a
    string). *)
Definition getChatSnippet (messages : list ChatMessage) : string :=
  let assistantMsg := List.find isAssistant messages in
  let userMsg := List.find isUser messages in
  let source := match assistantMsg with Some a => Some a | None => userMsg end in
  match source with
  | None => "Empty chat"
  | Some src => ellipsize 70 (msg_original src)
  end.

(** ** Record codec: decoding ([loadChatsFromStorage]) *)

Section Codec.
Context {dates : DateApi} {json : JsonApi}.

(** [typeof v === 'string' ? new Date(v) : new Date()]. *)
Definition dateOrNow (now : Z) (v : value) : JsDate :=
  match v with
  | VStr s => Date_parse s
  | _ => DateMs now
  end.

(** [typeof v === 'string' ? new Date(v) : null]. *)
Definition dateOrNull (v : value) : nullable JsDate :=
  match v with
  | VStr s => Has (Date_parse s)
  | _ => Null
  end.

(** [typeof v === 'string' ? v : null]. *)
Definition stringOrNull (v : value) : nullable string :=
  match v with
  | VStr s => Has s
  | _ => Null
  end.

(** [String(v ?? '')]. *)
Definition stringOrEmpty (v : value) : result string := toString (coalesce v (VStr "")).

(** The role test of the message decoder: one of the three known roles,
    otherwise ['system']. *)
Definition roleOrSystem (v : value) : Role :=
  match v with
  | VStr s =>
      if String.eqb s "user" then user
      else if String.eqb s "assistant" then assistant
      else system
  | _ => system
  end.

Definition objectOrUndefined (v : value) : option value :=
  if isObjectAndTruthy v then Some v else None.

Definition arrayOrUndefined (v : value) : option value :=
  if isArray v then Some v else None.

(** The callback of [messagesRaw.map]. *)
Definition decodeMessage (now : Z) (mRaw : value) : result ChatMessage :=
  let* weatherData := getProp mRaw "weatherData" in
  let* id := getProp mRaw "id" in
  let* idText := stringOrEmpty id in
  let* type := getProp mRaw "type" in
  let* original := getProp mRaw "original" in
  let* originalText := stringOrEmpty original in
  let* translations := getProp mRaw "translations" in
  let* timestamp := getProp mRaw "timestamp" in
  let* sources := getProp mRaw "sources" in
  Ok {| msg_id := idText;
        msg_type := roleOrSystem type;
        msg_original := originalText;
        msg_translations := objectOrUndefined translations;
        msg_timestamp := dateOrNow now timestamp;
        msg_weatherData := objectOrUndefined weatherData;
        msg_sources := arrayOrUndefined sources |}.

(** The callback of [parsed.map]. *)
Definition decodeChat (now : Z) (chat : value) : result ChatRecord :=
  let* createdAt := getProp chat "createdAt" in
  let* updatedAt := getProp chat "updatedAt" in
  let* lastSyncedAt := getProp chat "lastSyncedAt" in
  let* messagesProp := getProp chat "messages" in
  let messagesRaw := match messagesProp with VArr xs => xs | _ => [] end in
  let* messages := mapR (decodeMessage now) messagesRaw in
  let* id := getProp chat "id" in
  let* idText := stringOrEmpty id in
  let* userId := getProp chat "userId" in
  let* title := getProp chat "title" in
  let* titleText := stringOrEmpty title in
  let* snippet := getProp chat "snippet" in
  let* snippetText := stringOrEmpty snippet in
  let* city := getProp chat "city" in
  let* meta := getProp chat "meta" in
  let* synced := getProp chat "synced" in
  let* unsyncedOps := getProp chat "unsyncedOps" in
  Ok {| chat_id := idText;
        chat_userId := stringOrNull userId;
        chat_title := titleText;
        chat_snippet := snippetText;
        chat_city := stringOrNull city;
        chat_messages := messages;
        chat_meta := if isObjectAndTruthy meta then meta
                     else VObj [("version", VNum 1)];
        chat_createdAt := dateOrNow now createdAt;
        chat_updatedAt := dateOrNow now updatedAt;
        chat_lastSyncedAt := dateOrNull lastSyncedAt;
        chat_synced := truthy synced;
        chat_unsyncedOps := arrayOrUndefined unsyncedOps |}.

(** What the storage slot [aerosense_chats_v1] holds, seen through
    [localStorage.getItem] followed by [JSON.parse]: nothing (or the empty
    string), a text that [JSON.parse] rejects, or a parsed value. *)
Inductive Slot : Type :=
| Empty
| Corrupt
| Holds (parsed : value).

(** The browser environment of one call. *)
Record Env : Type := {
  hasWindow : bool;                 (* typeof window !== 'undefined' *)
  now : Z;                          (* the clock: new Date(), Date.now() *)
  userAgent : option string;        (* navigator.userAgent, if any *)
  setItemOk : bool                  (* localStorage.setItem does not throw *)
}.

(** The decoder proper: the body of the [try] once the stored text has
    been parsed. *)
Definition decode (now : Z) (parsed : value) : list ChatRecord :=
  match parsed with
  | VArr chats =>
      match mapR (decodeChat now) chats with
      | Ok records => records
      | Throw _ => []                (* catch: log, return [] *)
      end
  | _ => []
  end.

Definition loadChatsFromStorage (env : Env) (slot : Slot) : list ChatRecord :=
  if negb (hasWindow env) then []
  else match slot with
       | Empty => []
       | Corrupt => []
       | Holds parsed => decode (now env) parsed
       end.

(** ** Record codec: encoding

    [encode] is the tree that [JSON.parse] gives back from the text
    [JSON.stringify] writes: a date becomes its ISO text ([null] when the
    date is invalid, by [Date.prototype.toJSON]), an [undefined] property
    is left out, an [undefined] array element becomes [null], an
    infinite number becomes [null]. *)

Fixpoint reparse (v : value) : value :=
  match v with
  | VArr xs =>
      VArr ((fix each (l : list value) : list value :=
               match l with
               | [] => []
               | x :: l' =>
                   (match x with VUndef => VNull | _ => reparse x end) :: each l'
               end) xs)
  | VObj ps =>
      VObj ((fix each (l : list (string * value)) : list (string * value) :=
               match l with
               | [] => []
               | (k, x) :: l' =>
                   match x with
                   | VUndef => each l'
                   | _ => (k, reparse x) :: each l'
                   end
               end) ps)
  | VInfinity _ => VNull
  | VNum n => if isInfinite n then VNull else v
  | _ => v
  end.

Definition encodeDate (d : JsDate) : value :=
  match d with
  | DateMs ms => VStr (Date_toISOString ms)
  | InvalidDate => VNull
  end.

Definition roleName (r : Role) : string :=
  match r with
  | user => "user"
  | assistant => "assistant"
  | system => "system"
  end.

(** One property of the written object: left out when [undefined]. *)
Definition prop (k : string) (v : value) : list (string * value) :=
  match v with
  | VUndef => []
  | _ => [(k, reparse v)]
  end.

Definition optProp (k : string) (o : option value) : list (string * value) :=
  match o with
  | Some v => prop k v
  | None => []
  end.

Definition nullableProp {A} (k : string) (enc : A -> value) (o : nullable A)
  : list (string * value) :=
  match o with
  | Absent => []
  | Null => [(k, VNull)]
  | Has a => [(k, enc a)]
  end.

Definition encodeMessage (m : ChatMessage) : value :=
  VObj ([("id", VStr (msg_id m));
         ("type", VStr (roleName (msg_type m)));
         ("original", VStr (msg_original m))]
        ++ optProp "translations" (msg_translations m)
        ++ [("timestamp", encodeDate (msg_timestamp m))]
        ++ optProp "weatherData" (msg_weatherData m)
        ++ optProp "sources" (msg_sources m)).

Definition encodeMessages (messages : list ChatMessage) : value :=
  VArr (List.map encodeMessage messages).

Definition encodeChat (c : ChatRecord) : value :=
  VObj ([("id", VStr (chat_id c))]
        ++ nullableProp "userId" VStr (chat_userId c)
        ++ [("title", VStr (chat_title c));
            ("snippet", VStr (chat_snippet c))]
        ++ nullableProp "city" VStr (chat_city c)
        ++ [("messages", encodeMessages (chat_messages c))]
        ++ prop "meta" (chat_meta c)
        ++ [("createdAt", encodeDate (chat_createdAt c));
            ("updatedAt", encodeDate (chat_updatedAt c))]
        ++ nullableProp "lastSyncedAt" encodeDate (chat_lastSyncedAt c)
        ++ [("synced", VBool (chat_synced c))]
        ++ optProp "unsyncedOps" (chat_unsyncedOps c)).

Definition encode (chats : list ChatRecord) : value :=
  VArr (List.map encodeChat chats).

(** ** Conversation store *)

(** [xs.findIndex(p)]; [None] stands for [-1]. *)
Fixpoint findIndex {A} (p : A -> bool) (xs : list A) : option nat :=
  match xs with
  | [] => None
  | x :: xs' => if p x then Some 0%nat else option_map S (findIndex p xs')
  end.

(** [localStorage.setItem(STORAGE_CHATS, JSON.stringify(updated))] inside
    the [try] of a store operation: on success the slot holds the encoded
    list and [onSuccess] is returned; when [setItem] throws, the [catch]
    branch returns [onFailure] and the slot is as it was. *)
Definition persist {A} (env : Env) (slot : Slot) (updated : list ChatRecord)
    (onSuccess onFailure : A) : A * Slot :=
  if setItemOk env then (onSuccess, Holds (encode updated))
  else (onFailure, slot).

(** The city of the first message whose weather payload names one. *)
Definition hasCity (m : ChatMessage) : bool :=
  match msg_weatherData m with
  | Some w => truthy w && isString (field w "city")
  | None => false
  end.

Definition cityMatch (messages : list ChatMessage) : option string :=
  match List.find hasCity messages with
  | None => None
  | Some found =>
      match msg_weatherData found with
      | Some w => match field w "city" with VStr c => Some c | _ => None end
      | None => None
      end
  end.

(** The record [autoSaveChat] builds; [existing] is
    [chats[existingIndex]] when the title was found. *)
Definition chatRecordFor (env : Env) (existing : option ChatRecord)
    (messages : list ChatMessage) : ChatRecord :=
  let messageSize := Z.of_nat (String.length (JSON_stringify (encodeMessages messages))) in
  let isTruncated := MAX_MESSAGE_SIZE <? messageSize in
  {| chat_id := match existing with
                | Some c => chat_id c
                | None => "local_" ++ showZ (now env)
                end;
     chat_userId := Absent;
     chat_title := getChatTitle messages;
     chat_snippet := getChatSnippet messages;
     chat_city := match cityMatch messages with Some c => Has c | None => Null end;
     chat_messages := messages;
     chat_meta :=
       VObj [("device", VStr (match userAgent env with
                              | Some ua => substring 0 50 ua
                              | None => "unknown"
                              end));
             ("version", VNum 1);
             ("truncated", VBool isTruncated)];
     chat_createdAt := match existing with
                       | Some c => chat_createdAt c
                       | None => DateMs (now env)
                       end;
     chat_updatedAt := DateMs (now env);
     chat_lastSyncedAt := Null;
     chat_synced := false;
     chat_unsyncedOps := None |}.

Definition titleIs (t : string) (c : ChatRecord) : bool := String.eqb (chat_title c) t.
Definition idIs (i : string) (c : ChatRecord) : bool := String.eqb (chat_id c) i.

Definition autoSaveChat (env : Env) (slot : Slot) (messages : list ChatMessage)
  : list ChatRecord * Slot :=
  if negb (hasWindow env) then ([], slot)
  else
    let userMessages := List.filter isUser messages in
    if (length userMessages =? 0)%nat then (loadChatsFromStorage env slot, slot)
    else
      let chats := loadChatsFromStorage env slot in
      let chatTitle := getChatTitle messages in
      let existingIndex := findIndex (titleIs chatTitle) chats in
      let updated :=
        match existingIndex with
        | Some i => <[ i := chatRecordFor env (chats !! i) messages ]> chats
        | None => chatRecordFor env None messages :: chats
        end in
      persist env slot updated updated (loadChatsFromStorage env slot).

Definition deleteChat (env : Env) (slot : Slot) (chatId : string)
  : list ChatRecord * Slot :=
  if negb (hasWindow env) then ([], slot)
  else
    let chats := loadChatsFromStorage env slot in
    let updated := List.filter (fun c => negb (idIs chatId c)) chats in
    persist env slot updated updated (loadChatsFromStorage env slot).

Definition deleteAllChats (env : Env) (slot : Slot) : Slot :=
  if negb (hasWindow env) then slot
  else if setItemOk env then Empty else slot.

Definition getChatById (env : Env) (slot : Slot) (chatId : string) : option ChatRecord :=
  List.find (idIs chatId) (loadChatsFromStorage env slot).

(** [{ ...c, title: newTitle, updatedAt: new Date() }]. *)
Definition renamed (env : Env) (newTitle : string) (c : ChatRecord) : ChatRecord :=
  {| chat_id := chat_id c;
     chat_userId := chat_userId c;
     chat_title := newTitle;
     chat_snippet := chat_snippet c;
     chat_city := chat_city c;
     chat_messages := chat_messages c;
     chat_meta := chat_meta c;
     chat_createdAt := chat_createdAt c;
     chat_updatedAt := DateMs (now env);
     chat_lastSyncedAt := chat_lastSyncedAt c;
     chat_synced := chat_synced c;
     chat_unsyncedOps := chat_unsyncedOps c |}.

(** The list [renameChat] writes back: [updated] after the assignment to
    [updated[index]]. *)
Definition renameUpdated (env : Env) (newTitle : string) (index : nat)
    (chats : list ChatRecord) : list ChatRecord :=
  match chats !! index with
  | Some c => <[ index := renamed env newTitle c ]> chats
  | None => chats
  end.

Definition renameChat (env : Env) (slot : Slot) (chatId newTitle : string)
  : option ChatRecord * Slot :=
  if negb (hasWindow env) then (None, slot)
  else
    let chats := loadChatsFromStorage env slot in
    match findIndex (idIs chatId) chats with
    | None => (None, slot)
    | Some index =>
        let updated := renameUpdated env newTitle index chats in
        persist env slot updated (updated !! index) None
    end.

End Codec.

(** ** Translation helpers ([src/lib/api.ts]) *)

(** The body posted to [/api/gemini]. *)
Record Request : Type := {
  req_promptText : string;
  req_systemInstruction : string;
  req_language : string
}.

(** What [fetch] resolves to, as far as the helpers look at it:
    [response.ok], and the outcome of [response.json()] ([None] when the
    body is not JSON and the promise rejects). *)
Record Response : Type := {
  ok : bool;
  body : option value
}.

(** An [async] function that awaits at most one [fetch]: it either
    settles at once, or issues a request and settles from the response. *)
Inductive Async (A : Type) : Type :=
| Settled (r : result A)
| Fetch (req : Request) (resume : Response -> result A).
Arguments Settled {A} r.
Arguments Fetch {A} req resume.

Definition langName (targetLanguage : string) : string :=
  if String.eqb targetLanguage "ja-JP" then "Japanese (日本語)" else "English".

Definition newline : string := String (ascii_of_nat 10) "".

(** [texts.map((t, i) => `${i + 1}. ${t}`)]. *)
Fixpoint numbered (i : nat) (texts : list string) : list string :=
  match texts with
  | [] => []
  | t :: ts => (showNat (S i) ++ ". " ++ t) :: numbered (S i) ts
  end.

Definition batchPrompt (texts : list string) (targetLanguage : string) : string :=
  "Translate the following numbered items into " ++ langName targetLanguage
  ++ ". Preserve formatting. Return a JSON array of translated strings in order and nothing else."
  ++ newline ++ newline ++ joinWith (newline ++ newline) (numbered 0 texts).

Definition translatePrompt (text targetLanguage : string) : string :=
  "Translate the following text to " ++ langName targetLanguage ++ "."
  ++ newline
  ++ "Preserve formatting, lists, and any measurements. Only output the translated text, nothing else."
  ++ newline ++ newline ++ text.

(** [throw new Error(err.error || fallback)] after
    [err = await response.json().catch(() => ({}))]: what is thrown, an
    [Error] with its message or the [TypeError] of a step on the way. *)
Definition apiError (resp : Response) (fallback : string) : string :=
  match body resp with
  | None => fallback                                   (* err = {} *)
  | Some err =>
      match getProp err "error" with
      | Throw e => e                                   (* err is null *)
      | Ok msg =>
          if truthy msg then
            match toString msg with                    (* new Error(msg) *)
            | Ok text => text
            | Throw e => e
            end
          else fallback
      end
  end.

Definition SyntaxError : string := "SyntaxError".

(** [await response.json()] outside any [try]. *)
Definition responseJson (resp : Response) : result value :=
  match body resp with
  | Some data => Ok data
  | None => Throw SyntaxError
  end.

(** [v || d]. *)
Definition orElse (v d : value) : value := if truthy v then v else d.

Definition translateTextResume (resp : Response) : result value :=
  if negb (ok resp) then Throw (apiError resp "Translation API error")
  else
    let* data := responseJson resp in
    let* text := getProp data "text" in
    Ok (orElse text (VStr "")).

Definition translateText (text targetLanguage : string) : Async value :=
  if String.eqb text "" then Settled (Ok (VStr ""))
  else Fetch {| req_promptText := translatePrompt text targetLanguage;
                req_systemInstruction := "";
                req_language := targetLanguage |}
             translateTextResume.

(** The position of the last [c] in [s], counting from [i]. *)
Fixpoint lastIndexOf (c : ascii) (s : string) (i : nat) : option nat :=
  match s with
  | EmptyString => None
  | String a s' =>
      match lastIndexOf c s' (S i) with
      | Some j => Some j
      | None => if Ascii.eqb a c then Some i else None
      end
  end.

(** Element 0 of [txt.match(re)], where [re] is an opening bracket, a
    greedy run of any characters, and a closing bracket: the span from
    the first opening bracket to the last closing bracket after it, if
    there is one. *)
Definition bracketSpan (txt : string) : option string :=
  match index 0 "[" txt with
  | None => None
  | Some i =>
      match lastIndexOf "]"%char txt 0 with
      | Some j => if (i <? j)%nat then Some (substring i (j - i + 1) txt) else None
      | None => None
      end
  end.

Section Api.
Context {json : JsonApi}.

(** [JSON.parse(x)] on any value: the argument is converted to a string
    first. *)
Definition jsonParse (x : value) : result value :=
  let* text := toString x in
  match JSON_parse text with
  | Some v => Ok v
  | None => Throw SyntaxError
  end.

(** [arr.map(String)]. *)
Definition mapString (arr : list value) : result (list string) := mapR toString arr.

(** The [catch] block of [batchTranslate]: [Ok (Some r)] is [return r],
    [Ok None] falls through to the statement after the [try]. *)
Definition batchRecover (data : value) : result (option (list string)) :=
  let* text := getProp data "text" in
  match orElse text (VStr "") with
  | VStr txt =>
      match bracketSpan txt with
      | None => Ok None
      | Some span =>
          match JSON_parse span with
          | Some (VArr arr) =>
              match mapString arr with
              | Ok translated => Ok (Some translated)
              | Throw _ => Ok None   (* the inner catch *)
              end
          | _ => Ok None             (* not an array, or the inner catch *)
          end
      end
  | _ => Throw TypeError             (* txt.match is not a function *)
  end.

(** The [try] block of [batchTranslate], with the same convention. *)
Definition batchExtract (data : value) : result (option (list string)) :=
  let attempt :=
    let* text := getProp data "text" in
    let* parsed := jsonParse text in
    match parsed with
    | VArr arr => let* translated := mapString arr in Ok (Some translated)
    | _ => Ok None
    end in
  match attempt with
  | Ok r => Ok r
  | Throw _ => batchRecover data
  end.

Definition batchTranslateResume (texts : list string) (resp : Response)
  : result (list string) :=
  if negb (ok resp) then Throw (apiError resp "Batch translation API error")
  else
    let* data := responseJson resp in
    let* extracted := batchExtract data in
    match extracted with
    | Some translated => Ok translated
    | None => Ok (List.map (fun t => t) texts)   (* fallback: original texts *)
    end.

Definition batchTranslate (texts : list string) (targetLanguage : string)
  : Async (list string) :=
  match texts with
  | [] => Settled (Ok [])
  | _ => Fetch {| req_promptText := batchPrompt texts targetLanguage;
                  req_systemInstruction := "";
                  req_language := targetLanguage |}
               (batchTranslateResume texts)
  end.

End Api.

(** ** Translation cache and display resolver (chat page) *)

(** The own enumerable properties an object spread copies. *)
Fixpoint indexed (i : nat) (xs : list value) : list (string * value) :=
  match xs with
  | [] => []
  | x :: xs' => (showNat i, x) :: indexed (S i) xs'
  end.

Definition spreadProps (v : value) : list (string * value) :=
  match v with
  | VObj ps => ps
  | VArr xs => indexed 0 xs
  | VStr s => indexed 0 (List.map (fun a => VStr (String a "")) (list_ascii_of_string s))
  | _ => []
  end.

(** [{ ...o, [k]: v }] on the property list of [o]. *)
Fixpoint setProp (k : string) (v : value) (ps : list (string * value))
  : list (string * value) :=
  match ps with
  | [] => [(k, v)]
  | (k', x) :: ps' =>
      if String.eqb k' k then (k', v) :: ps' else (k', x) :: setProp k v ps'
  end.

(** [m.translations || {}], as a property list. *)
Definition translationsOrEmpty (m : ChatMessage) : list (string * value) :=
  match msg_translations m with
  | Some t => if truthy t then spreadProps t else []
  | None => []
  end.

(** [{ ...m, translations: { ...(m.translations || {}), [language]: v } }]. *)
Definition withTranslation (language : string) (v : value) (m : ChatMessage)
  : ChatMessage :=
  {| msg_id := msg_id m;
     msg_type := msg_type m;
     msg_original := msg_original m;
     msg_translations := Some (VObj (setProp language v (translationsOrEmpty m)));
     msg_timestamp := msg_timestamp m;
     msg_weatherData := msg_weatherData m;
     msg_sources := msg_sources m |}.

(** [m.translations?.[language]]. *)
Definition translationEntry (language : string) (m : ChatMessage) : value :=
  match msg_translations m with
  | Some t => if nullish t then VUndef else field t language
  | None => VUndef
  end.

(** [m.translations && m.translations[language]], as a condition. *)
Definition hasTranslation (language : string) (m : ChatMessage) : bool :=
  match msg_translations m with
  | Some t => truthy t && truthy (field t language)
  | None => false
  end.

(** [getMessageText]: [m.translations?.[language] ?? m.original ?? '']. *)
Definition getMessageText (language : string) (m : ChatMessage) : value :=
  coalesce (coalesce (translationEntry language m) (VStr (msg_original m))) (VStr "").

(** ** Translation scheduler (chat page)

    The page runs on one thread; an [async] function gives up control
    only at an [await].  The state below is what the pieces of code
    between two awaits read and write; each [Event] is one such piece. *)

Definition MAX_CONCURRENT_TRANSLATIONS : Z := 3.
Definition BATCH : nat := 8.

(** Where a call of [startWhenAllowed] stands: in the polling loop,
    awaiting [translateText], or past its [finally]. *)
Inductive Phase : Type := Sleeping | InFlight | Finished.

Record Task : Type := {
  task_id : string;            (* message.id *)
  task_original : string;      (* message.original *)
  task_language : string;      (* the language of the closure *)
  task_phase : Phase
}.

(** One run of the batch loop of the language-change effect: the part of
    [toTranslate] from index [i] on; its first [BATCH] messages are the
    batch whose [batchTranslate] call is awaited. *)
Record Runner : Type := {
  run_language : string;
  run_remaining : list ChatMessage
}.

(** An outbound request to the translation service. *)
Inductive Outbound : Type :=
| TranslateCall (id text language : string)
| BatchCall (texts : list string) (language : string).

Record Sched : Type := {
  messages : list ChatMessage;          (* the [messages] state *)
  translating : gset string;            (* translatingRef.current *)
  translatingCount : Z;                 (* translatingCountRef.current *)
  tasks : list Task;
  runners : list Runner;
  calls : list Outbound                 (* every request issued, oldest first *)
}.

Definition initial (msgs : list ChatMessage) : Sched :=
  {| messages := msgs; translating := ∅; translatingCount := 0;
     tasks := []; runners := []; calls := [] |}.

Definition setPhase (ph : Phase) (t : Task) : Task :=
  {| task_id := task_id t; task_original := task_original t;
     task_language := task_language t; task_phase := ph |}.

(** The updater of the on-demand path:
    [prev.map(m => m.id === message.id ? {...} : m)]. *)
Definition storeTranslation (id language : string) (translated : value)
    (prev : list ChatMessage) : list ChatMessage :=
  List.map (fun m => if String.eqb (msg_id m) id
                     then withTranslation language translated m else m) prev.

(** [results[idx]]. *)
Definition resultAt (results : list string) (idx : nat) : value :=
  match results !! idx with
  | Some r => VStr r
  | None => VUndef
  end.

(** The updater of the batch path. *)
Definition applyBatch (language : string) (batch : list ChatMessage)
    (results : list string) (prev : list ChatMessage) : list ChatMessage :=
  List.map (fun m =>
              match findIndex (fun b => String.eqb (msg_id b) (msg_id m)) batch with
              | Some idx => withTranslation language (resultAt results idx) m
              | None => m
              end) prev.

(** One evaluation of the loop condition of [startWhenAllowed] by task
    [i], and, when it lets the task through, the code up to the [await]
    of [translateText] (whose text is not empty, so that it fetches). *)
Definition wake (i : nat) (s : Sched) : Sched :=
  match tasks s !! i with
  | Some t =>
      match task_phase t with
      | Sleeping =>
          if MAX_CONCURRENT_TRANSLATIONS <=? translatingCount s then s
          else {| messages := messages s;
                  translating := {[ task_id t ]} ∪ translating s;
                  translatingCount := translatingCount s + 1;
                  tasks := <[ i := setPhase InFlight t ]> (tasks s);
                  runners := runners s;
                  calls := calls s ++ [TranslateCall (task_id t) (task_original t)
                                                     (task_language t)] |}
      | _ => s
      end
  | None => s
  end.

(** [ensureTranslation], called by a [MessageItem] rendered with
    [message] and [language]. *)
Definition ensureTranslation (message : ChatMessage) (language : string)
    (s : Sched) : Sched :=
  if String.eqb (msg_original message) "" then s
  else if hasTranslation language message then s
  else if bool_decide (msg_id message ∈ translating s) then s
  else
    let t := {| task_id := msg_id message; task_original := msg_original message;
                task_language := language; task_phase := Sleeping |} in
    wake (length (tasks s))
         {| messages := messages s; translating := translating s;
            translatingCount := translatingCount s;
            tasks := tasks s ++ [t];
            runners := runners s; calls := calls s |}.

(** The effect of [MessageItem] that asks for a translation. *)
Definition messageEffect (message : ChatMessage) (language : string)
    (s : Sched) : Sched :=
  match msg_type message with
  | user => s
  | _ => if negb (hasTranslation language message)
         then ensureTranslation message language s else s
  end.

(** The continuation of task [i] when [translateText] settles: the
    [setMessages] call on success, then the [finally] block. *)
Definition translateSettled (i : nat) (r : result value) (s : Sched) : Sched :=
  match tasks s !! i with
  | Some t =>
      match task_phase t with
      | InFlight =>
          {| messages := match r with
                         | Ok translated =>
                             storeTranslation (task_id t) (task_language t)
                                              translated (messages s)
                         | Throw _ => messages s
                         end;
             translating := translating s ∖ {[ task_id t ]};
             translatingCount := translatingCount s - 1;
             tasks := <[ i := setPhase Finished t ]> (tasks s);
             runners := runners s;
             calls := calls s |}
      | _ => s
      end
  | None => s
  end.

(** The messages the batch flow selects. *)
Definition needsTranslation (language : string) (m : ChatMessage) : bool :=
  negb (String.eqb (msg_original m) "")
  && negb (hasTranslation language m)
  && negb (Role_eqb (msg_type m) user).

Definition toTranslate (language : string) (current : list ChatMessage)
  : list ChatMessage :=
  List.filter (needsTranslation language) current.

(** The first updater of the language-change effect, which refreshes the
    greeting (the system message with id ['1']). *)
Definition refreshGreeting (language greeting : string) (m : ChatMessage)
  : ChatMessage :=
  if String.eqb (msg_id m) "1" && Role_eqb (msg_type m) system
  then withTranslation language (VStr greeting)
         {| msg_id := msg_id m; msg_type := msg_type m;
            msg_original := greeting;
            msg_translations := msg_translations m;
            msg_timestamp := msg_timestamp m;
            msg_weatherData := msg_weatherData m;
            msg_sources := msg_sources m |}
  else m.

(** The request the batch loop issues for what remains, if anything. *)
Definition nextBatchCall (language : string) (remaining : list ChatMessage)
  : list Outbound :=
  match remaining with
  | [] => []
  | _ => [BatchCall (List.map msg_original (take BATCH remaining)) language]
  end.

(** The language-change effect up to the first [await]. *)
Definition languageChanged (language greeting : string) (s : Sched) : Sched :=
  let current := List.map (refreshGreeting language greeting) (messages s) in
  let pending := toTranslate language current in
  {| messages := current;
     translating := translating s;
     translatingCount := translatingCount s;
     tasks := tasks s;
     runners := match pending with
                | [] => runners s
                | _ => runners s ++ [{| run_language := language;
                                        run_remaining := pending |}]
                end;
     calls := calls s ++ nextBatchCall language pending |}.

(** The continuation of batch loop [j] when [batchTranslate] settles:
    the [setMessages] call on success (a failed batch is logged and
    skipped), then the next iteration up to its [await]. *)
Definition batchSettled (j : nat) (r : result (list string)) (s : Sched) : Sched :=
  match runners s !! j with
  | Some run =>
      match run_remaining run with
      | [] => s
      | _ =>
          let batch := take BATCH (run_remaining run) in
          let rest := drop BATCH (run_remaining run) in
          {| messages := match r with
                         | Ok results =>
                             applyBatch (run_language run) batch results (messages s)
                         | Throw _ => messages s
                         end;
             translating := translating s;
             translatingCount := translatingCount s;
             tasks := tasks s;
             runners := <[ j := {| run_language := run_language run;
                                   run_remaining := rest |} ]> (runners s);
             calls := calls s ++ nextBatchCall (run_language run) rest |}
      end
  | None => s
  end.

Inductive Event : Type :=
| Ensure (message : ChatMessage) (language : string)
| Effect (message : ChatMessage) (language : string)
| TimerFired (i : nat)
| TranslateSettled (i : nat) (r : result value)
| LanguageChanged (language greeting : string)
| BatchSettled (j : nat) (r : result (list string)).

Definition step (s : Sched) (e : Event) : Sched :=
  match e with
  | Ensure m l => ensureTranslation m l s
  | Effect m l => messageEffect m l s
  | TimerFired i => wake i s
  | TranslateSettled i r => translateSettled i r s
  | LanguageChanged l g => languageChanged l g s
  | BatchSettled j r => batchSettled j r s
  end.

Definition run (events : list Event) (s : Sched) : Sched :=
  fold_left step events s.

(** The events of the on-demand path alone. *)
Definition onDemand (e : Event) : bool :=
  match e with
  | Ensure _ _ | Effect _ _ | TimerFired _ | TranslateSettled _ _ => true
  | LanguageChanged _ _ | BatchSettled _ _ => false
  end.

Definition isInFlight (t : Task) : bool :=
  match task_phase t with InFlight => true | _ => false end.

Definition isActive (r : Runner) : bool :=
  match run_remaining r with [] => false | _ => true end.

(** Requests issued and not yet settled. *)
Definition pendingTranslateCalls (s : Sched) : nat :=
  length (List.filter isInFlight (tasks s)).

Definition pendingBatchCalls (s : Sched) : nat :=
  length (List.filter isActive (runners s)).

Definition pendingCalls (s : Sched) : nat :=
  (pendingTranslateCalls s + pendingBatchCalls s)%nat.

(** The requests of the log that translate message [id] into
    [language] on demand. *)
Definition isTranslateCall (id language : string) (c : Outbound) : bool :=
  match c with
  | TranslateCall id' _ l => String.eqb id' id && String.eqb l language
  | BatchCall _ _ => false
  end.

Definition isBatchCall (c : Outbound) : bool :=
  match c with BatchCall _ _ => true | TranslateCall _ _ _ => false end.

(** ** A reference runtime

    Concrete date and JSON primitives on which the definitions above can
    be evaluated.  The date text is the decimal count of milliseconds
    (every other string is an invalid date); the JSON reader covers the
    grammar with the single-character escapes and the number literals
    whose value is an integer, which it rounds to the nearest Number. *)

Module Reference.

Definition parseDate (s : string) : JsDate :=
  match NilZero.int_of_string s with
  | Some d => if String.eqb (decimal (Z.of_int d)) s then DateMs (Z.of_int d) else InvalidDate
  | None => InvalidDate
  end.

Definition dquote : ascii := ascii_of_nat 34.

Definition isWs (a : ascii) : bool :=
  let n := nat_of_ascii a in
  (n =? 32)%nat || (n =? 9)%nat || (n =? 10)%nat || (n =? 13)%nat.

Fixpoint skipWs (s : list ascii) : list ascii :=
  match s with
  | a :: s' => if isWs a then skipWs s' else s
  | [] => []
  end.

Definition digitOf (a : ascii) : option Z :=
  let n := nat_of_ascii a in
  if ((48 <=? n) && (n <=? 57))%nat then Some (Z.of_nat (n - 48)) else None.

(** The digits at the head of [s], as a number, with what follows. *)
Fixpoint readDigits (acc : Z) (s : list ascii) : Z * list ascii :=
  match s with
  | a :: s' =>
      match digitOf a with
      | Some d => readDigits (10 * acc + d) s'
      | None => (acc, s)
      end
  | [] => (acc, [])
  end.

(** The fraction of a number literal, read on as further digits of
    [n]: the digits so far, how many of them follow the point, and what
    comes next. *)
Definition readFraction (n : Z) (s : list ascii) : option (Z * nat * list ascii) :=
  match s with
  | c :: r =>
      if Ascii.eqb c "."%char then
        let '(m, r') := readDigits n r in
        let f := (length r - length r')%nat in
        if (f =? 0)%nat then None else Some (m, f, r')
      else Some (n, 0%nat, s)
  | [] => Some (n, 0%nat, [])
  end.

(** The exponent of a number literal, 0 when there is none. *)
Definition readExponent (s : list ascii) : option (Z * list ascii) :=
  match s with
  | c :: r =>
      if Ascii.eqb c "e"%char || Ascii.eqb c "E"%char then
        let '(negative, r1) :=
          match r with
          | sign :: r' =>
              if Ascii.eqb sign "-"%char then (true, r')
              else if Ascii.eqb sign "+"%char then (false, r')
              else (false, r)
          | [] => (false, r)
          end in
        let '(e, r2) := readDigits 0 r1 in
        if (length r1 =? length r2)%nat then None
        else Some (if negative then - e else e, r2)
      else Some (0, s)
  | [] => Some (0, [])
  end.

(** [m * 10^e] when that is an integer (a power beyond [10^400] is as
    good as [10^400]: the Number is an infinity either way). *)
Definition scale (m e : Z) : option Z :=
  if m =? 0 then Some 0
  else if 0 <=? e then Some (m * 10 ^ Z.min e 400)
  else if digitCount m <=? - e then None
  else if m mod 10 ^ (- e) =? 0 then Some (m / 10 ^ (- e)) else None.

(** A number literal without its sign: digits without a leading zero,
    an optional fraction, an optional exponent.  It is read when its
    value is an integer. *)
Definition readNumber (s : list ascii) : option (Z * list ascii) :=
  match s with
  | a :: s' =>
      match digitOf a with
      | Some d =>
          let '(n, rest) := readDigits d s' in
          let leadingZero := (d =? 0) && negb (length rest =? length s')%nat in
          if leadingZero then None
          else
            match readFraction n rest with
            | Some (m, f, rest1) =>
                match readExponent rest1 with
                | Some (e, rest2) =>
                    match scale m (e - Z.of_nat f) with
                    | Some v => Some (v, rest2)
                    | None => None
                    end
                | None => None
                end
            | None => None
            end
      | None => None
      end
  | [] => None
  end.

(** The Number a literal of size [n] stands for. *)
Definition number (negative : bool) (n : Z) : value :=
  if isInfinite n then VInfinity negative
  else VNum (if negative then - nearestDouble n else nearestDouble n).

(** The characters of a string literal after its opening quote. *)
Fixpoint readString (s : list ascii) (acc : string) : option (string * list ascii) :=
  match s with
  | [] => None
  | a :: s' =>
      if Ascii.eqb a dquote then Some (acc, s')
      else if Ascii.eqb a "\"%char then
        match s' with
        | b :: s'' =>
            let esc (c : ascii) := readString s'' (acc ++ String c "") in
            if Ascii.eqb b dquote then esc dquote
            else if Ascii.eqb b "\"%char then esc "\"%char
            else if Ascii.eqb b "/"%char then esc "/"%char
            else if Ascii.eqb b "n"%char then esc (ascii_of_nat 10)
            else if Ascii.eqb b "t"%char then esc (ascii_of_nat 9)
            else if Ascii.eqb b "r"%char then esc (ascii_of_nat 13)
            else if Ascii.eqb b "b"%char then esc (ascii_of_nat 8)
            else if Ascii.eqb b "f"%char then esc (ascii_of_nat 12)
            else None
        | [] => None
        end
      else if (nat_of_ascii a <? 32)%nat then None
      else readString s' (acc ++ String a "")
  end.

Definition dropPrefix (p : string) (s : list ascii) : option (list ascii) :=
  let lp := list_ascii_of_string p in
  if bool_decide (take (length lp) s = lp) then Some (drop (length lp) s) else None.

Fixpoint readValue (fuel : nat) (s : list ascii) : option (value * list ascii) :=
  match fuel with
  | O => None
  | S fuel' =>
      let elements :=
        fix elements (n : nat) (acc : list value) (s : list ascii)
          : option (value * list ascii) :=
          match n with
          | O => None
          | S n' =>
              match readValue fuel' s with
              | Some (v, rest) =>
                  match skipWs rest with
                  | c :: rest' =>
                      if Ascii.eqb c ","%char then elements n' (acc ++ [v])%list rest'
                      else if Ascii.eqb c "]"%char then Some (VArr (acc ++ [v])%list, rest')
                      else None
                  | [] => None
                  end
              | None => None
              end
          end in
      let members :=
        fix members (n : nat) (acc : list (string * value)) (s : list ascii)
          : option (value * list ascii) :=
          match n with
          | O => None
          | S n' =>
              match skipWs s with
              | q :: s1 =>
                  if Ascii.eqb q dquote then
                    match readString s1 "" with
                    | Some (k, s2) =>
                        match skipWs s2 with
                        | c :: s3 =>
                            if Ascii.eqb c ":"%char then
                              match readValue fuel' s3 with
                              | Some (v, rest) =>
                                  match skipWs rest with
                                  | d :: rest' =>
                                      if Ascii.eqb d ","%char
                                      then members n' (setProp k v acc) rest'
                                      else if Ascii.eqb d "}"%char
                                      then Some (VObj (setProp k v acc), rest')
                                      else None
                                  | [] => None
                                  end
                              | None => None
                              end
                            else None
                        | [] => None
                        end
                    | None => None
                    end
                  else None
              | [] => None
              end
          end in
      match skipWs s with
      | [] => None
      | c :: rest =>
          if Ascii.eqb c "["%char then
            match skipWs rest with
            | d :: rest' =>
                if Ascii.eqb d "]"%char then Some (VArr [], rest')
                else elements (length s) [] rest
            | [] => None
            end
          else if Ascii.eqb c "{"%char then
            match skipWs rest with
            | d :: rest' =>
                if Ascii.eqb d "}"%char then Some (VObj [], rest')
                else members (length s) [] rest
            | [] => None
            end
          else if Ascii.eqb c dquote then
            match readString rest "" with
            | Some (str, rest') => Some (VStr str, rest')
            | None => None
            end
          else if Ascii.eqb c "-"%char then
            match readNumber rest with
            | Some (n, rest') => Some (number true n, rest')
            | None => None
            end
          else
            match dropPrefix "null" (c :: rest) with
            | Some rest' => Some (VNull, rest')
            | None =>
                match dropPrefix "true" (c :: rest) with
                | Some rest' => Some (VBool true, rest')
                | None =>
                    match dropPrefix "false" (c :: rest) with
                    | Some rest' => Some (VBool false, rest')
                    | None =>
                        match readNumber (c :: rest) with
                        | Some (n, rest') => Some (number false n, rest')
                        | None => None
                        end
                    end
                end
            end
      end
  end.

Definition parse (text : string) : option value :=
  let s := list_ascii_of_string text in
  match readValue (S (length s)) s with
  | Some (v, rest) => match skipWs rest with [] => Some v | _ => None end
  | None => None
  end.

Fixpoint quoteChars (s : string) : string :=
  match s with
  | EmptyString => ""
  | String a s' =>
      (if Ascii.eqb a dquote || Ascii.eqb a "\"%char
       then String "\"%char (String a "") else String a "")
      ++ quoteChars s'
  end.

Definition quote (s : string) : string :=
  String dquote (quoteChars s ++ String dquote "").

Fixpoint print (v : value) : string :=
  match v with
  | VUndef | VNull | VInfinity _ => "null"
  | VBool true => "true"
  | VBool false => "false"
  | VNum n => if isInfinite n then "null" else showZ n
  | VStr s => quote s
  | VArr xs =>
      "[" ++ joinWith ","
               ((fix each (l : list value) : list string :=
                   match l with [] => [] | x :: l' => print x :: each l' end) xs)
          ++ "]"
  | VObj ps =>
      "{" ++ joinWith ","
               ((fix each (l : list (string * value)) : list string :=
                   match l with
                   | [] => []
                   | (k, VUndef) :: l' => each l'
                   | (k, x) :: l' => (quote k ++ ":" ++ print x) :: each l'
                   end) ps)
          ++ "}"
  end.

End Reference.

#[local] Instance refJson : JsonApi :=
  {| JSON_parse := Reference.parse; JSON_stringify := Reference.print |}.

#[local] Instance refDates : DateApi.
Proof.
  refine {| Date_parse := Reference.parseDate; Date_toISOString := decimal |}.
  intros ms. unfold Reference.parseDate, decimal.
  assert (Hread : NilZero.int_of_string (NilZero.string_of_int (Z.to_int ms))
                  = Some (Z.to_int ms)).
  { apply NilZero.isi; destruct ms; simpl; try discriminate;
      intros [= H]; exact (DecimalPos.Unsigned.to_uint_nonnil _ H). }
  rewrite Hread, DecimalZ.of_to, String.eqb_refl. reflexivity.
Defined.

(** ** Vocabulary of the statements *)

(** A value that [JSON.stringify] writes in full: no [undefined] and no
    infinite number anywhere. *)
Fixpoint clean (v : value) : bool :=
  match v with
  | VUndef | VInfinity _ => false
  | VNum n => negb (isInfinite n)
  | VArr xs =>
      (fix all (l : list value) : bool :=
         match l with [] => true | x :: l' => clean x && all l' end) xs
  | VObj ps =>
      (fix all (l : list (string * value)) : bool :=
         match l with [] => true | (_, x) :: l' => clean x && all l' end) ps
  | _ => true
  end.

Definition validDate (d : JsDate) : bool :=
  match d with DateMs _ => true | InvalidDate => false end.

Definition cleanObject (o : option value) : bool :=
  match o with
  | Some v => isObjectAndTruthy v && clean v
  | None => true
  end.

Definition cleanArray (o : option value) : bool :=
  match o with
  | Some v => isArray v && clean v
  | None => true
  end.

Definition present {A} (o : nullable A) : bool :=
  match o with Absent => false | _ => true end.

(** The shape of a message the decoder returns from a JSON value. *)
Definition decodedMessage (m : ChatMessage) : bool :=
  cleanObject (msg_translations m)
  && cleanObject (msg_weatherData m)
  && cleanArray (msg_sources m).

(** The shape of a record the decoder returns from a JSON value. *)
Definition decodedChat (c : ChatRecord) : bool :=
  present (chat_userId c) && present (chat_city c) && present (chat_lastSyncedAt c)
  && isObjectAndTruthy (chat_meta c) && clean (chat_meta c)
  && cleanArray (chat_unsyncedOps c)
  && forallb decodedMessage (chat_messages c).

(** The [messages] array the record decoder walks. *)
Definition messagesRaw (chat : value) : list value :=
  match field chat "messages" with VArr xs => xs | _ => [] end.

(** [String(v)] returns: no object with an own [toString] is in the
    way. *)
Definition stringable (v : value) : bool :=
  match toString v with Ok _ => true | Throw _ => false end.

(** The stored entries the decoder's callbacks take without throwing:
    a message that is not [null] and whose [id] and [original] convert
    to strings; a record that is not [null], whose messages are such
    and whose [id], [title] and [snippet] convert to strings. *)
Definition decodableMessage (mRaw : value) : bool :=
  negb (nullish mRaw)
  && stringable (field mRaw "id") && stringable (field mRaw "original").

Definition decodableChat (chat : value) : bool :=
  negb (nullish chat)
  && forallb decodableMessage (messagesRaw chat)
  && stringable (field chat "id") && stringable (field chat "title")
  && stringable (field chat "snippet").

(** Every date of the record is a valid date. *)
Definition datesValid (c : ChatRecord) : bool :=
  validDate (chat_createdAt c) && validDate (chat_updatedAt c)
  && match chat_lastSyncedAt c with Has d => validDate d | _ => true end
  && forallb (fun m => validDate (msg_timestamp m)) (chat_messages c).

(** What an [async] helper settles to, given the response to the request
    it may have issued. *)
Definition settle {A} (call : Async A) (resp : Response) : result A :=
  match call with
  | Settled r => r
  | Fetch _ resume => resume resp
  end.

(** No list of strings is to be had from a text: it is not JSON, or
    not JSON for an array, or JSON for an array with an element that
    [String] refuses. *)
Definition noStrings {json : JsonApi} (s : string) : Prop :=
  forall arr, JSON_parse s = Some (VArr arr) -> exists e, mapString arr = Throw e.

(** The code extracts no array from the [text] of a response body.
    Either [String(text)] is JSON for something that is not an array
    ([text] is [null], a number, a boolean, a string such as ['42']);
    or [text] is a string or falsy (a missing [text] included), no list
    of strings is to be had from [String(text)], and none from the span
    from the first opening to the last closing bracket of the text, if
    there is one. *)
Definition yieldsNoArray {json : JsonApi} (text : value) : Prop :=
  exists s, toString text = Ok s
    /\ ((exists parsed, JSON_parse s = Some parsed /\ isArray parsed = false)
        \/ (noStrings s
            /\ exists txt, orElse text (VStr "") = VStr txt
                 /\ forall span, bracketSpan txt = Some span -> noStrings span)).

(** The [language] entry of every message of the page, in order. *)
Definition entries (language : string) (s : Sched) : list value :=
  List.map (translationEntry language) (messages s).

(** The counter is the number of on-demand requests in flight, and it
    never exceeds the limit. *)
Definition counted (s : Sched) : Prop :=
  translatingCount s = Z.of_nat (pendingTranslateCalls s)
  /\ translatingCount s <= MAX_CONCURRENT_TRANSLATIONS.

(** What an element adds to the length of a filtered list. *)
Definition weight (b : bool) : nat := if b then 1%nat else 0%nat.

(** The successive slices [l.slice(i, i + n)], [i = 0, n, 2n, ...], the
    loop of the batch flow takes. *)
Fixpoint chunks {A} (n : nat) (fuel : nat) (l : list A) : list (list A) :=
  match fuel with
  | O => []
  | S fuel' =>
      match l with
      | [] => []
      | _ => take n l :: chunks n fuel' (drop n l)
      end
  end.

(** The batches of the loop over [pending]. *)
Definition batches (pending : list ChatMessage) : list (list ChatMessage) :=
  chunks BATCH (length pending) pending.

(** The request for one batch: [batchTranslate(batch.map(b => b.original), language)]. *)
Definition batchCall (language : string) (batch : list ChatMessage) : Outbound :=
  BatchCall (List.map msg_original batch) language.

(** ** Sample data

    Concrete stores, pages and event sequences on which the properties
    are evaluated. *)

(** A stored collection on which the properties are evaluated: one
    complete record (its dates in the text form of the reference
    runtime) and one record with nothing but a title. *)
Definition sampleStored : value :=
  VArr [VObj [("id", VStr "local_1699990000000");
              ("title", VStr "Weather in Kyoto?");
              ("snippet", VStr "Mild and clear.");
              ("city", VStr "Kyoto");
              ("messages",
               VArr [VObj [("id", VStr "1699990000000");
                           ("type", VStr "user");
                           ("original", VStr "Weather in Kyoto?");
                           ("translations", VObj [("en-US", VStr "Weather in Kyoto?")]);
                           ("timestamp", VStr "1699990000000")];
                     VObj [("id", VStr "1699990000001");
                           ("type", VStr "assistant");
                           ("original", VStr "Mild and clear.");
                           ("timestamp", VStr "1699990000500");
                           ("weatherData", VObj [("city", VStr "Kyoto"); ("temp", VNum 18)]);
                           ("sources", VArr [])];
                     VObj [("type", VStr "robot")]]);
              ("meta", VObj [("device", VStr "Mozilla/5.0"); ("version", VNum 1);
                             ("truncated", VBool false)]);
              ("createdAt", VStr "1699990000000");
              ("updatedAt", VStr "1699990000900");
              ("lastSyncedAt", VNull);
              ("synced", VBool false)];
        VObj [("title", VStr "Rain tomorrow?"); ("createdAt", VNum 5)]].

(** The environment and the messages the store properties are evaluated
    on. *)
Definition sampleEnv : Env :=
  {| hasWindow := true; now := 1700000000000;
     userAgent := Some "Mozilla/5.0 (X11; Linux x86_64)"; setItemOk := true |}.

Definition sampleMessages : list ChatMessage :=
  [ {| msg_id := "1699990000000"; msg_type := user;
       msg_original := "Weather in Kyoto?";
       msg_translations := Some (VObj [("en-US", VStr "Weather in Kyoto?")]);
       msg_timestamp := DateMs 1699990000000;
       msg_weatherData := None; msg_sources := None |};
    {| msg_id := "1699990000001"; msg_type := assistant;
       msg_original := "Mild and clear, 18 degrees.";
       msg_translations := None;
       msg_timestamp := DateMs 1699990000500;
       msg_weatherData := Some (VObj [("city", VStr "Kyoto"); ("temp", VNum 18)]);
       msg_sources := None |} ].

(** One assistant message, as the page holds it before any translation. *)
Definition reply (id text : string) : ChatMessage :=
  {| msg_id := id; msg_type := assistant; msg_original := text;
     msg_translations := None; msg_timestamp := DateMs 0;
     msg_weatherData := None; msg_sources := None |}.

(** A language switch starts a batch for the message; the message is
    then rendered and asks for its translation on demand; the on-demand
    request is answered first. *)
Definition raceEvents : list Event :=
  [ LanguageChanged "ja-JP" "Hello";
    Ensure (reply "a" "Sunny") "ja-JP";
    TranslateSettled 0 (Ok (VStr "fast")) ].

(** Ten messages that need a translation, rendered at once. *)
Definition tenReplies : list ChatMessage :=
  List.map (fun n => reply (showNat n) ("Forecast " ++ showNat n)) (seq 2 10).

Definition tenRequests : list Event :=
  List.map (fun m => Ensure m "ja-JP") tenReplies.

(** Four replies; the first three take the three slots. *)
Definition fourReplies : list ChatMessage :=
  [reply "a" "Sunny"; reply "b" "Windy"; reply "c" "Rain"; reply "d" "Snow"].

Definition slotsTaken : Sched :=
  run [Ensure (reply "a" "Sunny") "ja-JP"; Ensure (reply "b" "Windy") "ja-JP";
       Ensure (reply "c" "Rain") "ja-JP"]
      (initial fourReplies).

(** A user message, created with its text cached for the language it
    was typed in. *)
Definition question : ChatMessage :=
  {| msg_id := "10"; msg_type := user; msg_original := "Weather this week?";
     msg_translations := Some (VObj [("en-US", VStr "Weather this week?")]);
     msg_timestamp := DateMs 10; msg_weatherData := None; msg_sources := None |}.

(** A page with the greeting, a question and five replies that have no
    Japanese text. *)
Definition fiveReplies : list ChatMessage :=
  [ {| msg_id := "1"; msg_type := system; msg_original := "Hello";
       msg_translations := Some (VObj [("en-US", VStr "Hello")]);
       msg_timestamp := DateMs 0; msg_weatherData := None; msg_sources := None |};
    question;
    reply "11" "Sunny"; reply "12" "Windy"; reply "13" "Rain";
    reply "14" "Snow"; reply "15" "Fog" ].

(** ** Vocabulary of the further properties *)

(** What a message keeps through the storage text whatever else it
    holds: its id, its role and its original text. *)
Definition sameMessage (m m' : ChatMessage) : Prop :=
  msg_id m' = msg_id m /\ msg_type m' = msg_type m /\ msg_original m' = msg_original m.

(** What a record keeps through the storage text whatever else it
    holds: its id, title and snippet, and its messages in order. *)
Definition sameChat (c c' : ChatRecord) : Prop :=
  chat_id c' = chat_id c /\ chat_title c' = chat_title c
  /\ chat_snippet c' = chat_snippet c
  /\ Forall2 sameMessage (chat_messages c) (chat_messages c').

(** A question of 68 characters, and a page where a short reply comes
    before it. *)
Definition longQuestion : ChatMessage :=
  {| msg_id := "1"; msg_type := user;
     msg_original := "What will the weather be like in Kyoto over the coming long weekend?";
     msg_translations := None; msg_timestamp := DateMs 0;
     msg_weatherData := None; msg_sources := None |}.

Definition shortExchange : list ChatMessage := [reply "2" "Mild."; longQuestion].

(** What the translation code may change of a message: its
    [translations], and the text of the greeting (the system message
    with id ['1']), nothing else. *)
Definition translatedOnly (m m' : ChatMessage) : Prop :=
  msg_id m' = msg_id m /\ msg_type m' = msg_type m
  /\ msg_timestamp m' = msg_timestamp m
  /\ msg_weatherData m' = msg_weatherData m
  /\ msg_sources m' = msg_sources m
  /\ (msg_original m' = msg_original m \/ (msg_id m = "1" /\ msg_type m = system)).

(** Task [t] awaits the response to a request for message [id]. *)
Definition inFlightFor (id : string) (t : Task) : bool :=
  isInFlight t && String.eqb (task_id t) id.

(** The request for the first reply fails. *)
Definition failedOnce : list Event :=
  [ Ensure (reply "a" "Sunny") "ja-JP";
    TranslateSettled 0 (Throw "Translation API error") ].

(** The ids marked in [translatingRef] all have a request in flight. *)
Definition marked (s : Sched) : Prop :=
  forall id, id ∈ translating s -> existsb (inFlightFor id) (tasks s) = true.


(** A response of the translation service whose [text] is [txt]. *)
Definition textResponse (txt : string) : Response :=
  {| ok := true; body := Some (VObj [("text", VStr txt)]) |}.

(** The auto-save effect of the page, run whenever [messages] changes:
    the list [autoSaveChat] returned, when it was called, and the
    storage slot afterwards. *)
Definition autoSaveEffect {dates : DateApi} {json : JsonApi}
    (env : Env) (slot : Slot) (messages : list ChatMessage)
  : option (list ChatRecord) * Slot :=
  if (1 <? length messages)%nat then
    if existsb isUser messages then
      let saved := autoSaveChat env slot messages in
      (Some (fst saved), snd saved)
    else (None, slot)
  else (None, slot).

(** The greeting, a question and its reply, and the event that brings
    the Japanese text of the reply. *)
Definition oneExchange : list ChatMessage :=
  [ {| msg_id := "1"; msg_type := system; msg_original := "Hello";
       msg_translations := Some (VObj [("en-US", VStr "Hello")]);
       msg_timestamp := DateMs 0; msg_weatherData := None; msg_sources := None |};
    question; reply "11" "Sunny" ].

Definition replyTranslated : list Event :=
  [ LanguageChanged "ja-JP" "こんにちは";
    Ensure (reply "11" "Sunny") "ja-JP";
    TranslateSettled 0 (Ok (VStr "晴れ")) ].

(** ** Escaping of assistant text (chat page)

    The five characters the escaping looks for are ASCII; every other
    unit of the string is copied as it is. *)

(** [s.replace(/c/g, r)] for one character [c] and a replacement text
    [r] that holds no [$] pattern. *)
Fixpoint replaceAll (c : ascii) (r s : string) : string :=
  match s with
  | EmptyString => EmptyString
  | String a s' =>
      if Ascii.eqb a c then (r ++ replaceAll c r s')%string
      else String a (replaceAll c r s')
  end.

Definition doubleQuote : ascii := ascii_of_nat 34.

Definition escapeHtml (s : string) : string :=
  replaceAll "'" "&#39;"
    (replaceAll doubleQuote "&quot;"
       (replaceAll ">" "&gt;"
          (replaceAll "<" "&lt;"
             (replaceAll "&" "&amp;" s)))).

(** The escape of one character, read in a single pass. *)
Definition escapeChar (a : ascii) : string :=
  if Ascii.eqb a "&" then "&amp;"
  else if Ascii.eqb a "<" then "&lt;"
  else if Ascii.eqb a ">" then "&gt;"
  else if Ascii.eqb a doubleQuote then "&quot;"
  else if Ascii.eqb a "'" then "&#39;"
  else String a "".

Fixpoint escapeEach (s : string) : string :=
  match s with
  | EmptyString => EmptyString
  | String a s' => (escapeChar a ++ escapeEach s')%string
  end.

(** The characters that open or close a tag or an attribute value. *)
Definition isMarkup (a : ascii) : bool :=
  Ascii.eqb a "<" || Ascii.eqb a ">" || Ascii.eqb a doubleQuote || Ascii.eqb a "'".

Fixpoint anyChar (p : ascii -> bool) (s : string) : bool :=
  match s with
  | EmptyString => false
  | String a s' => p a || anyChar p s'
  end.

(** ** Renaming from the sidebar ([src/components/Sidebar.tsx]) *)

(** [String.prototype.trim]. *)
Class StringApi := {
  trim : string -> string
}.

(** The state of the sidebar that renaming reads and writes. *)
Record Sidebar : Type := {
  side_chats : list ChatRecord;          (* the [chats] state *)
  renamingChatId : option string;
  renameText : string
}.

(** [handleRenameSave].  [localStorage.setItem] is called outside any
    [try]: when it throws, so does the handler. *)
Definition handleRenameSave {dates : DateApi} {strings : StringApi}
    (env : Env) (slot : Slot) (sb : Sidebar) (chatId : string)
  : result (Sidebar * Slot) :=
  if negb (String.eqb (trim (renameText sb)) "") then
    let updated :=
      List.map (fun chat => if idIs chatId chat
                            then renamed env (trim (renameText sb)) chat
                            else chat)
               (side_chats sb) in
    let done := {| side_chats := updated; renamingChatId := None; renameText := "" |} in
    if hasWindow env then
      if setItemOk env then Ok (done, Holds (encode updated))
      else Throw "QuotaExceededError"
    else Ok (done, slot)
  else Ok ({| side_chats := side_chats sb; renamingChatId := None; renameText := "" |},
           slot).

(** A reference [trim], for the ASCII white space. *)
Definition asciiSpace (a : ascii) : bool :=
  let n := nat_of_ascii a in
  ((9 <=? n)%nat && (n <=? 13)%nat) || (n =? 32)%nat.

Fixpoint trimStart (s : string) : string :=
  match s with
  | EmptyString => EmptyString
  | String a s' => if asciiSpace a then trimStart s' else s
  end.

Fixpoint trimEnd (s : string) : string :=
  match s with
  | EmptyString => EmptyString
  | String a s' =>
      match trimEnd s' with
      | EmptyString => if asciiSpace a then EmptyString else String a EmptyString
      | rest => String a rest
      end
  end.

#[local] Instance refStrings : StringApi := {| trim := fun s => trimEnd (trimStart s) |}.

(** The sidebar showing [sampleStored], with a new name typed for its
    first conversation. *)
Definition sampleSidebar : Sidebar :=
  {| side_chats := loadChatsFromStorage sampleEnv (Holds sampleStored);
     renamingChatId := Some "local_1699990000000";
     renameText := "  Kyoto trip " |}.

(** ** The assistant reply ([handleSendMessage], step 5)

    [text] is [response.text], a string. *)

Section Reply.
Context {json : JsonApi}.

(** [enText] and [jaText] after the [try]/[catch] around
    [JSON.parse(response.text)]. *)
Definition replyTexts (language text : string) : value * value :=
  let attempt :=
    match JSON_parse text with
    | Some parsed =>
        let* en := getProp parsed "en" in
        let* ja := getProp parsed "ja" in
        Ok (orElse en (VStr ""), orElse ja (VStr ""))
    | None => Throw SyntaxError
    end in
  match attempt with
  | Ok texts => texts
  | Throw _ =>
      if String.eqb language "ja-JP"
      then (VStr "", orElse (VStr text) (VStr ""))
      else (orElse (VStr text) (VStr ""), VStr "")
  end.

(** The [translations] object of the reply. *)
Definition replyTranslations (language text : string) : list (string * value) :=
  let (enText, jaText) := replyTexts language text in
  ((if truthy enText then [("en-US", enText)] else [])
   ++ (if truthy jaText then [("ja-JP", jaText)] else []))%list.

(** [translations[language] ?? response.text ?? (enText || jaText || '')]. *)
Definition replyOriginal (language text : string) : value :=
  let (enText, jaText) := replyTexts language text in
  coalesce (coalesce (lookupProp language (replyTranslations language text)) (VStr text))
           (orElse (orElse enText jaText) (VStr "")).

(** [m] is the assistant message the page appends for [text]. *)
Definition replyMessage (language text : string) (m : ChatMessage) : Prop :=
  msg_type m = assistant
  /\ msg_translations m = Some (VObj (replyTranslations language text))
  /\ VStr (msg_original m) = replyOriginal language text.

End Reply.

(** A bilingual reply, as the page holds it with Japanese selected. *)
Definition quoted (s : string) : string :=
  String doubleQuote (s ++ String doubleQuote "")%string.

Definition bilingualText : string :=
  ("{" ++ quoted "en" ++ ":" ++ quoted "Sunny" ++ ","
       ++ quoted "ja" ++ ":" ++ quoted "晴れ" ++ "}")%string.

Definition bilingualReply : ChatMessage :=
  {| msg_id := "1700000000001"; msg_type := assistant; msg_original := "晴れ";
     msg_translations := Some (VObj [("en-US", VStr "Sunny"); ("ja-JP", VStr "晴れ")]);
     msg_timestamp := DateMs 1700000000000; msg_weatherData := None; msg_sources := None |}.

(** ** The sidebar listing ([listChatsMetadata]) *)

Record ChatSummary : Type := {
  sum_id : string;
  sum_title : string;
  sum_snippet : string;
  sum_city : nullable string;
  sum_createdAt : JsDate;
  sum_updatedAt : JsDate;
  sum_synced : bool
}.

Definition listChatsMetadata {dates : DateApi} {json : JsonApi}
    (env : Env) (slot : Slot) : list ChatSummary :=
  List.map (fun c => {| sum_id := chat_id c;
                        sum_title := chat_title c;
                        sum_snippet := chat_snippet c;
                        sum_city := chat_city c;
                        sum_createdAt := chat_createdAt c;
                        sum_updatedAt := chat_updatedAt c;
                        sum_synced := chat_synced c |})
           (loadChatsFromStorage env slot).

(** * Properties *)

(** ** JavaScript values *)

(** Induction over [value] that reaches the elements of arrays and the
    property values of objects. *)
Lemma value_ind' (P : value -> Prop)
  (Hundef : P VUndef) (Hnull : P VNull)
  (Hbool : forall b, P (VBool b)) (Hnum : forall n, P (VNum n))
  (Hinf : forall negative, P (VInfinity negative))
  (Hstr : forall s, P (VStr s))
  (Harr : forall items, Forall P items -> P (VArr items))
  (Hobj : forall props, Forall (fun kv => P (snd kv)) props -> P (VObj props)) :
  forall v, P v.
Proof.
  fix IH 1. intros [ | | b | n | negative | s | items | props ].
  - exact Hundef.
  - exact Hnull.
  - apply Hbool.
  - apply Hnum.
  - apply Hinf.
  - apply Hstr.
  - apply Harr. induction items as [|x xs IHxs]; constructor; [apply IH | exact IHxs].
  - apply Hobj. induction props as [|[k x] ps IHps]; constructor; [apply IH | exact IHps].
Qed.

(** Whatever [String] throws is a [TypeError]. *)
Lemma toString_throw v e : toString v = Throw e -> e = TypeError.
Proof.
  revert e.
  induction v as [ | | [] | n | [] | s | items IH | props _ ] using value_ind';
    intros e He; try discriminate.
  - simpl in He.
    assert (Heach : forall e',
               (fix each (l : list value) : result (list string) :=
                  match l with
                  | [] => Ok []
                  | x :: l' =>
                      let* part := if nullish x then Ok "" else toString x in
                      let* parts := each l' in
                      Ok (part :: parts)
                  end) items = Throw e' -> e' = TypeError).
    { clear He. induction IH as [|x xs Hx _ IHxs]; intros e' H; [discriminate|].
      destruct (nullish x).
      - cbn [bind] in H.
        destruct ((fix each (l : list value) : result (list string) := _) xs) as [ps|e2];
          [discriminate|].
        injection H as <-. apply IHxs. reflexivity.
      - destruct (toString x) as [p|e1] eqn:Hp.
        + cbn [bind] in H.
          destruct ((fix each (l : list value) : result (list string) := _) xs) as [ps|e2];
            [discriminate|].
          injection H as <-. apply IHxs. reflexivity.
        + injection H as <-. apply Hx. reflexivity. }
    destruct ((fix each (l : list value) : result (list string) := _) items) as [ps|e1];
      [discriminate|].
    injection He as <-. apply Heach. reflexivity.
  - simpl in He. destruct (hasOwn "toString" props); [|discriminate].
    injection He as <-. reflexivity.
Qed.

Lemma clean_not_undef v : clean v = true -> v <> VUndef.
Proof. intros H ->. discriminate. Qed.

(** Writing and reading back a JSON value changes nothing. *)
Lemma reparse_clean v : clean v = true -> reparse v = v.
Proof.
  induction v as [ | | b | n | negative | s | items IH | props IH ] using value_ind';
    intros Hc; try reflexivity; try discriminate.
  - simpl in Hc |- *. apply negb_true_iff in Hc. rewrite Hc. reflexivity.
  - simpl. f_equal. simpl in Hc.
    induction IH as [|x xs Hx _ IHxs]; [reflexivity|].
    apply andb_prop in Hc as [Hcx Hcxs].
    rewrite IHxs by assumption. rewrite Hx by assumption.
    destruct x; try reflexivity. discriminate.
  - simpl. f_equal. simpl in Hc.
    induction IH as [|[k x] ps Hx _ IHps]; [reflexivity|].
    apply andb_prop in Hc as [Hcx Hcps]. simpl in Hx.
    rewrite IHps by assumption. rewrite Hx by assumption.
    destruct x; try reflexivity. discriminate.
Qed.

Lemma clean_lookupProp k ps :
  clean (VObj ps) = true ->
  lookupProp k ps = VUndef \/ clean (lookupProp k ps) = true.
Proof.
  induction ps as [|[k' x] ps IH]; intros Hc; [left; reflexivity|].
  simpl in Hc. apply andb_prop in Hc as [Hx Hps]. simpl.
  destruct (String.eqb k' k); [right; assumption | apply IH; assumption].
Qed.

Lemma clean_lookupIndex k xs i :
  clean (VArr xs) = true ->
  lookupIndex k i xs = VUndef \/ clean (lookupIndex k i xs) = true.
Proof.
  revert i. induction xs as [|x xs IH]; intros i Hc; [left; reflexivity|].
  simpl in Hc. apply andb_prop in Hc as [Hx Hxs]. simpl.
  destruct (String.eqb (showNat i) k); [right; assumption | apply IH; assumption].
Qed.

Lemma clean_field v k :
  clean v = true -> field v k = VUndef \/ clean (field v k) = true.
Proof.
  destruct v; intros Hc; try (left; reflexivity).
  - apply clean_lookupIndex; assumption.
  - apply clean_lookupProp; assumption.
Qed.

Lemma cleanObject_field v k :
  clean v = true -> cleanObject (objectOrUndefined (field v k)) = true.
Proof.
  intros Hc. destruct (clean_field v k Hc) as [-> | Hf]; [reflexivity|].
  unfold objectOrUndefined, cleanObject.
  destruct (isObjectAndTruthy (field v k)) eqn:Ho; [|reflexivity].
  rewrite Ho, Hf. reflexivity.
Qed.

Lemma cleanArray_field v k :
  clean v = true -> cleanArray (arrayOrUndefined (field v k)) = true.
Proof.
  intros Hc. destruct (clean_field v k Hc) as [-> | Hf]; [reflexivity|].
  unfold arrayOrUndefined, cleanArray.
  destruct (isArray (field v k)) eqn:Ho; [|reflexivity].
  rewrite Ho, Hf. reflexivity.
Qed.

Lemma getProp_ok v k : nullish v = false -> getProp v k = Ok (field v k).
Proof. unfold getProp. intros ->. reflexivity. Qed.

Lemma getProp_throw v k : nullish v = true -> getProp v k = Throw TypeError.
Proof. unfold getProp. intros ->. reflexivity. Qed.

(** ** The exception-aware [map] *)

Lemma mapR_throw {A B} (f : A -> result B) before x after e :
  f x = Throw e -> exists e', mapR f (before ++ x :: after) = Throw e'.
Proof.
  intros Hx. induction before as [|y ys [e' IH]]; simpl.
  - rewrite Hx. eauto.
  - destruct (f y); simpl; [rewrite IH|]; eauto.
Qed.

Lemma mapR_ok_Forall2 {A B} (f : A -> result B) xs ys :
  mapR f xs = Ok ys <-> Forall2 (fun x y => f x = Ok y) xs ys.
Proof.
  revert ys. induction xs as [|x xs IH]; intros ys; simpl.
  - split; [intros [= <-]; constructor | intros H; inversion H; reflexivity].
  - split.
    + destruct (f x) as [y|] eqn:Hx; simpl; [|discriminate].
      destruct (mapR f xs) as [ys'|] eqn:Hxs; simpl; [|discriminate].
      intros [= <-]. constructor; [assumption | apply IH; reflexivity].
    + intros H. inversion H as [|? y ? ys' Hy Hys]; subst.
      rewrite Hy. simpl. apply IH in Hys. rewrite Hys. reflexivity.
Qed.

(** ** Record codec *)

Section CodecFacts.
Context {dates : DateApi}.

Lemma decodeMessage_null now mRaw :
  nullish mRaw = true -> decodeMessage now mRaw = Throw TypeError.
Proof. intros H. unfold decodeMessage. rewrite getProp_throw by assumption. reflexivity. Qed.

Lemma decodeChat_null now chat :
  nullish chat = true -> decodeChat now chat = Throw TypeError.
Proof. intros H. unfold decodeChat. rewrite getProp_throw by assumption. reflexivity. Qed.

(** [String(v ?? '')] on what is missing, and on a string. *)
Lemma stringOrEmpty_nullish v : nullish v = true -> stringOrEmpty v = Ok "".
Proof. unfold stringOrEmpty, coalesce. intros ->. reflexivity. Qed.

Lemma stringOrEmpty_string s : stringOrEmpty (VStr s) = Ok s.
Proof. reflexivity. Qed.

(** A message value that is not [null] decodes, field by field, once
    its [id] and [original] convert to strings. *)
Lemma decodeMessage_ok now mRaw id original :
  nullish mRaw = false ->
  stringOrEmpty (field mRaw "id") = Ok id ->
  stringOrEmpty (field mRaw "original") = Ok original ->
  decodeMessage now mRaw =
    Ok {| msg_id := id;
          msg_type := roleOrSystem (field mRaw "type");
          msg_original := original;
          msg_translations := objectOrUndefined (field mRaw "translations");
          msg_timestamp := dateOrNow now (field mRaw "timestamp");
          msg_weatherData := objectOrUndefined (field mRaw "weatherData");
          msg_sources := arrayOrUndefined (field mRaw "sources") |}.
Proof.
  intros H Hid Ho. unfold decodeMessage. rewrite !getProp_ok by assumption.
  cbn [bind]. rewrite Hid. cbn [bind]. rewrite Ho. reflexivity.
Qed.

Lemma decodeMessage_inv now mRaw m :
  decodeMessage now mRaw = Ok m ->
  nullish mRaw = false
  /\ stringOrEmpty (field mRaw "id") = Ok (msg_id m)
  /\ stringOrEmpty (field mRaw "original") = Ok (msg_original m).
Proof.
  intros H. destruct (nullish mRaw) eqn:Hn.
  - rewrite decodeMessage_null in H by assumption. discriminate.
  - unfold decodeMessage in H. rewrite !getProp_ok in H by assumption.
    cbn [bind] in H.
    destruct (stringOrEmpty (field mRaw "id")) as [id|]; [|discriminate].
    cbn [bind] in H.
    destruct (stringOrEmpty (field mRaw "original")) as [original|]; [|discriminate].
    injection H as <-. auto.
Qed.

(** A record value that is not [null] decodes, field by field, once its
    messages do and its [id], [title] and [snippet] convert to strings. *)
Lemma decodeChat_ok now chat messages id title snippet :
  nullish chat = false ->
  mapR (decodeMessage now) (messagesRaw chat) = Ok messages ->
  stringOrEmpty (field chat "id") = Ok id ->
  stringOrEmpty (field chat "title") = Ok title ->
  stringOrEmpty (field chat "snippet") = Ok snippet ->
  decodeChat now chat =
    Ok {| chat_id := id;
          chat_userId := stringOrNull (field chat "userId");
          chat_title := title;
          chat_snippet := snippet;
          chat_city := stringOrNull (field chat "city");
          chat_messages := messages;
          chat_meta := if isObjectAndTruthy (field chat "meta")
                       then field chat "meta" else VObj [("version", VNum 1)];
          chat_createdAt := dateOrNow now (field chat "createdAt");
          chat_updatedAt := dateOrNow now (field chat "updatedAt");
          chat_lastSyncedAt := dateOrNull (field chat "lastSyncedAt");
          chat_synced := truthy (field chat "synced");
          chat_unsyncedOps := arrayOrUndefined (field chat "unsyncedOps") |}.
Proof.
  intros H Hm Hid Ht Hs. unfold decodeChat. rewrite !getProp_ok by assumption.
  unfold messagesRaw in Hm. cbn [bind]. rewrite Hm. cbn [bind].
  rewrite Hid. cbn [bind]. rewrite Ht. cbn [bind]. rewrite Hs. reflexivity.
Qed.

Lemma decodeChat_inv now chat c :
  decodeChat now chat = Ok c ->
  nullish chat = false
  /\ mapR (decodeMessage now) (messagesRaw chat) = Ok (chat_messages c)
  /\ stringOrEmpty (field chat "id") = Ok (chat_id c)
  /\ stringOrEmpty (field chat "title") = Ok (chat_title c)
  /\ stringOrEmpty (field chat "snippet") = Ok (chat_snippet c).
Proof.
  intros H. destruct (nullish chat) eqn:Hn.
  - rewrite decodeChat_null in H by assumption. discriminate.
  - unfold decodeChat in H. rewrite !getProp_ok in H by assumption.
    unfold messagesRaw. cbn [bind] in H.
    destruct (mapR (decodeMessage now) _) as [ms|e]; [|discriminate].
    cbn [bind] in H.
    destruct (stringOrEmpty (field chat "id")) as [id|]; [|discriminate].
    cbn [bind] in H.
    destruct (stringOrEmpty (field chat "title")) as [title|]; [|discriminate].
    cbn [bind] in H.
    destruct (stringOrEmpty (field chat "snippet")) as [snippet|]; [|discriminate].
    injection H as <-. auto.
Qed.

Lemma decodeMessage_shape now mRaw m :
  clean mRaw = true -> decodeMessage now mRaw = Ok m -> decodedMessage m = true.
Proof.
  intros Hc H. destruct (decodeMessage_inv _ _ _ H) as (Hn & Hid & Ho).
  rewrite (decodeMessage_ok _ _ _ _ Hn Hid Ho) in H. injection H as <-.
  unfold decodedMessage. simpl.
  rewrite !cleanObject_field, cleanArray_field by assumption. reflexivity.
Qed.

Lemma clean_messagesRaw chat :
  clean chat = true -> Forall (fun x => clean x = true) (messagesRaw chat).
Proof.
  intros Hc. unfold messagesRaw.
  destruct (clean_field chat "messages" Hc) as [-> | Hf]; [constructor|].
  destruct (field chat "messages") as [ | | | | | | xs | ]; try constructor.
  simpl in Hf. induction xs as [|x xs IH]; [constructor|].
  apply andb_prop in Hf as [Hx Hxs]. constructor; auto.
Qed.

Lemma decodeChat_shape now chat c :
  clean chat = true -> decodeChat now chat = Ok c -> decodedChat c = true.
Proof.
  intros Hc H. destruct (decodeChat_inv _ _ _ H) as (Hn & Hm & Hid & Ht & Hs).
  rewrite (decodeChat_ok _ _ _ _ _ _ Hn Hm Hid Ht Hs) in H. injection H as <-.
  unfold decodedChat. simpl.
  assert (Hmsgs : forallb decodedMessage (chat_messages c) = true).
  { apply mapR_ok_Forall2 in Hm. pose proof (clean_messagesRaw chat Hc) as Hall.
    induction Hm as [|x y xs ys Hxy _ IH]; [reflexivity|].
    inversion Hall; subst. simpl.
    rewrite (decodeMessage_shape _ _ _ ltac:(eassumption) Hxy). auto. }
  rewrite Hmsgs, cleanArray_field by assumption.
  assert (Hmeta : let meta := if isObjectAndTruthy (field chat "meta")
                              then field chat "meta" else VObj [("version", VNum 1)] in
                  isObjectAndTruthy meta && clean meta = true).
  { simpl. destruct (isObjectAndTruthy (field chat "meta")) eqn:Ho; [|reflexivity].
    rewrite Ho. destruct (clean_field chat "meta" Hc) as [Hu | ->]; [|reflexivity].
    rewrite Hu in Ho. discriminate. }
  simpl in Hmeta. apply andb_prop in Hmeta as [-> ->].
  destruct (field chat "userId"), (field chat "city"), (field chat "lastSyncedAt");
    reflexivity.
Qed.

Lemma prop_clean k v : clean v = true -> prop k v = [(k, v)].
Proof.
  intros Hc. unfold prop. rewrite reparse_clean by assumption.
  destruct v; try reflexivity. discriminate.
Qed.

Lemma optProp_cleanObject k o :
  cleanObject o = true ->
  optProp k o = match o with Some v => [(k, v)] | None => [] end.
Proof.
  destruct o as [v|]; [|reflexivity]. simpl. intros H.
  apply andb_prop in H as [_ Hc]. apply prop_clean; assumption.
Qed.

Lemma optProp_cleanArray k o :
  cleanArray o = true ->
  optProp k o = match o with Some v => [(k, v)] | None => [] end.
Proof.
  destruct o as [v|]; [|reflexivity]. simpl. intros H.
  apply andb_prop in H as [_ Hc]. apply prop_clean; assumption.
Qed.

Lemma roleOrSystem_roleName r : roleOrSystem (VStr (roleName r)) = r.
Proof. destruct r; reflexivity. Qed.

Lemma dateOrNow_encodeDate now d :
  validDate d = true -> dateOrNow now (encodeDate d) = d.
Proof.
  destruct d as [ms|]; [|discriminate]. intros _. simpl.
  apply Date_parse_toISOString.
Qed.

Lemma objectOrUndefined_object v :
  isObjectAndTruthy v = true -> objectOrUndefined v = Some v.
Proof. unfold objectOrUndefined. intros ->. reflexivity. Qed.

Lemma arrayOrUndefined_array v : isArray v = true -> arrayOrUndefined v = Some v.
Proof. unfold arrayOrUndefined. intros ->. reflexivity. Qed.

(** Decoding what [encodeMessage] wrote gives the message back. *)
Lemma decodeMessage_encodeMessage now m :
  decodedMessage m = true -> validDate (msg_timestamp m) = true ->
  decodeMessage now (encodeMessage m) = Ok m.
Proof.
  destruct m as [id type original translations timestamp weatherData sources].
  unfold decodedMessage. simpl. intros Hshape Hdate.
  apply andb_prop in Hshape as [Hshape Hsrc].
  apply andb_prop in Hshape as [Htr Hwd].
  rewrite (decodeMessage_ok now _ id original) by reflexivity.
  unfold encodeMessage. simpl msg_id. simpl msg_type. simpl msg_original.
  simpl msg_translations. simpl msg_timestamp. simpl msg_weatherData.
  simpl msg_sources.
  rewrite !optProp_cleanObject, optProp_cleanArray by assumption.
  pose proof (dateOrNow_encodeDate now timestamp Hdate) as Hts.
  pose proof (roleOrSystem_roleName type) as Hrole.
  destruct translations as [t|], weatherData as [w|], sources as [src|];
    simpl in Htr, Hwd, Hsrc;
    repeat match goal with
           | H : _ && _ = true |- _ => apply andb_prop in H as [? _]
           end;
    cbn [field lookupProp app String.eqb Ascii.eqb Bool.eqb fst snd];
    rewrite ?Hts, ?Hrole;
    repeat match goal with
           | H : isObjectAndTruthy ?v = true |- _ =>
               rewrite (objectOrUndefined_object v H); clear H
           | H : isArray ?v = true |- _ =>
               rewrite (arrayOrUndefined_array v H); clear H
           end;
    reflexivity.
Qed.

Lemma decodeMessages_encodeMessages now ms :
  forallb decodedMessage ms = true ->
  forallb (fun m => validDate (msg_timestamp m)) ms = true ->
  mapR (decodeMessage now) (List.map encodeMessage ms) = Ok ms.
Proof.
  induction ms as [|m ms IH]; [reflexivity|]. intros Hs Hd.
  simpl in Hs, Hd.
  apply andb_prop in Hs as [Hm Hms]. apply andb_prop in Hd as [Hdm Hdms].
  cbn [List.map mapR].
  rewrite decodeMessage_encodeMessage by assumption. cbn [bind].
  rewrite IH by assumption. reflexivity.
Qed.

(** Decoding what [encodeChat] wrote gives the record back. *)
Lemma decodeChat_encodeChat now c :
  decodedChat c = true -> datesValid c = true ->
  decodeChat now (encodeChat c) = Ok c.
Proof.
  destruct c as [id userId title snippet city msgs meta createdAt updatedAt
                 lastSyncedAt synced unsyncedOps].
  unfold decodedChat, datesValid. simpl. intros Hshape Hdates.
  repeat match goal with
         | H : _ && _ = true |- _ => apply andb_prop in H as [? ?]
         end.
  pose proof (decodeMessages_encodeMessages now msgs ltac:(assumption) ltac:(assumption))
    as Hmsgs.
  pose proof (dateOrNow_encodeDate now createdAt ltac:(assumption)) as Hcreated.
  pose proof (dateOrNow_encodeDate now updatedAt ltac:(assumption)) as Hupdated.
  assert (Hsynced : dateOrNull (match lastSyncedAt with
                                | Has d => encodeDate d
                                | _ => VNull
                                end) = match lastSyncedAt with
                                       | Has d => Has d
                                       | _ => Null
                                       end).
  { destruct lastSyncedAt as [ | | [ms|]]; try reflexivity; [|discriminate].
    simpl. rewrite Date_parse_toISOString. reflexivity. }
  unfold encodeChat. simpl chat_id. simpl chat_userId. simpl chat_title.
  simpl chat_snippet. simpl chat_city. simpl chat_messages. simpl chat_meta.
  simpl chat_createdAt. simpl chat_updatedAt. simpl chat_lastSyncedAt.
  simpl chat_synced. simpl chat_unsyncedOps.
  rewrite prop_clean, optProp_cleanArray by assumption.
  destruct userId as [ | |uid]; try discriminate;
  destruct city as [ | |cty]; try discriminate;
  destruct lastSyncedAt as [ | |lsa]; try discriminate;
  destruct unsyncedOps as [ops|];
  (rewrite (decodeChat_ok now _ msgs id title snippet);
   [| reflexivity
    | unfold messagesRaw, encodeMessages;
      cbn [field lookupProp app String.eqb Ascii.eqb Bool.eqb nullableProp];
      exact Hmsgs
    | reflexivity | reflexivity | reflexivity ]);
  cbn [field lookupProp app String.eqb Ascii.eqb Bool.eqb nullableProp
       stringOrNull coalesce nullish truthy];
  cbn [dateOrNull] in Hsynced;
  rewrite ?Hcreated, ?Hupdated, ?Hsynced;
  repeat match goal with
         | H : isObjectAndTruthy ?v = true |- _ => rewrite H; clear H
         end;
  try match goal with
      | H : cleanArray (Some ?v) = true |- _ =>
          simpl in H; apply andb_prop in H as [H _];
          rewrite (arrayOrUndefined_array v H)
      end;
  destruct synced; reflexivity.
Qed.

Lemma decode_encode_list now chats :
  forallb decodedChat chats = true -> forallb datesValid chats = true ->
  mapR (decodeChat now) (List.map encodeChat chats) = Ok chats.
Proof.
  induction chats as [|c cs IH]; [reflexivity|]. intros Hs Hd.
  simpl in Hs, Hd.
  apply andb_prop in Hs as [Hc Hcs]. apply andb_prop in Hd as [Hdc Hdcs].
  cbn [List.map mapR].
  rewrite decodeChat_encodeChat by assumption. cbn [bind].
  rewrite IH by assumption. reflexivity.
Qed.

(** What [decode] returns from a JSON value has the decoder's shape. *)
Lemma decode_shape now parsed :
  clean parsed = true -> forallb decodedChat (decode now parsed) = true.
Proof.
  intros Hc. unfold decode. destruct parsed as [ | | | | | | chats | ]; try reflexivity.
  destruct (mapR (decodeChat now) chats) as [records|e] eqn:Hm; [|reflexivity].
  apply mapR_ok_Forall2 in Hm. simpl in Hc.
  induction Hm as [|x y xs ys Hxy _ IH]; [reflexivity|].
  apply andb_prop in Hc as [Hx Hxs]. simpl.
  rewrite (decodeChat_shape _ _ _ Hx Hxy). auto.
Qed.

Lemma decode_throw now chats e :
  mapR (decodeChat now) chats = Throw e -> decode now (VArr chats) = [].
Proof. intros H. unfold decode. rewrite H. reflexivity. Qed.

(** C5 (the code at the failing input).  A [null] entry of the stored
    array, or a [null] entry of the [messages] array of one stored
    record, makes the callback of [map] throw a [TypeError]; the [catch]
    of [loadChatsFromStorage] then returns the empty list, whatever the
    other entries are: the load of the whole collection is abandoned. *)
Theorem decode_abandons_load_on_null_entry now before after ms1 ms2 :
  decode now (VArr (before ++ VNull :: after)) = []
  /\ decode now (VArr (before
                        ++ VObj [("messages", VArr (ms1 ++ VNull :: ms2))]
                        :: after)) = [].
Proof.
  split.
  - destruct (mapR_throw (decodeChat now) before VNull after TypeError) as [e He];
      [reflexivity|].
    exact (decode_throw _ _ _ He).
  - destruct (mapR_throw (decodeMessage now) ms1 VNull ms2 TypeError) as [e He];
      [reflexivity|].
    destruct (mapR_throw (decodeChat now) before
                (VObj [("messages", VArr (ms1 ++ VNull :: ms2))]) after e) as [e' He'].
    + unfold decodeChat. rewrite !getProp_ok by reflexivity.
      cbn [field lookupProp String.eqb Ascii.eqb Bool.eqb bind].
      rewrite He. reflexivity.
    + exact (decode_throw _ _ _ He').
Qed.

Lemma stringOrEmpty_stringable v :
  (exists s, stringOrEmpty v = Ok s) <-> stringable v = true.
Proof.
  unfold stringOrEmpty, coalesce, stringable.
  destruct (nullish v) eqn:Hn.
  - destruct v; try discriminate; simpl; split; eauto.
  - destruct (toString v) as [s|e]; split; eauto; try discriminate.
    intros [s Hs]. discriminate.
Qed.

Lemma decodeMessage_decodable now mRaw :
  (exists m, decodeMessage now mRaw = Ok m) <-> decodableMessage mRaw = true.
Proof.
  unfold decodableMessage. split.
  - intros [m Hm]. destruct (decodeMessage_inv _ _ _ Hm) as (Hn & Hid & Ho).
    rewrite Hn. simpl.
    rewrite (proj1 (stringOrEmpty_stringable _) (ex_intro _ _ Hid)).
    rewrite (proj1 (stringOrEmpty_stringable _) (ex_intro _ _ Ho)). reflexivity.
  - intros H. apply andb_prop in H as [H Ho]. apply andb_prop in H as [Hn Hid].
    apply negb_true_iff in Hn.
    apply (proj2 (stringOrEmpty_stringable _)) in Hid as [id Hid].
    apply (proj2 (stringOrEmpty_stringable _)) in Ho as [original Ho].
    eexists. apply (decodeMessage_ok now mRaw id original); assumption.
Qed.

Lemma decodeMessages_decodable now raws :
  (exists ms, mapR (decodeMessage now) raws = Ok ms)
  <-> forallb decodableMessage raws = true.
Proof.
  induction raws as [|raw raws IH]; simpl.
  - split; eauto.
  - split.
    + intros [ms Hms].
      destruct (decodeMessage now raw) as [m|e] eqn:Hm; [|discriminate].
      rewrite (proj1 (decodeMessage_decodable now raw) (ex_intro _ _ Hm)). simpl.
      simpl in Hms. destruct (mapR (decodeMessage now) raws) as [ms'|e]; [|discriminate].
      apply IH. eauto.
    + intros H. apply andb_prop in H as [Hraw Hraws].
      apply (proj2 (decodeMessage_decodable now raw)) in Hraw as [m Hm].
      apply (proj2 IH) in Hraws as [ms Hms]. rewrite Hm. simpl. rewrite Hms. simpl. eauto.
Qed.

Lemma decodeChat_decodable now chat :
  (exists c, decodeChat now chat = Ok c) <-> decodableChat chat = true.
Proof.
  unfold decodableChat. split.
  - intros [c Hc]. destruct (decodeChat_inv _ _ _ Hc) as (Hn & Hm & Hid & Ht & Hs).
    rewrite Hn. simpl.
    rewrite (proj1 (decodeMessages_decodable now _) (ex_intro _ _ Hm)).
    rewrite (proj1 (stringOrEmpty_stringable _) (ex_intro _ _ Hid)).
    rewrite (proj1 (stringOrEmpty_stringable _) (ex_intro _ _ Ht)).
    rewrite (proj1 (stringOrEmpty_stringable _) (ex_intro _ _ Hs)). reflexivity.
  - intros H. apply andb_prop in H as [H Hs]. apply andb_prop in H as [H Ht].
    apply andb_prop in H as [H Hid]. apply andb_prop in H as [Hn Hm].
    apply negb_true_iff in Hn.
    apply (proj2 (decodeMessages_decodable now _)) in Hm as [ms Hm].
    apply (proj2 (stringOrEmpty_stringable _)) in Hid as [id Hid].
    apply (proj2 (stringOrEmpty_stringable _)) in Ht as [title Ht].
    apply (proj2 (stringOrEmpty_stringable _)) in Hs as [snippet Hs].
    eexists. apply (decodeChat_ok now chat ms id title snippet); assumption.
Qed.

(** Field-by-field coercion.  A stored entry decodes to a record
    exactly when it is not [null], its [id], [title] and [snippet]
    convert to strings, and every entry of its [messages] array (if it
    is one) is not [null] and has an [id] and an [original] that
    convert to strings; an entry of any other kind makes the callback
    throw.  In the record, [id], [title], [snippet] and [original] are
    [String] of the stored value and the empty string when that is
    missing; a date that is not a string becomes the current time; a
    [messages] value that is not an array becomes the empty list; and a
    message role other than the three known ones becomes [system]. *)
Theorem decodeChat_coerces_fields now chat :
  ((exists c, decodeChat now chat = Ok c) <-> decodableChat chat = true)
  /\ stringOrEmpty VUndef = Ok "" /\ stringOrEmpty VNull = Ok ""
  /\ (forall o, stringOrEmpty (VObj [("toString", o)]) = Throw TypeError)
  /\ forall c,
       decodeChat now chat = Ok c ->
       stringOrEmpty (field chat "id") = Ok (chat_id c)
       /\ stringOrEmpty (field chat "title") = Ok (chat_title c)
       /\ stringOrEmpty (field chat "snippet") = Ok (chat_snippet c)
       /\ (isString (field chat "createdAt") = false -> chat_createdAt c = DateMs now)
       /\ (isString (field chat "updatedAt") = false -> chat_updatedAt c = DateMs now)
       /\ (isArray (field chat "messages") = false -> chat_messages c = [])
       /\ Forall2 (fun raw m =>
                     stringOrEmpty (field raw "id") = Ok (msg_id m)
                     /\ stringOrEmpty (field raw "original") = Ok (msg_original m)
                     /\ msg_type m = roleOrSystem (field raw "type")
                     /\ (field raw "type" <> VStr "user" ->
                         field raw "type" <> VStr "assistant" -> msg_type m = system)
                     /\ (isString (field raw "timestamp") = false ->
                         msg_timestamp m = DateMs now))
                  (messagesRaw chat) (chat_messages c).
Proof.
  split; [apply decodeChat_decodable|].
  split; [reflexivity|]. split; [reflexivity|]. split; [reflexivity|].
  intros c Hc. destruct (decodeChat_inv _ _ _ Hc) as (Hn & Hm & Hid & Ht & Hs).
  rewrite (decodeChat_ok _ _ _ _ _ _ Hn Hm Hid Ht Hs) in Hc.
  split; [exact Hid|]. split; [exact Ht|]. split; [exact Hs|].
  injection Hc as <-. simpl. split; [|split; [|split]].
  - destruct (field chat "createdAt"); try reflexivity; discriminate.
  - destruct (field chat "updatedAt"); try reflexivity; discriminate.
  - intros Harr. unfold messagesRaw in Hm.
    destruct (field chat "messages"); try discriminate; injection Hm as <-; reflexivity.
  - simpl in Hm. apply mapR_ok_Forall2 in Hm.
    induction Hm as [|raw m raws ms' Hraw _ IH]; constructor; [|exact IH].
    destruct (decodeMessage_inv _ _ _ Hraw) as (Hrn & Hrid & Hro).
    rewrite (decodeMessage_ok _ _ _ _ Hrn Hrid Hro) in Hraw.
    split; [exact Hrid|]. split; [exact Hro|].
    injection Hraw as <-. simpl. repeat split.
    + intros Hu Ha. destruct (field raw "type") as [ | | | | |t| | ]; try reflexivity.
      simpl. destruct (String.eqb t "user") eqn:E1.
      { apply String.eqb_eq in E1. subst. contradiction. }
      destruct (String.eqb t "assistant") eqn:E2.
      { apply String.eqb_eq in E2. subst. contradiction. }
      reflexivity.
    + destruct (field raw "timestamp"); try reflexivity; discriminate.
Qed.

(** C7, as amended.  For a collection [x] that [decode] returned from a
    stored JSON value (one that holds no infinite number) and in which
    every date is a valid date, decoding the encoding of [x] gives [x]
    back, field for field, whatever the clock shows at the second
    decoding. *)
Theorem decode_encode_roundtrip now parsed now' :
  clean parsed = true ->
  forallb datesValid (decode now parsed) = true ->
  decode now' (encode (decode now parsed)) = decode now parsed.
Proof.
  intros Hc Hd. unfold encode, decode at 1.
  rewrite decode_encode_list; [reflexivity | apply decode_shape; assumption | assumption].
Qed.

End CodecFacts.

(** The second record of [sampleStored] has nothing but a title and a
    [createdAt] that is a number; a record whose [id] is an object with
    a [toString] entry is not decoded, and takes the whole load with
    it. *)
Lemma decodeChat_coerces_fields_witness :
  (exists c,
      decodeChat 1700000000000
        (VObj [("title", VStr "Rain tomorrow?"); ("createdAt", VNum 5)]) = Ok c)
  /\ decodeChat 1700000000000 (VObj [("id", VObj [("toString", VNum 1)])])
     = Throw TypeError
  /\ decode 1700000000000
        (VArr [VObj [("id", VStr "c1")]; VObj [("id", VObj [("toString", VNum 1)])]])
     = [].
Proof.
  split; [|split; vm_compute; reflexivity].
  apply (proj1 (decodeChat_coerces_fields 1700000000000
                  (VObj [("title", VStr "Rain tomorrow?"); ("createdAt", VNum 5)]))).
  reflexivity.
Defined.

(** The round trip on [sampleStored]. *)
Lemma decode_encode_roundtrip_witness :
  decode 1700000000000 (encode (decode 1700000000000 sampleStored))
  = decode 1700000000000 sampleStored.
Proof.
  apply (decode_encode_roundtrip 1700000000000 sampleStored 1700000000000);
    vm_compute; reflexivity.
Defined.

(** C7 (counterexample).  A stored record whose [createdAt] is a string
    that is not a date decodes to a record [x] holding the invalid date;
    [JSON.stringify] writes an invalid date as [null]; decoding that
    again at time 2000 puts the clock reading in its place.  So the
    round trip does not give [x] back. *)
Lemma decode_encode_roundtrip_counterexample :
  let x := decode 1000 (VArr [VObj [("id", VStr "c1");
                                    ("createdAt", VStr "not a date")]]) in
  List.map chat_createdAt x = [InvalidDate]
  /\ encode x = VArr [VObj [("id", VStr "c1"); ("userId", VNull); ("title", VStr "");
                            ("snippet", VStr ""); ("city", VNull);
                            ("messages", VArr []);
                            ("meta", VObj [("version", VNum 1)]);
                            ("createdAt", VNull); ("updatedAt", VStr "1000");
                            ("lastSyncedAt", VNull); ("synced", VBool false)]]
  /\ List.map chat_createdAt (decode 2000 (encode x)) = [DateMs 2000]
  /\ decode 2000 (encode x) <> x.
Proof.
  vm_compute. repeat split. discriminate.
Qed.

(** ** Conversation store *)

Lemma findIndex_Some {A} (p : A -> bool) xs i :
  findIndex p xs = Some i ->
  exists x, xs !! i = Some x /\ p x = true
            /\ forall j y, (j < i)%nat -> xs !! j = Some y -> p y = false.
Proof.
  revert i. induction xs as [|x xs IH]; intros i; simpl; [discriminate|].
  destruct (p x) eqn:Hx.
  - intros [= <-]. exists x. repeat split; auto. intros j y Hj. lia.
  - destruct (findIndex p xs) as [k|]; simpl; [|discriminate].
    intros [= <-]. destruct (IH k eq_refl) as (y & Hy & Hpy & Hbefore).
    exists y. repeat split; auto.
    intros [|j] z Hj Hz; simpl in Hz.
    + injection Hz as <-. assumption.
    + apply (Hbefore j); [lia | assumption].
Qed.

Lemma findIndex_None {A} (p : A -> bool) xs :
  findIndex p xs = None <-> forallb (fun x => negb (p x)) xs = true.
Proof.
  induction xs as [|x xs IH]; simpl; [tauto|].
  destruct (p x); simpl.
  - split; discriminate.
  - rewrite <- IH. destruct (findIndex p xs); simpl; split; congruence.
Qed.

Lemma filter_isUser_empty messages :
  (length (List.filter isUser messages) =? 0)%nat = negb (existsb isUser messages).
Proof.
  induction messages as [|m ms IH]; [reflexivity|]. simpl.
  destruct (isUser m); simpl; [reflexivity | assumption].
Qed.

Section StoreFacts.
Context {dates : DateApi} {json : JsonApi}.

(** The list [autoSaveChat] writes when it goes through. *)
Lemma autoSaveChat_saved env slot messages :
  hasWindow env = true -> setItemOk env = true ->
  existsb isUser messages = true ->
  let chats := loadChatsFromStorage env slot in
  let updated :=
    match findIndex (titleIs (getChatTitle messages)) chats with
    | Some i => <[ i := chatRecordFor env (chats !! i) messages ]> chats
    | None => chatRecordFor env None messages :: chats
    end in
  autoSaveChat env slot messages = (updated, Holds (encode updated)).
Proof.
  intros Hw Hs Hu. unfold autoSaveChat, persist.
  rewrite Hw, Hs, filter_isUser_empty, Hu. reflexivity.
Qed.

(** When [autoSaveChat] does not go through (no window, no user message,
    or a failed write) it returns the stored list and leaves the slot. *)
Lemma autoSaveChat_not_saved env slot messages :
  hasWindow env = false \/ setItemOk env = false \/ existsb isUser messages = false ->
  autoSaveChat env slot messages = (loadChatsFromStorage env slot, slot).
Proof.
  unfold autoSaveChat, persist, loadChatsFromStorage.
  rewrite filter_isUser_empty.
  destruct (hasWindow env), (setItemOk env), (existsb isUser messages);
    simpl; intros [H | [H | H]]; try discriminate; reflexivity.
Qed.

(** C6.  Saving a message list whose computed title is the title of a
    stored conversation updates that conversation in place, the first
    of that title (same length, same [id] and [createdAt], new
    [messages], [snippet], [updatedAt]); when no conversation has the
    title, a new one is placed at the head.  The slot then holds the
    encoding of the returned list.  The hypotheses are the conditions
    under which the design document describes the save path: the list
    holds a user message (a list without one is not saved) and the
    store takes the write (a failed write is the subject of the
    failure semantics). *)
Theorem autoSaveChat_upsert env slot messages :
  hasWindow env = true -> setItemOk env = true ->
  existsb isUser messages = true ->
  let chats := loadChatsFromStorage env slot in
  let title := getChatTitle messages in
  let updated := fst (autoSaveChat env slot messages) in
  snd (autoSaveChat env slot messages) = Holds (encode updated)
  /\ ((exists c, In c chats /\ chat_title c = title) ->
      exists i old new,
        chats !! i = Some old /\ chat_title old = title
        /\ (forall j c, (j < i)%nat -> chats !! j = Some c -> chat_title c <> title)
        /\ updated = <[ i := new ]> chats
        /\ length updated = length chats
        /\ chat_id new = chat_id old
        /\ chat_createdAt new = chat_createdAt old
        /\ chat_title new = title
        /\ chat_messages new = messages
        /\ chat_snippet new = getChatSnippet messages
        /\ chat_updatedAt new = DateMs (now env))
  /\ ((forall c, In c chats -> chat_title c <> title) ->
      exists new,
        updated = new :: chats
        /\ chat_id new = "local_" ++ showZ (now env)
        /\ chat_createdAt new = DateMs (now env)
        /\ chat_title new = title
        /\ chat_messages new = messages
        /\ chat_snippet new = getChatSnippet messages
        /\ chat_updatedAt new = DateMs (now env)).
Proof.
  intros Hw Hs Hu chats title updated. subst updated.
  rewrite (autoSaveChat_saved env slot messages Hw Hs Hu). simpl fst. simpl snd.
  fold chats. fold title.
  split; [reflexivity|]. split.
  - intros (c & Hin & Hc).
    destruct (findIndex (titleIs title) chats) as [i|] eqn:Hfind.
    + destruct (findIndex_Some _ _ _ Hfind) as (old & Hold & Hp & Hbefore).
      apply String.eqb_eq in Hp.
      exists i, old, (chatRecordFor env (Some old) messages).
      rewrite Hold. repeat split; auto.
      * intros j c' Hj Hc' Heq. specialize (Hbefore j c' Hj Hc').
        unfold titleIs in Hbefore. apply String.eqb_neq in Hbefore. contradiction.
      * apply length_insert.
    + apply findIndex_None in Hfind. rewrite forallb_forall in Hfind.
      specialize (Hfind c Hin). unfold titleIs in Hfind.
      rewrite Hc, String.eqb_refl in Hfind. discriminate.
  - intros Hnone.
    destruct (findIndex (titleIs title) chats) as [i|] eqn:Hfind.
    + destruct (findIndex_Some _ _ _ Hfind) as (old & Hold & Hp & _).
      apply String.eqb_eq in Hp. exfalso.
      apply (Hnone old); [|assumption].
      apply list_elem_of_In, list_elem_of_lookup. eauto.
    + exists (chatRecordFor env None messages). repeat split; reflexivity.
Qed.

(** [deleteChat] returns the stored list without the records whose id
    matches once the write succeeds, and the stored list otherwise. *)
Lemma deleteChat_result env slot chatId :
  let chats := loadChatsFromStorage env slot in
  deleteChat env slot chatId =
    if hasWindow env && setItemOk env
    then (List.filter (fun c => negb (idIs chatId c)) chats,
          Holds (encode (List.filter (fun c => negb (idIs chatId c)) chats)))
    else (chats, slot).
Proof.
  unfold deleteChat, persist, loadChatsFromStorage.
  destruct (hasWindow env), (setItemOk env); reflexivity.
Qed.

Lemma filter_idem {A} (p : A -> bool) xs :
  List.filter p (List.filter p xs) = List.filter p xs.
Proof.
  induction xs as [|x xs IH]; [reflexivity|]. simpl.
  destruct (p x) eqn:Hx; simpl; rewrite ?Hx, IH; reflexivity.
Qed.

Lemma renameChat_result env slot chatId newTitle :
  let chats := loadChatsFromStorage env slot in
  renameChat env slot chatId newTitle =
    match findIndex (idIs chatId) chats with
    | Some index =>
        if hasWindow env && setItemOk env
        then (renameUpdated env newTitle index chats !! index,
              Holds (encode (renameUpdated env newTitle index chats)))
        else (None, slot)
    | None => (None, slot)
    end.
Proof.
  unfold renameChat, persist, loadChatsFromStorage.
  destruct (hasWindow env); [|reflexivity]. simpl.
  destruct (findIndex _ _); [|reflexivity].
  destruct (setItemOk env); reflexivity.
Qed.

(** C10.  Every store mutation touches only the matched record.
    [deleteChat] returns the stored records whose id differs from
    [chatId], unchanged and in their order (and, once the write
    succeeds, nothing else); a successful [renameChat] writes back the
    stored list with the first record of that id replaced by a copy
    that differs in [title] and [updatedAt] alone, every other position
    unchanged, and returns that copy; [autoSaveChat], when the computed
    title is found at position [i], leaves every other position
    unchanged and the length as it was. *)
Theorem store_mutations_frame env slot :
  let chats := loadChatsFromStorage env slot in
  (forall chatId,
      let notMatched := fun c => negb (idIs chatId c) in
      let updated := fst (deleteChat env slot chatId) in
      List.filter notMatched updated = List.filter notMatched chats
      /\ (updated = chats \/ updated = List.filter notMatched chats)
      /\ (hasWindow env = true -> setItemOk env = true ->
          updated = List.filter notMatched chats
          /\ snd (deleteChat env slot chatId) = Holds (encode updated)))
  /\ (forall chatId newTitle r slot',
        renameChat env slot chatId newTitle = (Some r, slot') ->
        exists index old,
          chats !! index = Some old /\ chat_id old = chatId
          /\ slot' = Holds (encode (<[ index := r ]> chats))
          /\ length (<[ index := r ]> chats) = length chats
          /\ (forall j, j <> index -> (<[ index := r ]> chats) !! j = chats !! j)
          /\ chat_title r = newTitle /\ chat_updatedAt r = DateMs (now env)
          /\ chat_id r = chat_id old /\ chat_userId r = chat_userId old
          /\ chat_snippet r = chat_snippet old /\ chat_city r = chat_city old
          /\ chat_messages r = chat_messages old /\ chat_meta r = chat_meta old
          /\ chat_createdAt r = chat_createdAt old
          /\ chat_lastSyncedAt r = chat_lastSyncedAt old
          /\ chat_synced r = chat_synced old
          /\ chat_unsyncedOps r = chat_unsyncedOps old)
  /\ (forall messages i,
        findIndex (titleIs (getChatTitle messages)) chats = Some i ->
        let updated := fst (autoSaveChat env slot messages) in
        length updated = length chats
        /\ forall j, j <> i -> updated !! j = chats !! j).
Proof.
  intros chats. split; [|split].
  - intros chatId notMatched updated. subst updated.
    rewrite deleteChat_result. fold chats. fold notMatched.
    destruct (hasWindow env), (setItemOk env); simpl;
      rewrite ?filter_idem; repeat split; auto; try discriminate.
  - intros chatId newTitle r slot' H. rewrite renameChat_result in H. fold chats in H.
    destruct (findIndex (idIs chatId) chats) as [index|] eqn:Hfind; [|discriminate].
    destruct (hasWindow env && setItemOk env); [|discriminate].
    destruct (findIndex_Some _ _ _ Hfind) as (old & Hold & Hid & _).
    apply String.eqb_eq in Hid.
    unfold renameUpdated in H. rewrite Hold in H.
    rewrite list_lookup_insert_eq in H by (eapply lookup_lt_Some; eassumption).
    injection H as <- <-.
    exists index, old. repeat split; auto.
    + apply length_insert.
    + intros j Hj. apply list_lookup_insert_ne. congruence.
  - intros messages i Hfind updated. subst updated.
    destruct (hasWindow env && setItemOk env && existsb isUser messages) eqn:Hgo.
    + apply andb_prop in Hgo as [Hgo Hu]. apply andb_prop in Hgo as [Hw Hs].
      rewrite (autoSaveChat_saved env slot messages Hw Hs Hu). fold chats.
      rewrite Hfind. simpl. split; [apply length_insert|].
      intros j Hj. apply list_lookup_insert_ne. congruence.
    + rewrite autoSaveChat_not_saved.
      * simpl. fold chats. auto.
      * destruct (hasWindow env), (setItemOk env), (existsb isUser messages);
          try discriminate; auto.
Qed.

End StoreFacts.

(** Saving [sampleMessages] over [sampleStored], whose first record has
    their title. *)
Lemma autoSaveChat_upsert_witness :
  let saved := autoSaveChat sampleEnv (Holds sampleStored) sampleMessages in
  snd saved = Holds (encode (fst saved))
  /\ List.map chat_id (fst saved) = ["local_1699990000000"; ""]
  /\ List.map chat_snippet (fst saved) = ["Mild and clear, 18 degrees."; ""].
Proof.
  split; [|vm_compute; split; reflexivity].
  apply (autoSaveChat_upsert sampleEnv (Holds sampleStored) sampleMessages);
    reflexivity.
Defined.

(** The frame properties on [sampleStored]: deleting the first record
    keeps the second, renaming it rewrites its title alone. *)
Lemma store_mutations_frame_witness :
  List.map chat_title (fst (deleteChat sampleEnv (Holds sampleStored) "local_1699990000000"))
  = ["Rain tomorrow?"]
  /\ (let updated := fst (deleteChat sampleEnv (Holds sampleStored) "local_1699990000000") in
      let notMatched := fun c => negb (idIs "local_1699990000000" c) in
      List.filter notMatched updated
      = List.filter notMatched (loadChatsFromStorage sampleEnv (Holds sampleStored))).
Proof.
  split; [vm_compute; reflexivity|].
  apply (store_mutations_frame sampleEnv (Holds sampleStored)).
Defined.

(** ** Translation helpers *)

Section ApiFacts.
Context {json : JsonApi}.

Lemma map_id_eq {A} (xs : list A) : List.map (fun t => t) xs = xs.
Proof. induction xs as [|x xs IH]; simpl; [|rewrite IH]; reflexivity. Qed.

(** C9, as amended.  When the response is ok, its body is a JSON value
    other than [null], and the code extracts no array from the [text]
    of the body (which may be a string, missing, [null], a number or a
    boolean), [batchTranslate] resolves to the input texts: the same
    strings, in the same order. *)
Theorem batchTranslate_fallback texts targetLanguage resp data :
  ok resp = true -> body resp = Some data -> nullish data = false ->
  yieldsNoArray (field data "text") ->
  settle (batchTranslate texts targetLanguage) resp = Ok texts.
Proof.
  intros Hok Hbody Hdata (s & Hs & Hno).
  destruct texts as [|t ts]; [reflexivity|]. set (texts := t :: ts).
  simpl settle. unfold batchTranslateResume, responseJson.
  rewrite Hok, Hbody. cbn [negb bind].
  assert (Hfallback : forall extracted,
             extracted = Ok None ->
             (let* extracted := extracted in
              match extracted with
              | Some translated => Ok translated
              | None => Ok (List.map (fun t => t) texts)
              end) = Ok texts).
  { intros extracted ->. cbn [bind]. rewrite map_id_eq. reflexivity. }
  apply Hfallback. clear Hfallback.
  unfold batchExtract, jsonParse. rewrite getProp_ok by assumption.
  cbn [bind]. rewrite Hs. cbn [bind].
  destruct Hno as [(parsed & Hp & Harr) | (Hnone & txt & Htxt & Hspan)].
  - rewrite Hp. cbn [bind]. destruct parsed; try discriminate; reflexivity.
  - assert (Hrecover : batchRecover data = Ok None).
    { unfold batchRecover. rewrite getProp_ok by assumption. cbn [bind]. rewrite Htxt.
      destruct (bracketSpan txt) as [span|] eqn:Hsp; [|reflexivity].
      destruct (JSON_parse span) as [[ | | | | | | arr | ]|] eqn:Hinner; try reflexivity.
      destruct (Hspan span eq_refl arr Hinner) as [e ->]. reflexivity. }
    destruct (JSON_parse s) as [parsed|] eqn:Hp; [|exact Hrecover].
    destruct parsed as [ | | | | | | arr | ]; try reflexivity.
    cbn [bind]. destruct (Hnone arr Hp) as [e ->]. exact Hrecover.
Qed.

End ApiFacts.

(** A reply in prose, with no bracket in it; and bodies whose [text]
    is missing, [null], a number and a boolean. *)
Lemma batchTranslate_fallback_witness :
  settle (batchTranslate ["Sunny"; "Windy"] "ja-JP")
         {| ok := true;
            body := Some (VObj [("text", VStr "Sorry, I cannot translate that.");
                                ("sources", VArr [])]) |}
  = Ok ["Sunny"; "Windy"]
  /\ settle (batchTranslate ["Sunny"; "Windy"] "ja-JP")
            {| ok := true; body := Some (VObj [("sources", VArr [])]) |}
     = Ok ["Sunny"; "Windy"]
  /\ settle (batchTranslate ["Sunny"; "Windy"] "ja-JP")
            {| ok := true; body := Some (VObj [("text", VNull)]) |}
     = Ok ["Sunny"; "Windy"]
  /\ settle (batchTranslate ["Sunny"; "Windy"] "ja-JP")
            {| ok := true; body := Some (VObj [("text", VNum 7)]) |}
     = Ok ["Sunny"; "Windy"]
  /\ settle (batchTranslate ["Sunny"; "Windy"] "ja-JP")
            {| ok := true; body := Some (VObj [("text", VBool true)]) |}
     = Ok ["Sunny"; "Windy"].
Proof.
  split; [|split; [|split; [|split]]].
  - apply (batchTranslate_fallback ["Sunny"; "Windy"] "ja-JP" _
             (VObj [("text", VStr "Sorry, I cannot translate that."); ("sources", VArr [])]));
      [reflexivity | reflexivity | reflexivity |].
    exists "Sorry, I cannot translate that.". split; [reflexivity|]. right. split.
    + intros arr H. vm_compute in H. discriminate.
    + exists "Sorry, I cannot translate that.". split; [reflexivity|].
      intros span H. vm_compute in H. discriminate.
  - apply (batchTranslate_fallback ["Sunny"; "Windy"] "ja-JP" _
             (VObj [("sources", VArr [])]));
      [reflexivity | reflexivity | reflexivity |].
    exists "undefined". split; [reflexivity|]. right. split.
    + intros arr H. vm_compute in H. discriminate.
    + exists "". split; [reflexivity|]. intros span H. vm_compute in H. discriminate.
  - apply (batchTranslate_fallback ["Sunny"; "Windy"] "ja-JP" _ (VObj [("text", VNull)]));
      [reflexivity | reflexivity | reflexivity |].
    exists "null". split; [reflexivity|]. left. exists VNull. split; reflexivity.
  - apply (batchTranslate_fallback ["Sunny"; "Windy"] "ja-JP" _ (VObj [("text", VNum 7)]));
      [reflexivity | reflexivity | reflexivity |].
    exists "7". split; [reflexivity|]. left. exists (VNum 7). split; reflexivity.
  - apply (batchTranslate_fallback ["Sunny"; "Windy"] "ja-JP" _ (VObj [("text", VBool true)]));
      [reflexivity | reflexivity | reflexivity |].
    exists "true". split; [reflexivity|]. left. exists (VBool true). split; reflexivity.
Defined.

(** C9 (counterexample).  Responses from which no JSON array of strings
    can be extracted.  The text of the first is the JSON array [[1]],
    whose only element is a number: [batchTranslate] resolves to that
    element as a string, one item for two input texts.  The body of the
    second is not JSON: [response.json()] rejects outside any [try] and
    [batchTranslate] rejects.  The body of the third is [null], and the
    [text] of the fourth is an object: reading [data.text], and calling
    [txt.match], throw inside the [catch] block, and [batchTranslate]
    rejects.  The fifth response is not ok: [batchTranslate] rejects
    before it looks at the text. *)
Lemma batchTranslate_fallback_counterexample :
  settle (batchTranslate ["Sunny"; "Windy"] "ja-JP")
         {| ok := true; body := Some (VObj [("text", VStr "[1]")]) |}
  = Ok ["1"]
  /\ settle (batchTranslate ["Sunny"; "Windy"] "ja-JP")
            {| ok := true; body := None |}
     = Throw SyntaxError
  /\ settle (batchTranslate ["Sunny"; "Windy"] "ja-JP")
            {| ok := true; body := Some VNull |}
     = Throw TypeError
  /\ settle (batchTranslate ["Sunny"; "Windy"] "ja-JP")
            {| ok := true; body := Some (VObj [("text", VObj [])]) |}
     = Throw TypeError
  /\ settle (batchTranslate ["Sunny"; "Windy"] "ja-JP")
            {| ok := false; body := Some (VObj [("text", VStr "Sorry.")]) |}
     = Throw "Batch translation API error".
Proof.
  repeat split; vm_compute; reflexivity.
Qed.

(** ** Display resolver *)

Lemma truthy_not_nullish v : truthy v = true -> nullish v = false.
Proof. destruct v; try reflexivity; discriminate. Qed.

(** An entry the cache test accepts is the entry the resolver reads. *)
Lemma hasTranslation_entry language m :
  hasTranslation language m = true ->
  truthy (translationEntry language m) = true.
Proof.
  unfold hasTranslation, translationEntry.
  destruct (msg_translations m) as [t|]; [|discriminate].
  intros H. apply andb_prop in H as [Ht Hentry].
  rewrite (truthy_not_nullish t Ht). exact Hentry.
Qed.

(** C4, as amended.  The resolver returns [translations[language]]
    whenever that entry is neither [undefined] nor [null], the empty
    string included, and the original text otherwise; in particular it
    returns the entry when the entry is present and non-empty (when the
    cache test [hasTranslation] holds), and the original text when there
    is no [translations] object or no such entry.  It is a function of
    the message and the language alone: it reads no other state, changes
    none and issues no request. *)
Theorem getMessageText_resolves language m :
  getMessageText language m =
    (if nullish (translationEntry language m)
     then VStr (msg_original m)
     else translationEntry language m)
  /\ (hasTranslation language m = true ->
      getMessageText language m = translationEntry language m)
  /\ (msg_translations m = None -> getMessageText language m = VStr (msg_original m))
  /\ (forall ps, msg_translations m = Some (VObj ps) ->
                 lookupProp language ps = VUndef ->
                 getMessageText language m = VStr (msg_original m))
  /\ (forall ps, msg_translations m = Some (VObj ps) ->
                 lookupProp language ps = VStr "" ->
                 getMessageText language m = VStr "").
Proof.
  assert (Heq : getMessageText language m =
                if nullish (translationEntry language m)
                then VStr (msg_original m)
                else translationEntry language m).
  { unfold getMessageText, coalesce.
    destruct (nullish (translationEntry language m)) eqn:Hn; [reflexivity|].
    rewrite Hn. reflexivity. }
  split; [exact Heq|]. rewrite Heq. repeat split.
  - intros Hc. apply hasTranslation_entry, truthy_not_nullish in Hc.
    rewrite Hc. reflexivity.
  - intros Hnone. unfold translationEntry. rewrite Hnone. reflexivity.
  - intros ps Hps Hlook. unfold translationEntry. rewrite Hps. simpl.
    rewrite Hlook. reflexivity.
  - intros ps Hps Hlook. unfold translationEntry. rewrite Hps. simpl.
    rewrite Hlook. reflexivity.
Qed.

(** [question] resolves to its cached text in English and, having no
    Japanese entry, to its original text in Japanese. *)
Lemma getMessageText_resolves_witness :
  getMessageText "en-US" question = translationEntry "en-US" question
  /\ getMessageText "ja-JP" question = VStr "Weather this week?".
Proof.
  split.
  - exact (proj1 (proj2 (getMessageText_resolves "en-US" question)) eq_refl).
  - exact (proj1 (proj2 (proj2 (proj2 (getMessageText_resolves "ja-JP" question))))
             [("en-US", VStr "Weather this week?")] eq_refl eq_refl).
Defined.

(** C4 (counterexample).  A message whose [ja-JP] entry is present and
    empty resolves to the empty string, not to its original text. *)
Lemma getMessageText_resolves_counterexample :
  let m := {| msg_id := "7"; msg_type := assistant; msg_original := "Hello";
              msg_translations := Some (VObj [("ja-JP", VStr "")]);
              msg_timestamp := DateMs 0;
              msg_weatherData := None; msg_sources := None |} in
  translationEntry "ja-JP" m = VStr ""
  /\ hasTranslation "ja-JP" m = false
  /\ getMessageText "ja-JP" m = VStr ""
  /\ msg_original m = "Hello".
Proof.
  vm_compute. repeat split.
Qed.

(** ** Translation cache *)

Lemma lookupProp_setProp_eq k v ps : lookupProp k (setProp k v ps) = v.
Proof.
  induction ps as [|[k' x] ps IH]; simpl.
  - rewrite String.eqb_refl. reflexivity.
  - destruct (String.eqb k' k) eqn:Hk; simpl; rewrite Hk; [reflexivity | exact IH].
Qed.

Lemma lookupProp_setProp_ne k k' v ps :
  k <> k' -> lookupProp k' (setProp k v ps) = lookupProp k' ps.
Proof.
  intros Hne. induction ps as [|[k0 x] ps IH]; simpl.
  - apply String.eqb_neq in Hne. rewrite Hne. reflexivity.
  - destruct (String.eqb k0 k) eqn:Hk; simpl.
    + apply String.eqb_eq in Hk. subst k0.
      apply String.eqb_neq in Hne. rewrite Hne. reflexivity.
    + destruct (String.eqb k0 k'); [reflexivity | exact IH].
Qed.

(** After [{ ...m, translations: { ..., [language]: v } }] the entry for
    [language] is [v], whatever was there. *)
Lemma translationEntry_withTranslation language v m :
  translationEntry language (withTranslation language v m) = v.
Proof. unfold translationEntry. simpl. apply lookupProp_setProp_eq. Qed.

Lemma withTranslation_id language v m : msg_id (withTranslation language v m) = msg_id m.
Proof. reflexivity. Qed.

Lemma storeTranslation_entry id language translated prev :
  Forall (fun m => msg_id m = id -> translationEntry language m = translated)
         (storeTranslation id language translated prev).
Proof.
  unfold storeTranslation. apply List.Forall_forall. intros m' Hin.
  apply in_map_iff in Hin as (m & <- & _).
  destruct (String.eqb (msg_id m) id) eqn:Hid.
  - intros _. apply translationEntry_withTranslation.
  - intros Heq. apply String.eqb_neq in Hid. contradiction.
Qed.

Lemma applyBatch_entry language batch results prev :
  Forall (fun m => forall idx,
              findIndex (fun b => String.eqb (msg_id b) (msg_id m)) batch = Some idx ->
              translationEntry language m = resultAt results idx)
         (applyBatch language batch results prev).
Proof.
  unfold applyBatch. apply List.Forall_forall. intros m' Hin.
  apply in_map_iff in Hin as (m & <- & _).
  destruct (findIndex (fun b => String.eqb (msg_id b) (msg_id m)) batch) as [i|] eqn:Hfind.
  - intros idx. rewrite withTranslation_id, Hfind. intros [= <-].
    apply translationEntry_withTranslation.
  - intros idx. rewrite Hfind. discriminate.
Qed.

(** C1, as amended.  A successful completion writes without looking at
    the entry: when the on-demand request of task [i] resolves to
    [translated], every message with the task's id has
    [translations[language] = translated] afterwards; when the batch
    request of loop [j] resolves to [results], every message whose id is
    found at position [idx] of the batch has
    [translations[language] = results[idx]] afterwards.  The entry for a
    pair is therefore the result of the latest completion for it. *)
Theorem completion_overwrites_entry s :
  (forall i t translated,
      tasks s !! i = Some t -> task_phase t = InFlight ->
      Forall (fun m => msg_id m = task_id t ->
                       translationEntry (task_language t) m = translated)
             (messages (translateSettled i (Ok translated) s)))
  /\ (forall j r results,
        runners s !! j = Some r -> run_remaining r <> [] ->
        Forall (fun m => forall idx,
                    findIndex (fun b => String.eqb (msg_id b) (msg_id m))
                              (take BATCH (run_remaining r)) = Some idx ->
                    translationEntry (run_language r) m = resultAt results idx)
               (messages (batchSettled j (Ok results) s))).
Proof.
  split.
  - intros i t translated Ht Hphase. unfold translateSettled.
    rewrite Ht, Hphase. simpl. apply storeTranslation_entry.
  - intros j r results Hr Hne. unfold batchSettled. rewrite Hr.
    destruct (run_remaining r) as [|b rest] eqn:Hrem; [contradiction|].
    simpl messages. apply applyBatch_entry.
Qed.

(** The batch completion of the race, through the theorem. *)
Lemma completion_overwrites_entry_witness :
  let s := run raceEvents (initial [reply "a" "Sunny"]) in
  Forall (fun m => forall idx,
              findIndex (fun b => String.eqb (msg_id b) (msg_id m))
                        (take BATCH [reply "a" "Sunny"]) = Some idx ->
              translationEntry "ja-JP" m = resultAt ["slow"] idx)
         (messages (batchSettled 0 (Ok ["slow"]) s)).
Proof.
  apply (completion_overwrites_entry (run raceEvents (initial [reply "a" "Sunny"])))
    with (r := {| run_language := "ja-JP"; run_remaining := [reply "a" "Sunny"] |}).
  - vm_compute. reflexivity.
  - discriminate.
Defined.

(** C1 (counterexample).  After the race the entry of the message holds
    the result of the on-demand request, and both requests were issued;
    the batch result that arrives next replaces it. *)
Lemma first_writer_wins_counterexample :
  let s := run raceEvents (initial [reply "a" "Sunny"]) in
  calls s = [BatchCall ["Sunny"] "ja-JP"; TranslateCall "a" "Sunny" "ja-JP"]
  /\ entries "ja-JP" s = [VStr "fast"]
  /\ entries "ja-JP" (step s (BatchSettled 0 (Ok ["slow"]))) = [VStr "slow"].
Proof.
  vm_compute. repeat split.
Qed.

(** ** Translation scheduler: the concurrency bound *)

Lemma filter_length_app {A} (p : A -> bool) xs x :
  length (List.filter p (xs ++ [x])) = (length (List.filter p xs) + weight (p x))%nat.
Proof.
  induction xs as [|y ys IH]; simpl.
  - destruct (p x); reflexivity.
  - destruct (p y); simpl; rewrite IH; reflexivity.
Qed.

Lemma filter_length_insert {A} (p : A -> bool) xs i x y :
  xs !! i = Some x ->
  (length (List.filter p (<[ i := y ]> xs)) + weight (p x)
   = length (List.filter p xs) + weight (p y))%nat.
Proof.
  revert i. induction xs as [|z zs IH]; intros i Hx; [discriminate|].
  destruct i as [|i]; simpl in Hx |- *.
  - injection Hx as ->. destruct (p x), (p y); simpl; lia.
  - specialize (IH i Hx). destruct (p z); simpl; lia.
Qed.

Lemma wake_counted i s : counted s -> counted (wake i s).
Proof.
  intros [Hc Hle]. unfold wake.
  destruct (tasks s !! i) as [t|] eqn:Ht; [|split; assumption].
  destruct (task_phase t) eqn:Hph; try (split; assumption).
  destruct (MAX_CONCURRENT_TRANSLATIONS <=? translatingCount s) eqn:Hfull;
    [split; assumption|].
  apply Z.leb_gt in Hfull.
  pose proof (filter_length_insert isInFlight (tasks s) i t (setPhase InFlight t) Ht) as Hn.
  assert (Hx : isInFlight t = false) by (unfold isInFlight; rewrite Hph; reflexivity).
  rewrite Hx in Hn. change (isInFlight (setPhase InFlight t)) with true in Hn.
  unfold weight in Hn.
  unfold counted, pendingTranslateCalls, MAX_CONCURRENT_TRANSLATIONS in *.
  simpl. split; lia.
Qed.

Lemma ensureTranslation_counted m l s : counted s -> counted (ensureTranslation m l s).
Proof.
  intros Hs. unfold ensureTranslation.
  destruct (String.eqb (msg_original m) ""); [assumption|].
  destruct (hasTranslation l m); [assumption|].
  destruct (bool_decide _); [assumption|].
  apply wake_counted. destruct Hs as [Hc Hle].
  unfold counted, pendingTranslateCalls in *. simpl.
  rewrite filter_length_app. simpl. split; [lia | assumption].
Qed.

Lemma translateSettled_counted i r s : counted s -> counted (translateSettled i r s).
Proof.
  intros [Hc Hle]. unfold translateSettled.
  destruct (tasks s !! i) as [t|] eqn:Ht; [|split; assumption].
  destruct (task_phase t) eqn:Hph; try (split; assumption).
  pose proof (filter_length_insert isInFlight (tasks s) i t (setPhase Finished t) Ht) as Hn.
  assert (Hx : isInFlight t = true) by (unfold isInFlight; rewrite Hph; reflexivity).
  rewrite Hx in Hn. change (isInFlight (setPhase Finished t)) with false in Hn.
  unfold weight in Hn.
  unfold counted, pendingTranslateCalls, MAX_CONCURRENT_TRANSLATIONS in *.
  simpl. split; lia.
Qed.

Lemma step_counted s e : counted s -> counted (step s e).
Proof.
  intros Hs. destruct e as [m l | m l | i | i r | l g | j r]; simpl.
  - apply ensureTranslation_counted; assumption.
  - unfold messageEffect. destruct (msg_type m); try assumption;
      destruct (negb (hasTranslation l m)); try assumption;
      apply ensureTranslation_counted; assumption.
  - apply wake_counted; assumption.
  - apply translateSettled_counted; assumption.
  - exact Hs.
  - unfold batchSettled. destruct (runners s !! j) as [r0|]; [|assumption].
    destruct (run_remaining r0); [assumption | exact Hs].
Qed.

Lemma run_counted events s : counted s -> counted (run events s).
Proof.
  revert s. induction events as [|e es IH]; intros s Hs; [assumption|].
  simpl. apply IH, step_counted, Hs.
Qed.

Lemma initial_counted msgs : counted (initial msgs).
Proof. split; [reflexivity | discriminate]. Qed.

(** The on-demand path starts no batch loop. *)
Lemma wake_runners i s : runners (wake i s) = runners s.
Proof.
  unfold wake. destruct (tasks s !! i) as [t|]; [|reflexivity].
  destruct (task_phase t); try reflexivity.
  destruct (_ <=? _); reflexivity.
Qed.

Lemma ensureTranslation_runners m l s : runners (ensureTranslation m l s) = runners s.
Proof.
  unfold ensureTranslation.
  destruct (String.eqb (msg_original m) ""); [reflexivity|].
  destruct (hasTranslation l m); [reflexivity|].
  destruct (bool_decide _); [reflexivity|].
  rewrite wake_runners. reflexivity.
Qed.

Lemma step_onDemand_runners s e : onDemand e = true -> runners (step s e) = runners s.
Proof.
  destruct e as [m l | m l | i | i r | l g | j r]; simpl; try discriminate; intros _.
  - apply ensureTranslation_runners.
  - unfold messageEffect. destruct (msg_type m); try reflexivity;
      destruct (negb (hasTranslation l m)); try reflexivity;
      apply ensureTranslation_runners.
  - apply wake_runners.
  - unfold translateSettled. destruct (tasks s !! i) as [t|]; [|reflexivity].
    destruct (task_phase t); reflexivity.
Qed.

Lemma run_onDemand_runners events s :
  forallb onDemand events = true -> runners (run events s) = runners s.
Proof.
  revert s. induction events as [|e es IH]; intros s H; [reflexivity|].
  simpl in H. apply andb_prop in H as [He Hes]. simpl.
  rewrite IH by assumption. apply step_onDemand_runners; assumption.
Qed.

(** Whatever else happens on the page (language changes and settled
    batches included), the counter is the number of on-demand requests
    pending, and that number is at most three. *)
Theorem pending_translate_calls_bounded msgs events :
  let s := run events (initial msgs) in
  Z.of_nat (pendingTranslateCalls s) = translatingCount s
  /\ (pendingTranslateCalls s <= 3)%nat.
Proof.
  intros s.
  destruct (run_counted events (initial msgs) (initial_counted msgs)) as [Hc Hle].
  fold s in Hc, Hle. unfold MAX_CONCURRENT_TRANSLATIONS in Hle. split; lia.
Qed.

(** C2.  From the initial state of the page, after any sequence of
    events of the on-demand path (calls of [ensureTranslation], timer
    wake-ups of the polling loop, settled requests), in any order, the
    number of outbound translation requests pending is the value of the
    counter and is at most [MAX_CONCURRENT_TRANSLATIONS = 3].  The
    sequence is arbitrary, so the bound holds at every point of every
    interleaving. *)
Theorem pending_calls_bounded msgs events :
  forallb onDemand events = true ->
  let s := run events (initial msgs) in
  Z.of_nat (pendingCalls s) = translatingCount s
  /\ (pendingCalls s <= 3)%nat.
Proof.
  intros Hev s.
  destruct (run_counted events (initial msgs) (initial_counted msgs)) as [Hc Hle].
  fold s in Hc, Hle.
  assert (Hb : pendingBatchCalls s = 0%nat).
  { unfold pendingBatchCalls. subst s.
    rewrite run_onDemand_runners by assumption. reflexivity. }
  unfold pendingCalls. rewrite Hb, Nat.add_0_r.
  unfold MAX_CONCURRENT_TRANSLATIONS in Hle. split; lia.
Qed.

(** With ten messages requested at once, three requests are pending and
    seven calls wait in the polling loop. *)
Lemma pending_calls_bounded_witness :
  let s := run tenRequests (initial tenReplies) in
  (Z.of_nat (pendingCalls s) = translatingCount s /\ (pendingCalls s <= 3)%nat)
  /\ pendingCalls s = 3%nat
  /\ length (List.filter (fun t => match task_phase t with Sleeping => true | _ => false end)
                         (tasks s)) = 7%nat.
Proof.
  split; [|vm_compute; split; reflexivity].
  apply (pending_calls_bounded tenReplies tenRequests). reflexivity.
Defined.

(** ** Translation scheduler: duplicates and no-ops *)

Lemma lookup_snoc {A} (xs : list A) x : (xs ++ [x])%list !! length xs = Some x.
Proof. induction xs as [|y ys IH]; [reflexivity | exact IH]. Qed.

(** With a free slot, [ensureTranslation] marks the message and issues
    its request before it returns. *)
Lemma ensureTranslation_starts m l s :
  msg_original m <> "" -> hasTranslation l m = false ->
  msg_id m ∉ translating s ->
  translatingCount s < MAX_CONCURRENT_TRANSLATIONS ->
  let s' := ensureTranslation m l s in
  calls s' = (calls s ++ [TranslateCall (msg_id m) (msg_original m) l])%list
  /\ msg_id m ∈ translating s'.
Proof.
  intros Ho Hc Hin Hfree. unfold ensureTranslation.
  apply String.eqb_neq in Ho. rewrite Ho, Hc.
  rewrite bool_decide_eq_false_2 by assumption.
  unfold wake. simpl tasks. rewrite lookup_snoc. simpl task_phase.
  simpl translatingCount. apply Z.leb_gt in Hfree. rewrite Hfree. simpl.
  split; [reflexivity | set_solver].
Qed.

Lemma ensureTranslation_in_flight m l s :
  msg_id m ∈ translating s -> ensureTranslation m l s = s.
Proof.
  intros Hin. unfold ensureTranslation.
  destruct (String.eqb (msg_original m) ""); [reflexivity|].
  destruct (hasTranslation l m); [reflexivity|].
  rewrite bool_decide_eq_true_2 by assumption. reflexivity.
Qed.

(** Two calls in immediate succession, with a free slot: one request. *)
Lemma ensureTranslation_twice_free_slot m l s :
  msg_original m <> "" -> hasTranslation l m = false ->
  msg_id m ∉ translating s ->
  translatingCount s < MAX_CONCURRENT_TRANSLATIONS ->
  calls (ensureTranslation m l (ensureTranslation m l s))
  = (calls s ++ [TranslateCall (msg_id m) (msg_original m) l])%list.
Proof.
  intros Ho Hc Hin Hfree.
  destruct (ensureTranslation_starts m l s Ho Hc Hin Hfree) as [Hcalls Hmark].
  rewrite ensureTranslation_in_flight by exact Hmark. exact Hcalls.
Qed.

Lemma needsTranslation_not_cached l m :
  needsTranslation l m = true -> hasTranslation l m = false.
Proof.
  unfold needsTranslation. destruct (hasTranslation l m); [|reflexivity].
  rewrite andb_false_r. discriminate.
Qed.

(** For a pair that is cached, the on-demand path changes nothing and
    issues nothing, and the batch path leaves the message out of every
    request it builds. *)
Lemma cached_pair_is_skipped l m :
  hasTranslation l m = true ->
  (forall s, ensureTranslation m l s = s)
  /\ (forall s, messageEffect m l s = s)
  /\ (forall current, ~ In m (toTranslate l current)).
Proof.
  intros Hc. repeat split.
  - intros s. unfold ensureTranslation. rewrite Hc.
    destruct (String.eqb (msg_original m) ""); reflexivity.
  - intros s. unfold messageEffect. rewrite Hc. destruct (msg_type m); reflexivity.
  - intros current Hin. unfold toTranslate in Hin. apply filter_In in Hin as [_ Hn].
    apply needsTranslation_not_cached in Hn. congruence.
Qed.

(** C3 (the code at the failing input).  With the three slots taken,
    [ensureTranslation] is called twice in immediate succession for the
    fourth message.  Neither call finds the id marked (the mark is set
    after the polling loop), so both wait.  When two slots come free
    and the timers fire, each of the two issues its own request: two
    outbound calls for the one pair, pending at the same time. *)
Theorem ensureTranslation_twice_when_saturated :
  let twice := run [Ensure (reply "d" "Snow") "ja-JP";
                    Ensure (reply "d" "Snow") "ja-JP"] slotsTaken in
  let later := run [TranslateSettled 0 (Ok (VStr "晴れ")); TimerFired 3;
                    TranslateSettled 1 (Ok (VStr "風")); TimerFired 4] twice in
  translatingCount slotsTaken = 3
  /\ List.map task_phase (tasks twice) = [InFlight; InFlight; InFlight; Sleeping; Sleeping]
  /\ List.filter (isTranslateCall "d" "ja-JP") (calls twice) = []
  /\ List.filter (isTranslateCall "d" "ja-JP") (calls later)
     = [TranslateCall "d" "Snow" "ja-JP"; TranslateCall "d" "Snow" "ja-JP"]
  /\ List.map task_phase (tasks later) = [Finished; Finished; InFlight; InFlight; InFlight].
Proof.
  vm_compute. repeat split.
Qed.

(** ** Batch translation flow *)

Lemma chunks_fuel {A} (n : nat) fuel1 fuel2 (l : list A) :
  (0 < n)%nat -> (length l <= fuel1)%nat -> (length l <= fuel2)%nat ->
  chunks n fuel1 l = chunks n fuel2 l.
Proof.
  intros Hn. revert fuel2 l.
  induction fuel1 as [|fuel1 IH]; intros fuel2 l H1 H2.
  - destruct l; [destruct fuel2; reflexivity | simpl in H1; lia].
  - destruct l as [|x l]; [destruct fuel2; reflexivity|].
    destruct fuel2 as [|fuel2]; [simpl in H2; lia|].
    cbn [chunks]. f_equal.
    apply IH; rewrite length_drop; simpl in *; lia.
Qed.

(** The batches of a non-empty list: its first [BATCH] messages, then
    the batches of the rest. *)
Lemma batches_cons pending :
  pending <> [] ->
  batches pending = take BATCH pending :: batches (drop BATCH pending).
Proof.
  intros Hne. unfold batches.
  destruct pending as [|x l]; [contradiction|].
  cbn [length chunks]. f_equal.
  apply chunks_fuel; [unfold BATCH; lia | | lia].
  rewrite length_drop. unfold BATCH. simpl. lia.
Qed.

Lemma batches_nil : batches [] = [].
Proof. reflexivity. Qed.

(** Induction along the batches of a list. *)
Lemma batches_ind (P : list ChatMessage -> Prop) :
  P [] ->
  (forall pending, pending <> [] -> P (drop BATCH pending) -> P pending) ->
  forall pending, P pending.
Proof.
  intros Hnil Hstep pending.
  remember (length pending) as n eqn:Hn. revert pending Hn.
  induction n as [n IH] using lt_wf_ind. intros pending Hn.
  destruct pending as [|x l]; [exact Hnil|].
  apply Hstep; [discriminate|].
  apply (IH (length (drop BATCH (x :: l)))); [|reflexivity].
  rewrite length_drop. subst n. unfold BATCH. simpl. lia.
Qed.

(** The batches partition the list, each holds between one and [BATCH]
    messages, and there are [ceil (length / 8)] of them. *)
Lemma batches_partition pending :
  concat (batches pending) = pending
  /\ Forall (fun g => (0 < length g <= BATCH)%nat) (batches pending)
  /\ length (batches pending) = ((length pending + 7) / 8)%nat.
Proof.
  induction pending as [|pending Hne (Hcat & Hall & Hlen)] using batches_ind.
  - repeat split. constructor.
  - rewrite batches_cons by assumption. repeat split.
    + simpl. rewrite Hcat. apply take_drop.
    + constructor; [|assumption].
      rewrite length_take. destruct pending; [contradiction|].
      unfold BATCH. cbn [length]. lia.
    + cbn [length]. rewrite Hlen, length_drop.
      destruct pending as [|x l]; [contradiction|].
      unfold BATCH. cbn [length].
      destruct (Nat.le_gt_cases 8 (S (length l))) as [Hge | Hlt].
      * replace (S (length l) + 7)%nat with (((S (length l) - 8) + 7) + 1 * 8)%nat by lia.
        rewrite Nat.div_add by lia. lia.
      * replace (S (length l) - 8)%nat with 0%nat by lia.
        assert (H1 : ((S (length l) + 7) / 8 = 1)%nat).
        { symmetry. apply Nat.div_unique with (r := length l); lia. }
        rewrite H1. reflexivity.
Qed.

Lemma batches_single pending :
  (0 < length pending <= BATCH)%nat -> batches pending = [pending].
Proof.
  intros [Hpos Hle]. rewrite batches_cons by (destruct pending; simpl in *; [lia | discriminate]).
  rewrite take_ge, drop_ge by assumption. reflexivity.
Qed.

Lemma nextBatchCall_batches language rest :
  nextBatchCall language rest = List.map (batchCall language) (take 1 (batches rest)).
Proof.
  destruct rest as [|x l]; [reflexivity|].
  rewrite batches_cons by discriminate. reflexivity.
Qed.

(** A settled batch of an unknown loop changes nothing. *)
Lemma batchSettled_unknown j r s : runners s !! j = None -> batchSettled j r s = s.
Proof. intros H. unfold batchSettled. rewrite H. reflexivity. Qed.

Lemma run_batchSettled_unknown j responses s :
  runners s !! j = None -> run (List.map (BatchSettled j) responses) s = s.
Proof.
  intros H. induction responses as [|r rs IH]; [reflexivity|].
  simpl. rewrite batchSettled_unknown by assumption. exact IH.
Qed.

(** The requests loop [j] issues while its batches settle one after the
    other: after each response, the request for the next batch. *)
Lemma run_batchSettled_calls j responses s r :
  runners s !! j = Some r ->
  calls (run (List.map (BatchSettled j) responses) s)
  = (calls s ++ List.map (batchCall (run_language r))
                         (take (length responses) (drop 1 (batches (run_remaining r)))))%list.
Proof.
  revert s r. induction responses as [|resp rs IH]; intros s r Hr.
  - simpl. rewrite app_nil_r. reflexivity.
  - cbn [List.map run fold_left step]. change (fold_left step ?es ?s0) with (run es s0).
    unfold batchSettled at 1. rewrite Hr.
    destruct (run_remaining r) as [|x l] eqn:Hrem.
    + rewrite (IH s r Hr), Hrem, batches_nil. cbn [drop]. rewrite !take_nil. reflexivity.
    + set (rest := drop BATCH (x :: l)).
      set (r' := {| run_language := run_language r; run_remaining := rest |}).
      erewrite (IH _ r').
      2:{ simpl runners. apply list_lookup_insert_eq. eapply lookup_lt_Some; eassumption. }
      simpl calls. simpl run_language. simpl run_remaining.
      rewrite nextBatchCall_batches, <- app_assoc. f_equal.
      rewrite (batches_cons (x :: l)) by discriminate. fold rest.
      cbn [drop length]. rewrite drop_0.
      destruct (batches rest) as [|g gs];
        [cbn [drop]; rewrite !take_nil; reflexivity|].
      cbn [take drop List.map app]. rewrite drop_0. reflexivity.
Qed.

Lemma map_lookup {A B} (f : A -> B) l k : List.map f l !! k = option_map f (l !! k).
Proof.
  revert k. induction l as [|x l IH]; intros [|k]; simpl; auto.
Qed.

(** In a batch whose ids are distinct, the position [findIndex] finds
    for the id of a message of the batch is the position of that
    message. *)
Lemma findIndex_distinct_ids batch idx b :
  NoDup (List.map msg_id batch) -> batch !! idx = Some b ->
  findIndex (fun b' => String.eqb (msg_id b') (msg_id b)) batch = Some idx.
Proof.
  revert idx. induction batch as [|a batch IH]; intros idx Hnd Hb; [discriminate|].
  simpl in Hnd. apply NoDup_cons in Hnd as [Hnotin Hnd].
  destruct idx as [|idx]; simpl in Hb |- *.
  - injection Hb as ->. rewrite String.eqb_refl. reflexivity.
  - destruct (String.eqb (msg_id a) (msg_id b)) eqn:Heq.
    + apply String.eqb_eq in Heq. exfalso. apply Hnotin. rewrite Heq.
      apply list_elem_of_In, in_map, list_elem_of_In, list_elem_of_lookup. eauto.
    + rewrite (IH idx Hnd Hb). reflexivity.
Qed.

Lemma languageChanged_calls language greeting s :
  let pending := toTranslate language (messages (languageChanged language greeting s)) in
  calls (languageChanged language greeting s)
  = (calls s ++ List.map (batchCall language) (take 1 (batches pending)))%list
  /\ (pending = [] -> runners (languageChanged language greeting s) = runners s)
  /\ (pending <> [] ->
      runners (languageChanged language greeting s)
      = (runners s ++ [{| run_language := language; run_remaining := pending |}])%list).
Proof.
  simpl. rewrite nextBatchCall_batches. split; [reflexivity|].
  destruct (toTranslate language _); split; congruence.
Qed.

(** C8.  The batch flow of a language change, for the messages
    [pending] that need a translation: (1) its batches partition
    [pending] in order into groups of one to [BATCH = 8] messages,
    [ceil (n / 8)] groups for [n] messages; (2) it issues one request
    per group, in order, the request of a group only once the request
    of the group before has settled: after [k] responses the requests
    issued are those of the first [k + 1] groups; (3) a response is
    matched to the messages by position: whatever the message list is
    when the response arrives, the message with the id of the [idx]-th
    message of the batch receives [results[idx]] (the ids of a batch
    being distinct); (4) with five messages to translate exactly one
    request is issued. *)
Theorem batch_translation_flow language :
  (forall current,
      let pending := toTranslate language current in
      concat (batches pending) = pending
      /\ Forall (fun g => (0 < length g <= BATCH)%nat) (batches pending)
      /\ length (batches pending) = ((length pending + 7) / 8)%nat)
  /\ (forall s greeting responses,
        let s1 := languageChanged language greeting s in
        let pending := toTranslate language (messages s1) in
        calls (run (List.map (BatchSettled (length (runners s))) responses) s1)
        = (calls s ++ List.map (batchCall language)
                               (take (S (length responses)) (batches pending)))%list)
  /\ (forall batch results prev idx b k m,
        NoDup (List.map msg_id batch) -> batch !! idx = Some b ->
        prev !! k = Some m -> msg_id m = msg_id b ->
        exists m',
          applyBatch language batch results prev !! k = Some m'
          /\ msg_id m' = msg_id m
          /\ translationEntry language m' = resultAt results idx)
  /\ (forall s greeting responses,
        let s1 := languageChanged language greeting s in
        let pending := toTranslate language (messages s1) in
        length pending = 5%nat ->
        calls (run (List.map (BatchSettled (length (runners s))) responses) s1)
        = (calls s ++ [batchCall language pending])%list).
Proof.
  assert (Hflow : forall s greeting responses,
             let s1 := languageChanged language greeting s in
             let pending := toTranslate language (messages s1) in
             calls (run (List.map (BatchSettled (length (runners s))) responses) s1)
             = (calls s ++ List.map (batchCall language)
                                    (take (S (length responses)) (batches pending)))%list).
  { intros s greeting responses s1 pending.
    destruct (languageChanged_calls language greeting s) as (Hcalls & Hnone & Hsome).
    fold s1 in Hcalls, Hnone, Hsome. fold pending in Hcalls, Hnone, Hsome.
    destruct pending as [|x l] eqn:Hp.
    - rewrite run_batchSettled_unknown.
      + rewrite Hcalls, batches_nil, !take_nil. reflexivity.
      + rewrite Hnone by reflexivity. apply lookup_ge_None. lia.
    - erewrite run_batchSettled_calls.
      2:{ rewrite Hsome by discriminate. apply lookup_snoc. }
      simpl run_language. simpl run_remaining.
      rewrite Hcalls, <- app_assoc. f_equal. }
  split; [|split; [|split]].
  - intros current pending. apply batches_partition.
  - exact Hflow.
  - intros batch results prev idx b k m Hnd Hb Hm Hid.
    exists (withTranslation language (resultAt results idx) m).
    split; [|split].
    + unfold applyBatch. rewrite map_lookup, Hm. simpl. rewrite Hid.
      rewrite (findIndex_distinct_ids batch idx b Hnd Hb). reflexivity.
    + reflexivity.
    + apply translationEntry_withTranslation.
  - intros s greeting responses s1 pending Hfive.
    unfold s1, pending. rewrite Hflow. fold s1. fold pending.
    rewrite batches_single by (unfold BATCH; lia).
    cbn [take]. rewrite take_nil. reflexivity.
Qed.

(** Switching that page to Japanese issues one request for the five
    replies; its response is matched to them by position. *)
Lemma batch_translation_flow_witness :
  let s := initial fiveReplies in
  let s1 := languageChanged "ja-JP" "Konnichiwa" s in
  let responses := [Ok ["A"; "B"; "C"; "D"; "E"]] in
  let s2 := run (List.map (BatchSettled (length (runners s))) responses) s1 in
  calls s2 = (calls s ++ [batchCall "ja-JP" (toTranslate "ja-JP" (messages s1))])%list
  /\ calls s2 = [BatchCall ["Sunny"; "Windy"; "Rain"; "Snow"; "Fog"] "ja-JP"]
  /\ List.map (getMessageText "ja-JP") (messages s2)
     = [VStr "Konnichiwa"; VStr "Weather this week?";
        VStr "A"; VStr "B"; VStr "C"; VStr "D"; VStr "E"].
Proof.
  split; [|vm_compute; split; reflexivity].
  apply (proj2 (proj2 (proj2 (batch_translation_flow "ja-JP")))
           (initial fiveReplies) "Konnichiwa" [Ok ["A"; "B"; "C"; "D"; "E"]]).
  vm_compute. reflexivity.
Defined.

(** ** Further evaluations *)

(** No persistence without a user turn: for a message list with no
    user message [autoSaveChat] returns the stored list and leaves the
    storage slot as it was. *)
Theorem autoSaveChat_without_user_turn {dates : DateApi} {json : JsonApi}
    env slot messages :
  existsb isUser messages = false ->
  autoSaveChat env slot messages = (loadChatsFromStorage env slot, slot).
Proof.
  intros Hu. apply autoSaveChat_not_saved. right. right. exact Hu.
Qed.

(** Saving a transcript with no user message over [sampleStored]. *)
Lemma autoSaveChat_without_user_turn_witness :
  autoSaveChat sampleEnv (Holds sampleStored) [reply "11" "Sunny"]
  = (loadChatsFromStorage sampleEnv (Holds sampleStored), Holds sampleStored).
Proof.
  apply (autoSaveChat_without_user_turn sampleEnv (Holds sampleStored) [reply "11" "Sunny"]).
  reflexivity.
Defined.

(** Two calls for the fourth reply while only two slots are taken. *)
Lemma ensureTranslation_twice_free_slot_witness :
  let s := run [Ensure (reply "a" "Sunny") "ja-JP"; Ensure (reply "b" "Windy") "ja-JP"]
               (initial fourReplies) in
  calls (ensureTranslation (reply "d" "Snow") "ja-JP"
           (ensureTranslation (reply "d" "Snow") "ja-JP" s))
  = (calls s ++ [TranslateCall "d" "Snow" "ja-JP"])%list.
Proof.
  apply (ensureTranslation_twice_free_slot (reply "d" "Snow") "ja-JP"
           (run [Ensure (reply "a" "Sunny") "ja-JP"; Ensure (reply "b" "Windy") "ja-JP"]
                (initial fourReplies))).
  - discriminate.
  - reflexivity.
  - vm_compute. set_solver.
  - reflexivity.
Defined.

(** [question] has its English text cached. *)
Lemma cached_pair_is_skipped_witness :
  ensureTranslation question "en-US" slotsTaken = slotsTaken.
Proof.
  exact (proj1 (cached_pair_is_skipped "en-US" question eq_refl) slotsTaken).
Defined.

(** ** Loading what the store wrote *)

Section ReloadFacts.
Context {dates : DateApi}.

Lemma decodeMessage_encodeMessage_same now m :
  exists m', decodeMessage now (encodeMessage m) = Ok m' /\ sameMessage m m'.
Proof.
  eexists. split; [apply decodeMessage_ok; reflexivity|].
  unfold sameMessage, encodeMessage. simpl.
  repeat split. apply roleOrSystem_roleName.
Qed.

Lemma decodeMessages_encodeMessages_same now ms :
  exists ms', mapR (decodeMessage now) (List.map encodeMessage ms) = Ok ms'
              /\ Forall2 sameMessage ms ms'.
Proof.
  induction ms as [|m ms (ms' & Hms & Hall)].
  - exists []. split; [reflexivity | constructor].
  - destruct (decodeMessage_encodeMessage_same now m) as (m' & Hm & Hsame).
    exists (m' :: ms'). cbn [List.map mapR]. rewrite Hm. cbn [bind]. rewrite Hms.
    split; [reflexivity | constructor; assumption].
Qed.

Lemma messagesRaw_encodeChat c :
  messagesRaw (encodeChat c) = List.map encodeMessage (chat_messages c).
Proof.
  unfold messagesRaw, encodeChat, encodeMessages.
  destruct (chat_userId c), (chat_city c); reflexivity.
Qed.

Lemma decodeChat_encodeChat_same now c :
  exists c', decodeChat now (encodeChat c) = Ok c' /\ sameChat c c'.
Proof.
  destruct (decodeMessages_encodeMessages_same now (chat_messages c)) as (ms' & Hms & Hall).
  rewrite <- messagesRaw_encodeChat in Hms.
  eexists. split.
  - apply (decodeChat_ok now (encodeChat c) ms' (chat_id c) (chat_title c) (chat_snippet c));
      [reflexivity | exact Hms | reflexivity | |];
      unfold encodeChat; destruct (chat_userId c); reflexivity.
  - unfold sameChat. cbn [chat_id chat_title chat_snippet chat_messages].
    repeat split. exact Hall.
Qed.

(** The text a store operation writes always decodes: one record per
    written record, with the same id, title, snippet and messages. *)
Lemma decode_encode_same now chats :
  Forall2 sameChat chats (decode now (encode chats)).
Proof.
  unfold decode, encode.
  assert (H : exists cs', mapR (decodeChat now) (List.map encodeChat chats) = Ok cs'
                          /\ Forall2 sameChat chats cs').
  { induction chats as [|c cs (cs' & Hcs & Hall)].
    - exists []. split; [reflexivity | constructor].
    - destruct (decodeChat_encodeChat_same now c) as (c' & Hc & Hsame).
      exists (c' :: cs'). cbn [List.map mapR]. rewrite Hc. cbn [bind]. rewrite Hcs.
      split; [reflexivity | constructor; assumption]. }
  destruct H as (cs' & -> & Hall). exact Hall.
Qed.

End ReloadFacts.

Lemma sameChat_find_id chatId xs ys :
  Forall2 sameChat xs ys ->
  match List.find (idIs chatId) xs, List.find (idIs chatId) ys with
  | Some x, Some y => sameChat x y
  | None, None => True
  | _, _ => False
  end.
Proof.
  induction 1 as [|x y xs ys Hxy _ IH]; [exact I|]. simpl.
  assert (Hid : idIs chatId y = idIs chatId x).
  { unfold idIs. destruct Hxy as (-> & _). reflexivity. }
  rewrite Hid. destruct (idIs chatId x); [exact Hxy | exact IH].
Qed.

Lemma sameChat_findIndex_title title xs ys :
  Forall2 sameChat xs ys ->
  findIndex (titleIs title) ys = findIndex (titleIs title) xs.
Proof.
  induction 1 as [|x y xs ys Hxy _ IH]; [reflexivity|]. simpl.
  assert (Ht : titleIs title y = titleIs title x).
  { unfold titleIs. destruct Hxy as (_ & -> & _). reflexivity. }
  rewrite Ht, IH. reflexivity.
Qed.

Lemma sameChat_ids xs ys :
  Forall2 sameChat xs ys -> List.map chat_id ys = List.map chat_id xs.
Proof.
  induction 1 as [|x y xs ys Hxy _ IH]; [reflexivity|]. simpl.
  destruct Hxy as (-> & _). rewrite IH. reflexivity.
Qed.

Lemma sameChat_titles xs ys :
  Forall2 sameChat xs ys -> List.map chat_title ys = List.map chat_title xs.
Proof.
  induction 1 as [|x y xs ys Hxy _ IH]; [reflexivity|]. simpl.
  destruct Hxy as (_ & -> & _). rewrite IH. reflexivity.
Qed.

Lemma find_filter_none {A} (p : A -> bool) xs :
  List.find p (List.filter (fun x => negb (p x)) xs) = None.
Proof.
  induction xs as [|x xs IH]; [reflexivity|]. simpl.
  destruct (p x) eqn:Hp; simpl; [exact IH | rewrite Hp; exact IH].
Qed.

Lemma find_insert_found {A} (p : A -> bool) xs i y :
  findIndex p xs = Some i -> p y = true -> List.find p (<[ i := y ]> xs) = Some y.
Proof.
  revert i. induction xs as [|x xs IH]; intros i; simpl; [discriminate|].
  destruct (p x) eqn:Hp.
  - intros [= <-] Hy. simpl. rewrite Hy. reflexivity.
  - destruct (findIndex p xs) as [k|] eqn:Hk; simpl; [|discriminate].
    intros [= <-] Hy. simpl. rewrite Hp. apply IH; [reflexivity | assumption].
Qed.

Lemma insert_map {A B} (f : A -> B) xs i x y :
  xs !! i = Some x -> f y = f x -> List.map f (<[ i := y ]> xs) = List.map f xs.
Proof.
  revert i. induction xs as [|z zs IH]; intros i Hx Hf; [reflexivity|].
  destruct i as [|i]; simpl in Hx |- *.
  - injection Hx as ->. rewrite Hf. reflexivity.
  - rewrite (IH i Hx Hf). reflexivity.
Qed.

Lemma filter_all {A} (p : A -> bool) xs :
  forallb p xs = true -> List.filter p xs = xs.
Proof.
  induction xs as [|x xs IH]; [reflexivity|]. simpl.
  destruct (p x); simpl; [|discriminate]. intros H. rewrite IH by assumption. reflexivity.
Qed.

Lemma find_none {A} (p : A -> bool) xs :
  forallb (fun x => negb (p x)) xs = true -> List.find p xs = None.
Proof.
  induction xs as [|x xs IH]; [reflexivity|]. simpl.
  destruct (p x); simpl; [discriminate | exact IH].
Qed.

Section StoreSequences.
Context {dates : DateApi} {json : JsonApi}.

Lemma load_written env chats :
  hasWindow env = true ->
  Forall2 sameChat chats (loadChatsFromStorage env (Holds (encode chats))).
Proof.
  intros Hw. unfold loadChatsFromStorage. rewrite Hw. apply decode_encode_same.
Qed.

(** What a successful store operation wrote loads back: one record per
    record of the list the operation returned or built, in order, with
    the same id, title, snippet and messages (id, role, original text).
    The load never falls into its [catch] on a text the store wrote. *)
Theorem written_collection_loads_back env env' slot :
  hasWindow env = true -> setItemOk env = true -> hasWindow env' = true ->
  (forall messages,
      existsb isUser messages = true ->
      Forall2 sameChat (fst (autoSaveChat env slot messages))
              (loadChatsFromStorage env' (snd (autoSaveChat env slot messages))))
  /\ (forall chatId,
        Forall2 sameChat (fst (deleteChat env slot chatId))
                (loadChatsFromStorage env' (snd (deleteChat env slot chatId))))
  /\ (forall chatId newTitle index,
        findIndex (idIs chatId) (loadChatsFromStorage env slot) = Some index ->
        Forall2 sameChat
                (renameUpdated env newTitle index (loadChatsFromStorage env slot))
                (loadChatsFromStorage env' (snd (renameChat env slot chatId newTitle)))).
Proof.
  intros Hw Hs Hw'. split; [|split].
  - intros messages Hu. rewrite (autoSaveChat_saved env slot messages Hw Hs Hu).
    simpl. apply load_written; assumption.
  - intros chatId. rewrite deleteChat_result, Hw, Hs. simpl.
    apply load_written; assumption.
  - intros chatId newTitle index Hfind. rewrite renameChat_result, Hfind, Hw, Hs. simpl.
    apply load_written; assumption.
Qed.

(** A deleted conversation is gone from the store: after a successful
    [deleteChat], [getChatById] for that id finds nothing, in whatever
    environment it runs. *)
Theorem deleteChat_then_getChatById env env' slot chatId :
  hasWindow env = true -> setItemOk env = true ->
  getChatById env' (snd (deleteChat env slot chatId)) chatId = None.
Proof.
  intros Hw Hs. rewrite deleteChat_result, Hw, Hs. simpl. unfold getChatById.
  destruct (hasWindow env') eqn:Hw'.
  - pose proof (sameChat_find_id chatId _ _
                  (load_written env' (List.filter (fun c => negb (idIs chatId c))
                                        (loadChatsFromStorage env slot)) Hw')) as H.
    rewrite find_filter_none in H.
    destruct (List.find (idIs chatId) _); [contradiction | reflexivity].
  - unfold loadChatsFromStorage. rewrite Hw'. reflexivity.
Qed.

(** A renamed conversation is found under its new title: after a
    successful [renameChat], [getChatById] for that id returns a record
    with that id and the new title. *)
Theorem renameChat_then_getChatById env env' slot chatId newTitle r slot' :
  renameChat env slot chatId newTitle = (Some r, slot') ->
  hasWindow env' = true ->
  exists c, getChatById env' slot' chatId = Some c
            /\ chat_id c = chatId /\ chat_title c = newTitle
            /\ sameChat r c.
Proof.
  intros Hren Hw'. rewrite renameChat_result in Hren.
  destruct (findIndex (idIs chatId) (loadChatsFromStorage env slot)) as [index|] eqn:Hfind;
    [|discriminate].
  destruct (hasWindow env && setItemOk env); [|discriminate].
  destruct (findIndex_Some _ _ _ Hfind) as (old & Hold & Hid & _).
  unfold renameUpdated in Hren. rewrite Hold in Hren.
  rewrite list_lookup_insert_eq in Hren by (eapply lookup_lt_Some; eassumption).
  injection Hren as <- <-.
  pose proof (sameChat_find_id chatId _ _
                (load_written env' (<[ index := renamed env newTitle old ]>
                                      (loadChatsFromStorage env slot)) Hw')) as H.
  rewrite (find_insert_found (idIs chatId) _ index (renamed env newTitle old) Hfind Hid)
    in H.
  unfold getChatById.
  destruct (List.find (idIs chatId) _) as [c|]; [|contradiction].
  exists c. split; [reflexivity|].
  pose proof H as (Hcid & Hctitle & _).
  split; [|split; [|exact H]].
  - rewrite Hcid. simpl. apply String.eqb_eq. exact Hid.
  - rewrite Hctitle. reflexivity.
Qed.

End StoreSequences.

(** ** Titles and snippets *)

Lemma string_length_append (a b : string) :
  String.length (a ++ b) = (String.length a + String.length b)%nat.
Proof.
  induction a as [|c a IH]; [reflexivity|].
  change (S (String.length (a ++ b)) = S (String.length a + String.length b)).
  rewrite IH. reflexivity.
Qed.

Lemma substring_prefix_length n (s : string) :
  String.length (substring 0 n s) = Nat.min n (String.length s).
Proof.
  revert s. induction n as [|n IH]; intros [|c s]; simpl; try reflexivity.
  rewrite IH. reflexivity.
Qed.

Lemma substring_prefix_all n (s : string) :
  (String.length s <= n)%nat -> substring 0 n s = s.
Proof.
  revert s. induction n as [|n IH]; intros [|c s]; simpl; intros H;
    try reflexivity; try lia.
  rewrite IH by lia. reflexivity.
Qed.

Lemma string_append_empty (s : string) : (s ++ "")%string = s.
Proof.
  induction s as [|c s IH]; [reflexivity|].
  change (String c (s ++ "") = String c s). rewrite IH. reflexivity.
Qed.

Lemma ellipsize_length n text :
  (String.length (ellipsize n text) <= n + 3)%nat.
Proof.
  unfold ellipsize. rewrite string_length_append, substring_prefix_length.
  destruct (n <? String.length text)%nat; simpl; lia.
Qed.

Lemma ellipsize_short n text :
  (String.length text <= n)%nat -> ellipsize n text = text.
Proof.
  intros H. unfold ellipsize. rewrite substring_prefix_all by assumption.
  apply Nat.ltb_ge in H. rewrite H. apply string_append_empty.
Qed.

Lemma ellipsize_long n text :
  (n < String.length text)%nat ->
  ellipsize n text = (substring 0 n text ++ "...")%string
  /\ String.length (ellipsize n text) = (n + 3)%nat.
Proof.
  intros H. unfold ellipsize. pose proof H as Hb. apply Nat.ltb_lt in Hb. rewrite Hb.
  split; [reflexivity|].
  rewrite string_length_append, substring_prefix_length. simpl. lia.
Qed.

Lemma filter_head_find {A} (p : A -> bool) xs :
  List.find p xs = match List.filter p xs with [] => None | x :: _ => Some x end.
Proof.
  induction xs as [|x xs IH]; [reflexivity|]. simpl.
  destruct (p x); [reflexivity | exact IH].
Qed.

Lemma find_none_existsb {A} (p : A -> bool) xs :
  List.find p xs = None <-> existsb p xs = false.
Proof.
  induction xs as [|x xs IH]; simpl; [tauto|].
  destruct (p x); simpl; [split; discriminate | exact IH].
Qed.

(** The title is the first user message, cut to 50 characters with an
    ellipsis when longer, and ['Untitled Chat'] when there is no user
    message; the snippet is the first assistant message, or else the
    first user message, cut to 70 characters in the same way, and
    ['Empty chat'] when there is neither.  So a title has at most 53
    characters and a snippet at most 73. *)
Theorem title_and_snippet_shape messages :
  (String.length (getChatTitle messages) <= 53)%nat
  /\ (String.length (getChatSnippet messages) <= 73)%nat
  /\ (existsb isUser messages = false -> getChatTitle messages = "Untitled Chat")
  /\ (forall first, List.find isUser messages = Some first ->
        getChatTitle messages = ellipsize 50 (msg_original first)
        /\ ((String.length (msg_original first) <= 50)%nat ->
            getChatTitle messages = msg_original first)
        /\ ((50 < String.length (msg_original first))%nat ->
            getChatTitle messages = (substring 0 50 (msg_original first) ++ "...")%string))
  /\ (forall reply, List.find isAssistant messages = Some reply ->
        getChatSnippet messages = ellipsize 70 (msg_original reply))
  /\ (forall first, List.find isAssistant messages = None ->
        List.find isUser messages = Some first ->
        getChatSnippet messages = ellipsize 70 (msg_original first))
  /\ (existsb isAssistant messages = false -> existsb isUser messages = false ->
      getChatSnippet messages = "Empty chat").
Proof.
  assert (Htitle : forall first, List.find isUser messages = Some first ->
                     getChatTitle messages = ellipsize 50 (msg_original first)).
  { intros first Hf. unfold getChatTitle. rewrite filter_head_find in Hf.
    destruct (List.filter isUser messages); [discriminate|].
    injection Hf as ->. reflexivity. }
  assert (Hnone : existsb isUser messages = false -> getChatTitle messages = "Untitled Chat").
  { intros Hu. apply find_none_existsb in Hu. unfold getChatTitle.
    rewrite filter_head_find in Hu.
    destruct (List.filter isUser messages); [reflexivity | discriminate]. }
  repeat split.
  - destruct (List.find isUser messages) as [first|] eqn:Hf.
    + rewrite (Htitle first eq_refl). apply (ellipsize_length 50).
    + apply find_none_existsb in Hf. rewrite (Hnone Hf). simpl. lia.
  - unfold getChatSnippet.
    destruct (List.find isAssistant messages) as [a|];
      [apply (ellipsize_length 70)|].
    destruct (List.find isUser messages) as [u|];
      [apply (ellipsize_length 70) | simpl; lia].
  - exact Hnone.
  - apply Htitle. assumption.
  - intros Hlen. rewrite (Htitle first) by assumption. apply ellipsize_short. assumption.
  - intros Hlen. rewrite (Htitle first) by assumption. apply ellipsize_long. assumption.
  - intros reply Hr. unfold getChatSnippet. rewrite Hr. reflexivity.
  - intros first Ha Hu. unfold getChatSnippet. rewrite Ha, Hu. reflexivity.
  - intros Ha Hu. apply find_none_existsb in Ha, Hu.
    unfold getChatSnippet. rewrite Ha, Hu. reflexivity.
Qed.

(** The title and the snippet of [shortExchange]. *)
Lemma title_and_snippet_shape_witness :
  getChatTitle shortExchange = "What will the weather be like in Kyoto over the co..."
  /\ getChatSnippet shortExchange = ellipsize 70 "Mild.".
Proof.
  split.
  - refine (proj2 (proj2 (proj1 (proj2 (proj2 (proj2 (title_and_snippet_shape shortExchange))))
                            longQuestion eq_refl)) _).
    vm_compute. lia.
  - exact (proj1 (proj2 (proj2 (proj2 (proj2 (title_and_snippet_shape shortExchange)))))
             (reply "2" "Mild.") eq_refl).
Defined.

Lemma findIndex_insert_same {A} (p : A -> bool) xs i y :
  findIndex p xs = Some i -> p y = true -> findIndex p (<[ i := y ]> xs) = Some i.
Proof.
  revert i. induction xs as [|x xs IH]; intros i; simpl; [discriminate|].
  destruct (p x) eqn:Hp.
  - intros [= <-] Hy. simpl. rewrite Hy. reflexivity.
  - destruct (findIndex p xs) as [k|] eqn:Hk; simpl; [|discriminate].
    intros [= <-] Hy. simpl. rewrite Hp, (IH k eq_refl Hy). reflexivity.
Qed.

Lemma Forall2_sameChat_length xs ys : Forall2 sameChat xs ys -> length ys = length xs.
Proof. induction 1; simpl; congruence. Qed.

Section StoreSequencesMore.
Context {dates : DateApi} {json : JsonApi}.

(** The list a successful save returns holds a conversation with the
    computed title, and [findIndex] finds it. *)
Lemma autoSaveChat_saved_index env slot messages :
  hasWindow env = true -> setItemOk env = true -> existsb isUser messages = true ->
  exists i c,
    findIndex (titleIs (getChatTitle messages)) (fst (autoSaveChat env slot messages)) = Some i
    /\ fst (autoSaveChat env slot messages) !! i = Some c
    /\ chat_messages c = messages.
Proof.
  intros Hw Hs Hu. rewrite (autoSaveChat_saved env slot messages Hw Hs Hu). simpl.
  set (chats := loadChatsFromStorage env slot).
  set (title := getChatTitle messages).
  destruct (findIndex (titleIs title) chats) as [i|] eqn:Hfind.
  - exists i, (chatRecordFor env (chats !! i) messages).
    assert (Ht : titleIs title (chatRecordFor env (chats !! i) messages) = true)
      by apply String.eqb_refl.
    split; [apply findIndex_insert_same; assumption|].
    split; [|reflexivity].
    destruct (findIndex_Some _ _ _ Hfind) as (old & Hold & _).
    apply list_lookup_insert_eq. eapply lookup_lt_Some; eassumption.
  - exists 0%nat, (chatRecordFor env None messages). simpl.
    unfold titleIs at 1. simpl. unfold title. rewrite String.eqb_refl.
    repeat split.
Qed.

Lemma autoSaveChat_again env1 env2 slot messages1 messages2 :
  hasWindow env1 = true -> setItemOk env1 = true -> existsb isUser messages1 = true ->
  hasWindow env2 = true -> setItemOk env2 = true -> existsb isUser messages2 = true ->
  getChatTitle messages2 = getChatTitle messages1 ->
  let first := autoSaveChat env1 slot messages1 in
  let second := autoSaveChat env2 (snd first) messages2 in
  length (fst second) = length (fst first)
  /\ List.map chat_id (fst second) = List.map chat_id (fst first)
  /\ List.map chat_title (fst second) = List.map chat_title (fst first)
  /\ exists i c,
       findIndex (titleIs (getChatTitle messages1)) (fst first) = Some i
       /\ fst second !! i = Some c
       /\ chat_messages c = messages2
       /\ chat_updatedAt c = DateMs (now env2).
Proof.
  intros Hw1 Hs1 Hu1 Hw2 Hs2 Hu2 Htitle first second.
  destruct (autoSaveChat_saved_index env1 slot messages1 Hw1 Hs1 Hu1) as (i & c1 & Hi & Hc1 & _).
  fold first in Hi, Hc1.
  assert (Hsnd : snd first = Holds (encode (fst first))).
  { unfold first. rewrite (autoSaveChat_saved env1 slot messages1 Hw1 Hs1 Hu1). reflexivity. }
  pose proof (load_written env2 (fst first) Hw2) as Hsame.
  rewrite <- Hsnd in Hsame.
  set (reloaded := loadChatsFromStorage env2 (snd first)) in *.
  assert (Hfind : findIndex (titleIs (getChatTitle messages2)) reloaded = Some i).
  { rewrite Htitle, (sameChat_findIndex_title _ _ _ Hsame). exact Hi. }
  destruct (findIndex_Some _ _ _ Hfind) as (old & Hold & Hp & _).
  assert (Hsecond : fst second
                    = <[ i := chatRecordFor env2 (Some old) messages2 ]> reloaded).
  { unfold second. rewrite (autoSaveChat_saved env2 (snd first) messages2 Hw2 Hs2 Hu2).
    simpl. fold reloaded. rewrite Hfind, Hold. reflexivity. }
  rewrite Hsecond. split; [|split; [|split]].
  - rewrite length_insert. apply Forall2_sameChat_length. assumption.
  - rewrite (insert_map chat_id reloaded i old) by (assumption || reflexivity).
    apply sameChat_ids. assumption.
  - rewrite (insert_map chat_title reloaded i old).
    + apply sameChat_titles. assumption.
    + assumption.
    + simpl. unfold titleIs in Hp. apply String.eqb_eq in Hp. symmetry. exact Hp.
  - exists i, (chatRecordFor env2 (Some old) messages2).
    split; [exact Hi|]. split; [|split; reflexivity].
    apply list_lookup_insert_eq. eapply lookup_lt_Some; eassumption.
Qed.

(** Saving twice under one title keeps one conversation.  After a save
    went through, a second save of any message list with the same
    computed title, made from what the first one wrote, returns a list
    of the same length with the same ids in the same places; the
    conversation of that title now holds the second message list and
    the time of the second save. *)
Theorem autoSaveChat_twice_same_title env1 env2 slot messages1 messages2 :
  hasWindow env1 = true -> setItemOk env1 = true -> existsb isUser messages1 = true ->
  hasWindow env2 = true -> setItemOk env2 = true -> existsb isUser messages2 = true ->
  getChatTitle messages2 = getChatTitle messages1 ->
  let first := autoSaveChat env1 slot messages1 in
  let second := autoSaveChat env2 (snd first) messages2 in
  length (fst second) = length (fst first)
  /\ List.map chat_id (fst second) = List.map chat_id (fst first)
  /\ List.map chat_title (fst second) = List.map chat_title (fst first)
  /\ exists i c,
       findIndex (titleIs (getChatTitle messages1)) (fst first) = Some i
       /\ fst second !! i = Some c
       /\ chat_messages c = messages2
       /\ chat_updatedAt c = DateMs (now env2).
Proof. apply autoSaveChat_again. Qed.

(** Deleting everything leaves an empty store, and the next save starts
    it anew: after a successful [deleteAllChats] the store loads as the
    empty list and no id is found; saving a message list with a user
    message then gives exactly one conversation, holding that list. *)
Theorem deleteAllChats_then_store env env' slot :
  hasWindow env = true -> setItemOk env = true ->
  loadChatsFromStorage env' (deleteAllChats env slot) = []
  /\ (forall chatId, getChatById env' (deleteAllChats env slot) chatId = None)
  /\ (forall messages,
        hasWindow env' = true -> setItemOk env' = true ->
        existsb isUser messages = true ->
        exists c, fst (autoSaveChat env' (deleteAllChats env slot) messages) = [c]
                  /\ chat_messages c = messages
                  /\ chat_title c = getChatTitle messages
                  /\ chat_id c = ("local_" ++ showZ (now env'))%string
                  /\ chat_createdAt c = DateMs (now env')).
Proof.
  intros Hw Hs.
  assert (Hslot : deleteAllChats env slot = Empty).
  { unfold deleteAllChats. rewrite Hw, Hs. reflexivity. }
  rewrite Hslot.
  assert (Hload : loadChatsFromStorage env' Empty = []).
  { unfold loadChatsFromStorage. destruct (hasWindow env'); reflexivity. }
  split; [exact Hload|]. split.
  - intros chatId. unfold getChatById. rewrite Hload. reflexivity.
  - intros messages Hw' Hs' Hu.
    rewrite (autoSaveChat_saved env' Empty messages Hw' Hs' Hu), Hload. simpl.
    eexists. split; [reflexivity|]. repeat split.
Qed.

(** An id no stored record has.  [deleteChat] returns the stored list
    as it is (and, when the write goes through, still rewrites the slot
    with the encoding of that list); [renameChat] returns [null] and
    leaves the slot; [getChatById] returns [null]. *)
Theorem unknown_id_operations env slot chatId :
  forallb (fun c => negb (idIs chatId c)) (loadChatsFromStorage env slot) = true ->
  fst (deleteChat env slot chatId) = loadChatsFromStorage env slot
  /\ snd (deleteChat env slot chatId)
     = (if hasWindow env && setItemOk env
        then Holds (encode (loadChatsFromStorage env slot)) else slot)
  /\ (forall newTitle, renameChat env slot chatId newTitle = (None, slot))
  /\ getChatById env slot chatId = None.
Proof.
  intros Hnone. rewrite deleteChat_result, (filter_all _ _ Hnone).
  split; [|split; [|split]].
  - destruct (hasWindow env && setItemOk env); reflexivity.
  - destruct (hasWindow env && setItemOk env); reflexivity.
  - intros newTitle. rewrite renameChat_result.
    apply findIndex_None in Hnone. rewrite Hnone. reflexivity.
  - unfold getChatById. apply find_none. assumption.
Qed.

End StoreSequencesMore.

(** The store sequences on [sampleStored]. *)
Lemma written_collection_loads_back_witness :
  Forall2 sameChat (fst (autoSaveChat sampleEnv (Holds sampleStored) sampleMessages))
          (loadChatsFromStorage sampleEnv
             (snd (autoSaveChat sampleEnv (Holds sampleStored) sampleMessages))).
Proof.
  exact (proj1 (written_collection_loads_back sampleEnv sampleEnv (Holds sampleStored)
                  eq_refl eq_refl eq_refl) sampleMessages eq_refl).
Defined.

Lemma deleteChat_then_getChatById_witness :
  getChatById sampleEnv
    (snd (deleteChat sampleEnv (Holds sampleStored) "local_1699990000000"))
    "local_1699990000000" = None.
Proof.
  exact (deleteChat_then_getChatById sampleEnv sampleEnv (Holds sampleStored)
           "local_1699990000000" eq_refl eq_refl).
Defined.

Lemma renameChat_then_getChatById_witness :
  exists c,
    getChatById sampleEnv
      (snd (renameChat sampleEnv (Holds sampleStored) "local_1699990000000" "Kyoto trip"))
      "local_1699990000000" = Some c
    /\ chat_title c = "Kyoto trip".
Proof.
  destruct (renameChat_then_getChatById sampleEnv sampleEnv (Holds sampleStored)
              "local_1699990000000" "Kyoto trip" _ _ eq_refl eq_refl)
    as (c & Hget & _ & Htitle & _).
  exists c. split; assumption.
Defined.

Lemma autoSaveChat_twice_same_title_witness :
  let first := autoSaveChat sampleEnv Empty sampleMessages in
  let second := autoSaveChat sampleEnv (snd first)
                  (sampleMessages ++ [reply "1699990000002" "Bring a light jacket."]) in
  length (fst second) = length (fst first)
  /\ length (fst second) = 1%nat.
Proof.
  split; [|vm_compute; reflexivity].
  apply (autoSaveChat_twice_same_title sampleEnv sampleEnv Empty sampleMessages
           (sampleMessages ++ [reply "1699990000002" "Bring a light jacket."]));
    reflexivity.
Defined.

Lemma deleteAllChats_then_store_witness :
  loadChatsFromStorage sampleEnv (deleteAllChats sampleEnv (Holds sampleStored)) = [].
Proof.
  exact (proj1 (deleteAllChats_then_store sampleEnv sampleEnv (Holds sampleStored)
                  eq_refl eq_refl)).
Defined.

Lemma unknown_id_operations_witness :
  fst (deleteChat sampleEnv (Holds sampleStored) "no-such-id")
  = loadChatsFromStorage sampleEnv (Holds sampleStored).
Proof.
  apply (unknown_id_operations sampleEnv (Holds sampleStored) "no-such-id").
  vm_compute. reflexivity.
Defined.

(** ** Translation scheduler: what a run keeps *)

Lemma translatedOnly_refl m : translatedOnly m m.
Proof. unfold translatedOnly. tauto. Qed.

Lemma translatedOnly_trans m1 m2 m3 :
  translatedOnly m1 m2 -> translatedOnly m2 m3 -> translatedOnly m1 m3.
Proof.
  unfold translatedOnly.
  intros (Hi & Ht & Hs & Hw & Hc & Ho) (Hi' & Ht' & Hs' & Hw' & Hc' & Ho').
  repeat split; try congruence.
  destruct Ho as [Ho|Ho]; [|right; exact Ho].
  destruct Ho' as [Ho'|[Hg1 Hg2]]; [left; congruence|].
  right. split; congruence.
Qed.

Lemma Forall2_map_right {A} (R : A -> A -> Prop) (f : A -> A) xs :
  (forall x, R x (f x)) -> Forall2 R xs (List.map f xs).
Proof. intros H. induction xs; simpl; constructor; auto. Qed.

Lemma Forall2_translatedOnly_refl xs : Forall2 translatedOnly xs xs.
Proof. induction xs; constructor; auto using translatedOnly_refl. Qed.

Lemma Forall2_translatedOnly_trans xs ys zs :
  Forall2 translatedOnly xs ys -> Forall2 translatedOnly ys zs ->
  Forall2 translatedOnly xs zs.
Proof.
  intros H. revert zs. induction H as [|x y xs ys Hxy _ IH]; intros zs Hz.
  - inversion Hz. constructor.
  - inversion Hz as [|? z ? zs' Hyz Hrest]; subst. constructor.
    + eapply translatedOnly_trans; eassumption.
    + apply IH. assumption.
Qed.

Lemma withTranslation_translatedOnly l v m : translatedOnly m (withTranslation l v m).
Proof. unfold translatedOnly. simpl. tauto. Qed.

Lemma storeTranslation_translatedOnly id l v prev :
  Forall2 translatedOnly prev (storeTranslation id l v prev).
Proof.
  apply Forall2_map_right. intros m.
  destruct (String.eqb (msg_id m) id);
    [apply withTranslation_translatedOnly | apply translatedOnly_refl].
Qed.

Lemma applyBatch_translatedOnly l batch results prev :
  Forall2 translatedOnly prev (applyBatch l batch results prev).
Proof.
  apply Forall2_map_right. intros m.
  destruct (findIndex _ batch);
    [apply withTranslation_translatedOnly | apply translatedOnly_refl].
Qed.

Lemma refreshGreeting_translatedOnly l g m : translatedOnly m (refreshGreeting l g m).
Proof.
  unfold refreshGreeting.
  destruct (String.eqb (msg_id m) "1" && Role_eqb (msg_type m) system) eqn:Hg;
    [|apply translatedOnly_refl].
  apply andb_prop in Hg as [Hid Hty]. apply String.eqb_eq in Hid.
  unfold translatedOnly. simpl. repeat split. right. split; [exact Hid|].
  destruct (msg_type m); try discriminate. reflexivity.
Qed.

Lemma wake_messages i s : messages (wake i s) = messages s.
Proof.
  unfold wake. destruct (tasks s !! i) as [t|]; [|reflexivity].
  destruct (task_phase t); try reflexivity.
  destruct (MAX_CONCURRENT_TRANSLATIONS <=? translatingCount s); reflexivity.
Qed.

Lemma ensureTranslation_messages m l s : messages (ensureTranslation m l s) = messages s.
Proof.
  unfold ensureTranslation.
  destruct (String.eqb (msg_original m) ""); [reflexivity|].
  destruct (hasTranslation l m); [reflexivity|].
  destruct (bool_decide _); [reflexivity|].
  rewrite wake_messages. reflexivity.
Qed.

Lemma messageEffect_messages m l s : messages (messageEffect m l s) = messages s.
Proof.
  unfold messageEffect.
  destruct (msg_type m); try reflexivity;
    destruct (negb (hasTranslation l m)); try reflexivity;
    apply ensureTranslation_messages.
Qed.

Lemma step_translatedOnly s e : Forall2 translatedOnly (messages s) (messages (step s e)).
Proof.
  destruct e as [m l|m l|i|i r|l g|j r]; simpl.
  - rewrite ensureTranslation_messages. apply Forall2_translatedOnly_refl.
  - rewrite messageEffect_messages. apply Forall2_translatedOnly_refl.
  - rewrite wake_messages. apply Forall2_translatedOnly_refl.
  - unfold translateSettled.
    destruct (tasks s !! i) as [t|]; [|apply Forall2_translatedOnly_refl].
    destruct (task_phase t); try apply Forall2_translatedOnly_refl.
    destruct r; simpl;
      [apply storeTranslation_translatedOnly | apply Forall2_translatedOnly_refl].
  - unfold languageChanged. simpl.
    apply Forall2_map_right. intros m. apply refreshGreeting_translatedOnly.
  - unfold batchSettled.
    destruct (runners s !! j) as [rn|]; [|apply Forall2_translatedOnly_refl].
    destruct (run_remaining rn); [apply Forall2_translatedOnly_refl|].
    destruct r; simpl;
      [apply applyBatch_translatedOnly | apply Forall2_translatedOnly_refl].
Qed.

Lemma run_translatedOnly events s :
  Forall2 translatedOnly (messages s) (messages (run events s)).
Proof.
  revert s. induction events as [|e es IH]; intros s; simpl.
  - apply Forall2_translatedOnly_refl.
  - eapply Forall2_translatedOnly_trans; [apply step_translatedOnly | apply IH].
Qed.

Lemma storeTranslation_originals id l v prev :
  List.map msg_original (storeTranslation id l v prev) = List.map msg_original prev.
Proof.
  unfold storeTranslation. rewrite List.map_map. apply List.map_ext.
  intros m. destruct (String.eqb (msg_id m) id); reflexivity.
Qed.

Lemma step_onDemand_originals s e :
  onDemand e = true ->
  List.map msg_original (messages (step s e)) = List.map msg_original (messages s).
Proof.
  destruct e as [m l|m l|i|i r|l g|j r]; simpl; try discriminate; intros _.
  - rewrite ensureTranslation_messages. reflexivity.
  - rewrite messageEffect_messages. reflexivity.
  - rewrite wake_messages. reflexivity.
  - unfold translateSettled.
    destruct (tasks s !! i) as [t|]; [|reflexivity].
    destruct (task_phase t); try reflexivity.
    destruct r; simpl; [apply storeTranslation_originals | reflexivity].
Qed.

Lemma run_onDemand_originals events s :
  forallb onDemand events = true ->
  List.map msg_original (messages (run events s)) = List.map msg_original (messages s).
Proof.
  revert s. induction events as [|e es IH]; intros s H; [reflexivity|].
  simpl in H. apply andb_prop in H as [He Hes]. simpl.
  rewrite IH by assumption. apply step_onDemand_originals; assumption.
Qed.

(** Translation never touches the conversation itself.  From any state
    and through any sequence of events the message list keeps its
    length and order, and every message keeps its id, type, timestamp,
    weather payload and sources; its original text changes only if it
    is the greeting (system message ['1']), which a language change
    rewrites.  Through the events of the on-demand path no original
    text changes at all. *)
Theorem translation_keeps_messages events s :
  Forall2 translatedOnly (messages s) (messages (run events s))
  /\ length (messages (run events s)) = length (messages s)
  /\ (forallb onDemand events = true ->
      List.map msg_original (messages (run events s))
      = List.map msg_original (messages s)).
Proof.
  split; [apply run_translatedOnly|]. split.
  - symmetry. eapply Forall2_length. apply run_translatedOnly.
  - apply run_onDemand_originals.
Qed.

(** The race of a batch and an on-demand request on [fourReplies]. *)
Lemma translation_keeps_messages_witness :
  Forall2 translatedOnly (messages (initial fourReplies))
          (messages (run raceEvents (initial fourReplies)))
  /\ List.map msg_original (messages (run failedOnce (initial fourReplies)))
     = List.map msg_original (messages (initial fourReplies)).
Proof.
  split.
  - exact (proj1 (translation_keeps_messages raceEvents (initial fourReplies))).
  - exact (proj2 (proj2 (translation_keeps_messages failedOnce (initial fourReplies)))
             eq_refl).
Defined.

(** ** Translation scheduler: marks and pending requests *)

Lemma existsb_insert_new {A} (p : A -> bool) xs i y :
  (i < length xs)%nat -> p y = true -> existsb p (<[ i := y ]> xs) = true.
Proof.
  revert i. induction xs as [|x xs IH]; intros i Hi Hy; simpl in Hi; [lia|].
  destruct i as [|i]; simpl.
  - rewrite Hy. reflexivity.
  - rewrite IH by (assumption || lia). apply orb_true_r.
Qed.

Lemma existsb_insert_keep {A} (p : A -> bool) xs i x y :
  xs !! i = Some x -> p x = false -> existsb p xs = true ->
  existsb p (<[ i := y ]> xs) = true.
Proof.
  revert i. induction xs as [|x0 xs IH]; intros i Hx Hp He; [discriminate|].
  destruct i as [|i]; simpl in Hx, He |- *.
  - injection Hx as ->. rewrite Hp in He. simpl in He. rewrite He. apply orb_true_r.
  - destruct (p x0); [reflexivity|]. simpl in He |- *. eapply IH; eassumption.
Qed.

Lemma initial_marked msgs : marked (initial msgs).
Proof. intros id Hin. simpl in Hin. set_solver. Qed.

Lemma wake_marked i s : marked s -> marked (wake i s).
Proof.
  intros H. unfold wake.
  destruct (tasks s !! i) as [t|] eqn:Ht; [|exact H].
  destruct (task_phase t) eqn:Hph; try exact H.
  destruct (MAX_CONCURRENT_TRANSLATIONS <=? translatingCount s); [exact H|].
  intros id Hin. simpl in Hin |- *.
  destruct (String.eqb (task_id t) id) eqn:Hid.
  - apply existsb_insert_new; [eapply lookup_lt_Some; eassumption|].
    unfold inFlightFor, isInFlight. simpl. exact Hid.
  - apply String.eqb_neq in Hid.
    apply (existsb_insert_keep _ _ _ t); [assumption| |].
    + unfold inFlightFor, isInFlight. rewrite Hph. reflexivity.
    + apply H. apply elem_of_union in Hin as [Hnew|Hold]; [|exact Hold].
      apply elem_of_singleton in Hnew. congruence.
Qed.

Lemma ensureTranslation_marked m l s : marked s -> marked (ensureTranslation m l s).
Proof.
  intros H. unfold ensureTranslation.
  destruct (String.eqb (msg_original m) ""); [exact H|].
  destruct (hasTranslation l m); [exact H|].
  destruct (bool_decide _); [exact H|].
  apply wake_marked. intros id Hin. simpl in Hin |- *.
  rewrite existsb_app, (H id Hin). reflexivity.
Qed.

Lemma translateSettled_marked i r s : marked s -> marked (translateSettled i r s).
Proof.
  intros H. unfold translateSettled.
  destruct (tasks s !! i) as [t|] eqn:Ht; [|exact H].
  destruct (task_phase t) eqn:Hph; try exact H.
  intros id Hin. simpl in Hin |- *.
  apply elem_of_difference in Hin as [Hold Hne].
  apply (existsb_insert_keep _ _ _ t); [assumption| |apply H; assumption].
  unfold inFlightFor. destruct (String.eqb (task_id t) id) eqn:Hid.
  - apply String.eqb_eq in Hid. set_solver.
  - apply andb_false_r.
Qed.

Lemma step_marked s e : marked s -> marked (step s e).
Proof.
  intros H. destruct e as [m l|m l|i|i r|l g|j r]; simpl.
  - apply ensureTranslation_marked, H.
  - unfold messageEffect.
    destruct (msg_type m); try exact H;
      destruct (negb (hasTranslation l m)); try exact H;
      apply ensureTranslation_marked, H.
  - apply wake_marked, H.
  - apply translateSettled_marked, H.
  - exact H.
  - unfold batchSettled. destruct (runners s !! j) as [rn|]; [|exact H].
    destruct (run_remaining rn); exact H.
Qed.

Lemma run_marked events s : marked s -> marked (run events s).
Proof.
  revert s. induction events as [|e es IH]; intros s H; [exact H|].
  simpl. apply IH, step_marked, H.
Qed.

Lemma existsb_inFlightFor id ts :
  existsb (inFlightFor id) ts = true ->
  In id (List.map task_id (List.filter isInFlight ts)).
Proof.
  intros H. apply existsb_exists in H as (t & Hin & Hp).
  unfold inFlightFor in Hp. apply andb_prop in Hp as [Hfl Hid].
  apply String.eqb_eq in Hid. subst id.
  apply in_map, filter_In. split; assumption.
Qed.

(** No message is left marked as being translated.  From the initial
    state of the page, after any sequence of events: every id in
    [translatingRef] is the id of a task whose request is pending; so
    once no on-demand request is pending the set is empty and the
    counter is zero. *)
Theorem marked_ids_have_pending_requests msgs events :
  let s := run events (initial msgs) in
  translating s ⊆ list_to_set (List.map task_id (List.filter isInFlight (tasks s)))
  /\ (pendingTranslateCalls s = 0%nat ->
      translating s = ∅ /\ translatingCount s = 0).
Proof.
  intros s.
  pose proof (run_marked events (initial msgs) (initial_marked msgs)) as Hm.
  destruct (run_counted events (initial msgs) (initial_counted msgs)) as [Hc _].
  fold s in Hm, Hc.
  assert (Hsub : translating s
                 ⊆ list_to_set (List.map task_id (List.filter isInFlight (tasks s)))).
  { intros id Hin. apply elem_of_list_to_set, list_elem_of_In, existsb_inFlightFor, Hm, Hin. }
  split; [exact Hsub|].
  intros Hzero. split; [|lia].
  unfold pendingTranslateCalls in Hzero.
  destruct (List.filter isInFlight (tasks s)); [|discriminate].
  simpl in Hsub. apply leibniz_equiv. set_solver.
Qed.

(** After the failed request of [failedOnce] nothing is marked. *)
Lemma marked_ids_have_pending_requests_witness :
  translating (run failedOnce (initial fourReplies)) = ∅
  /\ translatingCount (run failedOnce (initial fourReplies)) = 0.
Proof.
  exact (proj2 (marked_ids_have_pending_requests fourReplies failedOnce) eq_refl).
Defined.

(** A request that can go out does go out.  In any state reached from
    the initial one, when fewer than three on-demand requests are
    pending and none of them is for the message, [ensureTranslation]
    for a message with a text and no cached translation issues its
    request before it returns: one more request is pending and the
    message is marked.  In particular a message whose request failed is
    requested again the next time it asks. *)
Theorem ensureTranslation_issues_request msgs events m l :
  let s := run events (initial msgs) in
  String.eqb (msg_original m) "" = false ->
  hasTranslation l m = false ->
  (pendingTranslateCalls s < 3)%nat ->
  existsb (inFlightFor (msg_id m)) (tasks s) = false ->
  let s' := ensureTranslation m l s in
  calls s' = (calls s ++ [TranslateCall (msg_id m) (msg_original m) l])%list
  /\ pendingTranslateCalls s' = S (pendingTranslateCalls s)
  /\ msg_id m ∈ translating s'
  /\ messages s' = messages s.
Proof.
  intros s Ho Hc Hfree Hnone s'.
  pose proof (run_marked events (initial msgs) (initial_marked msgs)) as Hm.
  pose proof (run_counted events (initial msgs) (initial_counted msgs)) as Hcnt.
  fold s in Hm, Hcnt.
  assert (Hnot : msg_id m ∉ translating s).
  { intros Hin. apply Hm in Hin. congruence. }
  assert (Hlt : translatingCount s < MAX_CONCURRENT_TRANSLATIONS).
  { destruct Hcnt as [Hc1 _]. unfold MAX_CONCURRENT_TRANSLATIONS. lia. }
  apply String.eqb_neq in Ho.
  destruct (ensureTranslation_starts m l s Ho Hc Hnot Hlt) as [Hcalls Hmark].
  fold s' in Hcalls, Hmark.
  assert (Hcount : translatingCount s' = translatingCount s + 1).
  { unfold s', ensureTranslation. apply String.eqb_neq in Ho. rewrite Ho, Hc.
    rewrite bool_decide_eq_false_2 by assumption.
    unfold wake. simpl tasks. rewrite lookup_snoc. simpl task_phase.
    simpl translatingCount. apply Z.leb_gt in Hlt. rewrite Hlt. reflexivity. }
  pose proof (ensureTranslation_counted m l s Hcnt) as [Hc' _]. fold s' in Hc'.
  destruct Hcnt as [Hc1 _].
  split; [exact Hcalls|]. split; [lia|]. split; [exact Hmark|].
  apply ensureTranslation_messages.
Qed.

(** The first reply is requested again after its request failed. *)
Lemma ensureTranslation_issues_request_witness :
  calls (ensureTranslation (reply "a" "Sunny") "ja-JP"
           (run failedOnce (initial fourReplies)))
  = [TranslateCall "a" "Sunny" "ja-JP"; TranslateCall "a" "Sunny" "ja-JP"].
Proof.
  refine (proj1 (ensureTranslation_issues_request fourReplies failedOnce
                   (reply "a" "Sunny") "ja-JP" eq_refl eq_refl _ eq_refl)).
  vm_compute. lia.
Defined.

(** ** From the translation service to the screen *)

Lemma hasTranslation_withTranslation l v m :
  hasTranslation l (withTranslation l v m) = truthy v.
Proof. unfold hasTranslation. simpl. rewrite lookupProp_setProp_eq. reflexivity. Qed.

Lemma getMessageText_withTranslation l v m :
  getMessageText l (withTranslation l v m)
  = if nullish v then VStr (msg_original m) else v.
Proof.
  unfold getMessageText. rewrite translationEntry_withTranslation.
  unfold coalesce. destruct (nullish v) eqn:Hv; simpl; [reflexivity|].
  rewrite Hv. reflexivity.
Qed.

Lemma orElse_string v : orElse v (VStr "") = VStr "" \/ truthy (orElse v (VStr "")) = true.
Proof. unfold orElse. destruct (truthy v) eqn:Hv; [right; exact Hv | left; reflexivity]. Qed.




Section ApiArrays.
Context {json : JsonApi}.

(** When the service answers with an array, [batchTranslate] returns
    that array, each element converted with [String], whatever the
    number of texts sent, provided [String] takes every element: the
    array is either the whole [text] of the response or, when the text
    is not JSON, the span from its first opening to its last closing
    bracket.  The result has the length of the service's array, not of
    the input.  When [String] refuses an element of the array (an
    object with a [toString] entry) the [catch] blocks swallow the
    error, and the input texts are returned if the bracket span gives
    no better. *)
Theorem batchTranslate_array_response texts targetLanguage resp data txt arr :
  texts <> [] ->
  ok resp = true -> body resp = Some data -> nullish data = false ->
  field data "text" = VStr txt ->
  (JSON_parse txt = Some (VArr arr)
   \/ (JSON_parse txt = None
       /\ exists span, bracketSpan txt = Some span /\ JSON_parse span = Some (VArr arr))) ->
  (forall translated,
      mapString arr = Ok translated ->
      settle (batchTranslate texts targetLanguage) resp = Ok translated
      /\ length translated = length arr)
  /\ (forall e,
        mapString arr = Throw e ->
        (forall span, bracketSpan txt = Some span -> noStrings span) ->
        settle (batchTranslate texts targetLanguage) resp = Ok texts).
Proof.
  intros Hne Hok Hbody Hdata Htext Harr.
  assert (Hsettle : settle (batchTranslate texts targetLanguage) resp
                    = let* extracted := batchExtract data in
                      match extracted with
                      | Some translated => Ok translated
                      | None => Ok texts
                      end).
  { destruct texts as [|t ts]; [contradiction|].
    simpl settle. unfold batchTranslateResume, responseJson.
    rewrite Hok, Hbody. cbn [negb bind]. rewrite map_id_eq. reflexivity. }
  assert (Htruthy : JSON_parse txt = None -> forall span, bracketSpan txt = Some span ->
                    orElse (VStr txt) (VStr "") = VStr txt).
  { intros _ span Hspan. unfold orElse. destruct (truthy (VStr txt)) eqn:Htr; [reflexivity|].
    simpl in Htr. apply negb_false_iff, String.eqb_eq in Htr. subst txt. reflexivity. }
  rewrite Hsettle. unfold batchExtract, batchRecover, jsonParse.
  rewrite !getProp_ok by assumption. rewrite Htext. cbn [bind toString].
  split.
  - intros translated Hmap. split.
    + destruct Harr as [Hp | (Hp & span & Hspan & Hparse)]; rewrite Hp; cbn [bind].
      * rewrite Hmap. reflexivity.
      * rewrite (Htruthy Hp span Hspan), Hspan, Hparse, Hmap. reflexivity.
    + unfold mapString in Hmap. apply mapR_ok_Forall2 in Hmap.
      symmetry. eapply Forall2_length. exact Hmap.
  - intros e Hmap Hspans.
    assert (Hrecover : match orElse (VStr txt) (VStr "") with
                       | VStr txt0 =>
                           match bracketSpan txt0 with
                           | Some span =>
                               match JSON_parse span with
                               | Some (VArr arr0) =>
                                   match mapString arr0 with
                                   | Ok translated => Ok (Some translated)
                                   | Throw _ => Ok None
                                   end
                               | _ => Ok None
                               end
                           | None => Ok None
                           end
                       | _ => Throw TypeError
                       end = Ok None).
    { unfold orElse. destruct (truthy (VStr txt)) eqn:Htr.
      - destruct (bracketSpan txt) as [span|] eqn:Hspan; [|reflexivity].
        destruct (JSON_parse span) as [[ | | | | | | arr0 | ]|] eqn:Hinner; try reflexivity.
        destruct (Hspans span eq_refl arr0 Hinner) as [e' ->]. reflexivity.
      - reflexivity. }
    destruct Harr as [Hp | (Hp & span & Hspan & Hparse)]; rewrite Hp; cbn [bind].
    + rewrite Hmap. cbn [bind]. rewrite Hrecover. reflexivity.
    + rewrite Hrecover. reflexivity.
Qed.

End ApiArrays.

(** Two texts sent, one translation returned, inside a sentence; and an
    array whose element [String] refuses. *)
Lemma batchTranslate_array_response_witness :
  settle (batchTranslate ["Sunny"; "Windy"] "ja-JP")
         (textResponse "Here you are: [7] and nothing else")
  = Ok ["7"]
  /\ settle (batchTranslate ["Sunny"; "Windy"] "ja-JP")
            (textResponse ("[{" ++ quoted "toString" ++ ":1}]"))
     = Ok ["Sunny"; "Windy"].
Proof.
  split; [|vm_compute; reflexivity].
  refine (proj1 (proj1 (batchTranslate_array_response ["Sunny"; "Windy"] "ja-JP"
                   (textResponse "Here you are: [7] and nothing else")
                   (VObj [("text", VStr "Here you are: [7] and nothing else")])
                   "Here you are: [7] and nothing else" [VNum 7]
                   _ eq_refl eq_refl eq_refl eq_refl _) ["7"] eq_refl)).
  - discriminate.
  - right. split; [vm_compute; reflexivity|].
    exists "[7]". split; vm_compute; reflexivity.
Defined.

(** A response shorter than its batch.  A message whose id is found at
    a position of the batch that the result array does not reach gets
    the entry [undefined] for the language, whatever entry it had: it
    is displayed in its original text and does not count as translated. *)
Theorem short_batch_response language batch results prev k m idx :
  prev !! k = Some m ->
  findIndex (fun b => String.eqb (msg_id b) (msg_id m)) batch = Some idx ->
  (length results <= idx)%nat ->
  exists m',
    applyBatch language batch results prev !! k = Some m'
    /\ translationEntry language m' = VUndef
    /\ getMessageText language m' = VStr (msg_original m)
    /\ hasTranslation language m' = false
    /\ msg_id m' = msg_id m /\ msg_original m' = msg_original m.
Proof.
  intros Hm Hidx Hshort.
  assert (Hres : resultAt results idx = VUndef).
  { unfold resultAt. rewrite (proj2 (lookup_ge_None results idx)) by lia. reflexivity. }
  exists (withTranslation language VUndef m).
  split; [|split; [|split; [|split; [|split]]]].
  - unfold applyBatch. rewrite map_lookup, Hm. simpl. rewrite Hidx, Hres. reflexivity.
  - apply translationEntry_withTranslation.
  - rewrite getMessageText_withTranslation. reflexivity.
  - rewrite hasTranslation_withTranslation. reflexivity.
  - reflexivity.
  - reflexivity.
Qed.

(** One result for the batch of [fiveReplies] (the greeting and the
    five replies): the second reply stays in English. *)
Lemma short_batch_response_witness :
  exists m',
    applyBatch "ja-JP" (toTranslate "ja-JP" fiveReplies) ["晴れ"] fiveReplies !! 3%nat
    = Some m'
    /\ getMessageText "ja-JP" m' = VStr "Windy".
Proof.
  destruct (short_batch_response "ja-JP" (toTranslate "ja-JP" fiveReplies) ["晴れ"]
              fiveReplies 3 (reply "12" "Windy") 2 eq_refl eq_refl)
    as (m' & Hm' & _ & Htext & _); [simpl; lia|].
  exists m'. split; assumption.
Defined.

(** ** Auto-save and translation *)

Lemma translatedOnly_isUser m m' : translatedOnly m m' -> isUser m' = isUser m.
Proof. intros (_ & Ht & _). unfold isUser. rewrite Ht. reflexivity. Qed.

Lemma translatedOnly_isAssistant m m' : translatedOnly m m' -> isAssistant m' = isAssistant m.
Proof. intros (_ & Ht & _). unfold isAssistant. rewrite Ht. reflexivity. Qed.

Lemma translatedOnly_original m m' :
  translatedOnly m m' -> msg_type m <> system -> msg_original m' = msg_original m.
Proof.
  intros (_ & _ & _ & _ & _ & [Ho|[_ Hs]]) Hns; [exact Ho | contradiction].
Qed.

Lemma isUser_not_system m : isUser m = true -> msg_type m <> system.
Proof. unfold isUser. destruct (msg_type m); simpl; congruence. Qed.

Lemma isAssistant_not_system m : isAssistant m = true -> msg_type m <> system.
Proof. unfold isAssistant. destruct (msg_type m); simpl; congruence. Qed.

(** The first message of a role other than [system] keeps its text. *)
Lemma translatedOnly_find (p : ChatMessage -> bool) xs ys :
  (forall m m', translatedOnly m m' -> p m' = p m) ->
  (forall m, p m = true -> msg_type m <> system) ->
  Forall2 translatedOnly xs ys ->
  option_map msg_original (List.find p ys) = option_map msg_original (List.find p xs).
Proof.
  intros Hp Hns H. induction H as [|x y xs ys Hxy _ IH]; [reflexivity|].
  simpl. rewrite (Hp x y Hxy). destruct (p x) eqn:Hpx; [|exact IH].
  simpl. f_equal. apply translatedOnly_original; auto.
Qed.

Lemma getChatTitle_find messages :
  getChatTitle messages
  = match option_map msg_original (List.find isUser messages) with
    | Some text => ellipsize 50 text
    | None => "Untitled Chat"
    end.
Proof.
  unfold getChatTitle. induction messages as [|m ms IH]; [reflexivity|].
  simpl. destruct (isUser m); [reflexivity | exact IH].
Qed.

Lemma getChatSnippet_find messages :
  getChatSnippet messages
  = match option_map msg_original (List.find isAssistant messages) with
    | Some text => ellipsize 70 text
    | None => match option_map msg_original (List.find isUser messages) with
              | Some text => ellipsize 70 text
              | None => "Empty chat"
              end
    end.
Proof.
  unfold getChatSnippet.
  destruct (List.find isAssistant messages); [reflexivity|].
  destruct (List.find isUser messages); reflexivity.
Qed.

Lemma translatedOnly_existsb_isUser xs ys :
  Forall2 translatedOnly xs ys -> existsb isUser ys = existsb isUser xs.
Proof.
  intros H. induction H as [|x y xs ys Hxy _ IH]; [reflexivity|].
  simpl. rewrite (translatedOnly_isUser x y Hxy), IH. reflexivity.
Qed.

Lemma translatedOnly_title xs ys :
  Forall2 translatedOnly xs ys ->
  getChatTitle ys = getChatTitle xs /\ getChatSnippet ys = getChatSnippet xs.
Proof.
  intros H. rewrite !getChatTitle_find, !getChatSnippet_find.
  rewrite (translatedOnly_find isUser xs ys translatedOnly_isUser isUser_not_system H).
  rewrite (translatedOnly_find isAssistant xs ys translatedOnly_isAssistant
             isAssistant_not_system H).
  split; reflexivity.
Qed.

Section AutoSave.
Context {dates : DateApi} {json : JsonApi}.

(** Translations do not multiply conversations.  The page saves the
    conversation whenever its message list changes, and the store finds
    the conversation by the title computed from the messages.  Whatever
    the translation code does to the list in between (any sequence of
    events from any state), the title and the snippet computed from it
    stay the same, so the save that follows writes to the conversation
    the earlier save wrote: the stored list keeps its length and its
    ids, and that conversation now holds the translated messages. *)
Theorem autosave_after_translation env1 env2 slot s events :
  hasWindow env1 = true -> setItemOk env1 = true ->
  hasWindow env2 = true -> setItemOk env2 = true ->
  (1 < length (messages s))%nat -> existsb isUser (messages s) = true ->
  let s' := run events s in
  getChatTitle (messages s') = getChatTitle (messages s)
  /\ getChatSnippet (messages s') = getChatSnippet (messages s)
  /\ exists saved1 slot1 saved2 slot2,
       autoSaveEffect env1 slot (messages s) = (Some saved1, slot1)
       /\ autoSaveEffect env2 slot1 (messages s') = (Some saved2, slot2)
       /\ length saved2 = length saved1
       /\ List.map chat_id saved2 = List.map chat_id saved1
       /\ exists i c,
            findIndex (titleIs (getChatTitle (messages s))) saved1 = Some i
            /\ saved2 !! i = Some c
            /\ chat_messages c = messages s'.
Proof.
  intros Hw1 Hs1 Hw2 Hs2 Hlen Hu s'.
  pose proof (run_translatedOnly events s) as Hkept. fold s' in Hkept.
  destruct (translatedOnly_title _ _ Hkept) as [Htitle Hsnippet].
  pose proof (translatedOnly_existsb_isUser _ _ Hkept) as Hu'. rewrite Hu in Hu'.
  assert (Hlen' : (1 < length (messages s'))%nat).
  { rewrite <- (Forall2_length _ _ _ Hkept). exact Hlen. }
  split; [exact Htitle|]. split; [exact Hsnippet|].
  destruct (autoSaveChat_again env1 env2 slot (messages s) (messages s')
              Hw1 Hs1 Hu Hw2 Hs2 Hu' Htitle)
    as (Hl & Hids & _ & i & c & Hi & Hc & Hmsgs & _).
  exists (fst (autoSaveChat env1 slot (messages s))),
         (snd (autoSaveChat env1 slot (messages s))),
         (fst (autoSaveChat env2 (snd (autoSaveChat env1 slot (messages s))) (messages s'))),
         (snd (autoSaveChat env2 (snd (autoSaveChat env1 slot (messages s))) (messages s'))).
  unfold autoSaveEffect.
  apply Nat.ltb_lt in Hlen, Hlen'. rewrite Hlen, Hlen', Hu, Hu'.
  split; [reflexivity|]. split; [reflexivity|].
  split; [exact Hl|]. split; [exact Hids|].
  exists i, c. repeat split; assumption.
Qed.

End AutoSave.

(** [oneExchange] is saved, its reply is translated, and it is saved
    again: one conversation. *)
Lemma autosave_after_translation_witness :
  getChatTitle (messages (run replyTranslated (initial oneExchange)))
  = getChatTitle oneExchange
  /\ fst (autoSaveEffect sampleEnv
            (snd (autoSaveEffect sampleEnv Empty oneExchange))
            (messages (run replyTranslated (initial oneExchange))))
     = Some [chatRecordFor sampleEnv
               (Some (chatRecordFor sampleEnv None oneExchange))
               (messages (run replyTranslated (initial oneExchange)))].
Proof.
  split; [|vm_compute; reflexivity].
  refine (proj1 (autosave_after_translation sampleEnv sampleEnv Empty
                   (initial oneExchange) replyTranslated
                   eq_refl eq_refl eq_refl eq_refl _ eq_refl)).
  simpl. lia.
Defined.

(** ** Escaping of assistant text *)

Lemma append_cons a (s t : string) : (String a s ++ t)%string = String a (s ++ t)%string.
Proof. reflexivity. Qed.

Lemma append_nil (t : string) : ("" ++ t)%string = t.
Proof. reflexivity. Qed.

Lemma append_assoc (a b c : string) : ((a ++ b) ++ c)%string = (a ++ (b ++ c))%string.
Proof.
  induction a as [|x a IH]; [reflexivity|].
  rewrite !append_cons, IH. reflexivity.
Qed.

Lemma replaceAll_app c r (a b : string) :
  replaceAll c r (a ++ b)%string = (replaceAll c r a ++ replaceAll c r b)%string.
Proof.
  induction a as [|x a IH]; [reflexivity|].
  rewrite append_cons. simpl. destruct (Ascii.eqb x c).
  - rewrite IH, append_assoc. reflexivity.
  - rewrite IH, append_cons. reflexivity.
Qed.

Lemma escapeHtml_app (a b : string) :
  escapeHtml (a ++ b)%string = (escapeHtml a ++ escapeHtml b)%string.
Proof. unfold escapeHtml. rewrite !replaceAll_app. reflexivity. Qed.

Lemma escapeHtml_char a : escapeHtml (String a "") = escapeChar a.
Proof.
  destruct a as [[] [] [] [] [] [] [] []]; reflexivity.
Qed.

Lemma escapeHtml_cons a s :
  escapeHtml (String a s) = (escapeChar a ++ escapeHtml s)%string.
Proof.
  change (String a s) with (String a "" ++ s)%string.
  rewrite escapeHtml_app, escapeHtml_char. reflexivity.
Qed.

Lemma escapeHtml_escapeEach s : escapeHtml s = escapeEach s.
Proof.
  induction s as [|a s IH]; [reflexivity|].
  rewrite escapeHtml_cons, IH. reflexivity.
Qed.

Lemma anyChar_app p (a b : string) :
  anyChar p (a ++ b)%string = anyChar p a || anyChar p b.
Proof.
  induction a as [|x a IH]; [reflexivity|].
  rewrite append_cons. simpl. rewrite IH, orb_assoc. reflexivity.
Qed.

Lemma escapeChar_no_markup a : anyChar isMarkup (escapeChar a) = false.
Proof.
  destruct a as [[] [] [] [] [] [] [] []]; reflexivity.
Qed.

Lemma escapeChar_plain a : isMarkup a = false -> Ascii.eqb a "&" = false ->
  escapeChar a = String a "".
Proof.
  unfold isMarkup, escapeChar. intros Hm Ha. rewrite Ha.
  apply orb_false_elim in Hm as [Hm H4]. apply orb_false_elim in Hm as [Hm H3].
  apply orb_false_elim in Hm as [H1 H2]. rewrite H1, H2, H3, H4. reflexivity.
Qed.

(** The escaped text carries no markup of its own.  [escapeHtml] gives
    the same result as a single pass that replaces the five characters
    one by one (the ampersands of the entities it writes are not
    escaped again); its result holds no [<], [>], double or single
    quote; it distributes over concatenation; and a text without any of
    the five characters is returned as it is. *)
Theorem escapeHtml_no_markup s :
  escapeHtml s = escapeEach s
  /\ anyChar isMarkup (escapeHtml s) = false
  /\ (forall s', escapeHtml (s ++ s')%string = (escapeHtml s ++ escapeHtml s')%string)
  /\ (anyChar (fun a => isMarkup a || Ascii.eqb a "&") s = false -> escapeHtml s = s).
Proof.
  split; [apply escapeHtml_escapeEach|]. split; [|split].
  - induction s as [|a s IH]; [reflexivity|].
    rewrite escapeHtml_cons, anyChar_app, escapeChar_no_markup, IH. reflexivity.
  - intros s'. apply escapeHtml_app.
  - induction s as [|a s IH]; [reflexivity|].
    simpl. intros H. apply orb_false_elim in H as [Ha Hs].
    apply orb_false_elim in Ha as [Hm Hamp].
    rewrite escapeHtml_cons, (escapeChar_plain a Hm Hamp), (IH Hs). reflexivity.
Qed.

(** A script tag and a plain sentence. *)
Lemma escapeHtml_no_markup_witness :
  escapeHtml "<script>alert('x')</script> & more"
  = "&lt;script&gt;alert(&#39;x&#39;)&lt;/script&gt; &amp; more"
  /\ escapeHtml "Sunny, 23 degrees" = "Sunny, 23 degrees".
Proof.
  split; [vm_compute; reflexivity|].
  exact (proj2 (proj2 (proj2 (escapeHtml_no_markup "Sunny, 23 degrees"))) eq_refl).
Defined.

Lemma escapeChar_cases a :
  (a = "&"%char /\ escapeChar a = "&amp;")
  \/ (a = "<"%char /\ escapeChar a = "&lt;")
  \/ (a = ">"%char /\ escapeChar a = "&gt;")
  \/ (a = doubleQuote /\ escapeChar a = "&quot;")
  \/ (a = "'"%char /\ escapeChar a = "&#39;")
  \/ (a <> "&"%char /\ escapeChar a = String a "").
Proof.
  unfold escapeChar.
  destruct (Ascii.eqb a "&") eqn:H1; [apply Ascii.eqb_eq in H1; auto|].
  destruct (Ascii.eqb a "<") eqn:H2; [apply Ascii.eqb_eq in H2; auto|].
  destruct (Ascii.eqb a ">") eqn:H3; [apply Ascii.eqb_eq in H3; auto|].
  destruct (Ascii.eqb a doubleQuote) eqn:H4; [apply Ascii.eqb_eq in H4; auto 6|].
  destruct (Ascii.eqb a "'") eqn:H5; [apply Ascii.eqb_eq in H5; auto 7|].
  apply Ascii.eqb_neq in H1. auto 8.
Qed.

Lemma escapeEach_injective a b : escapeEach a = escapeEach b -> a = b.
Proof.
  revert b. induction a as [|x a IH]; intros [|y b] H.
  - reflexivity.
  - exfalso. simpl in H.
    destruct (escapeChar_cases y) as [[_ E]|[[_ E]|[[_ E]|[[_ E]|[[_ E]|[_ E]]]]]];
      rewrite E in H; discriminate H.
  - exfalso. simpl in H.
    destruct (escapeChar_cases x) as [[_ E]|[[_ E]|[[_ E]|[[_ E]|[[_ E]|[_ E]]]]]];
      rewrite E in H; discriminate H.
  - simpl in H.
    destruct (escapeChar_cases x) as [[Hx E]|[[Hx E]|[[Hx E]|[[Hx E]|[[Hx E]|[Hx E]]]]]];
      destruct (escapeChar_cases y) as [[Hy E']|[[Hy E']|[[Hy E']|[[Hy E']|[[Hy E']|[Hy E']]]]]];
      rewrite E, E' in H; rewrite ?append_cons, ?append_nil in H;
      try discriminate H;
      try (injection H as H; rewrite (IH b H); congruence);
      try (injection H as Hc H; first [ congruence | rewrite (IH b H); congruence ]).
Qed.

(** Escaping loses nothing: two texts with the same escape are the same
    text. *)
Theorem escapeHtml_injective a b : escapeHtml a = escapeHtml b -> a = b.
Proof. rewrite !escapeHtml_escapeEach. apply escapeEach_injective. Qed.

(** The text [&lt;] and the character it stands for have different
    escapes; equal escapes come from equal texts. *)
Lemma escapeHtml_injective_witness :
  escapeHtml "&lt;" = "&amp;lt;" /\ escapeHtml "<" = "&lt;"
  /\ "a < b" = String "a" " < b".
Proof.
  split; [vm_compute; reflexivity|]. split; [vm_compute; reflexivity|].
  apply (escapeHtml_injective "a < b" (String "a" " < b")). reflexivity.
Defined.

(** ** Renaming from the sidebar *)

Lemma map_if_absent {A} (p : A -> bool) (f : A -> A) xs :
  forallb (fun x => negb (p x)) xs = true ->
  List.map (fun x => if p x then f x else x) xs = xs.
Proof.
  induction xs as [|x xs IH]; [reflexivity|].
  simpl. intros H. apply andb_prop in H as [Hx Hxs].
  apply negb_true_iff in Hx. rewrite Hx, (IH Hxs). reflexivity.
Qed.

(** With distinct ids, replacing every record of an id is replacing the
    first. *)
Lemma map_if_first_id chatId (f : ChatRecord -> ChatRecord) chats i :
  NoDup (List.map chat_id chats) ->
  findIndex (idIs chatId) chats = Some i ->
  List.map (fun c => if idIs chatId c then f c else c) chats
  = match chats !! i with
    | Some c => <[ i := f c ]> chats
    | None => chats
    end.
Proof.
  revert i. induction chats as [|c cs IH]; intros i Hnd Hi; [discriminate|].
  simpl in Hnd. apply NoDup_cons in Hnd as [Hnotin Hnd].
  simpl in Hi |- *. destruct (idIs chatId c) eqn:Hc.
  - injection Hi as <-. simpl. f_equal. apply map_if_absent.
    apply forallb_forall. intros x Hx. apply negb_true_iff.
    destruct (idIs chatId x) eqn:Hxid; [|reflexivity].
    exfalso. apply Hnotin. unfold idIs in Hc, Hxid.
    apply String.eqb_eq in Hc, Hxid. rewrite Hc, <- Hxid.
    apply list_elem_of_In, in_map. exact Hx.
  - destruct (findIndex (idIs chatId) cs) as [k|] eqn:Hk; [|discriminate].
    injection Hi as <-. simpl. rewrite (IH k Hnd eq_refl).
    destruct (cs !! k); reflexivity.
Qed.

Section SidebarRename.
Context {dates : DateApi} {json : JsonApi} {strings : StringApi}.

(** The sidebar renames as the store does.  With a name that is not
    blank, the sidebar showing what the store holds, and the stored ids
    distinct, [handleRenameSave] leaves the sidebar with the list that
    [renameChat] would have written for the trimmed name and writes
    that list to the store; when no record has the id the list is
    unchanged (the sidebar still writes it back, where [renameChat]
    writes nothing).  A blank name changes neither the list nor the
    store.  Either way the rename box is closed. *)
Theorem handleRenameSave_matches_renameChat env slot sb chatId :
  hasWindow env = true -> setItemOk env = true ->
  side_chats sb = loadChatsFromStorage env slot ->
  NoDup (List.map chat_id (side_chats sb)) ->
  exists sb' slot',
    handleRenameSave env slot sb chatId = Ok (sb', slot')
    /\ renamingChatId sb' = None /\ renameText sb' = ""
    /\ if String.eqb (trim (renameText sb)) ""
       then side_chats sb' = side_chats sb /\ slot' = slot
       else
         slot' = Holds (encode (side_chats sb'))
         /\ match findIndex (idIs chatId) (side_chats sb) with
            | Some index =>
                side_chats sb' = renameUpdated env (trim (renameText sb)) index (side_chats sb)
                /\ renameChat env slot chatId (trim (renameText sb))
                   = (side_chats sb' !! index, slot')
            | None =>
                side_chats sb' = side_chats sb
                /\ renameChat env slot chatId (trim (renameText sb)) = (None, slot)
            end.
Proof.
  intros Hw Hs Hsync Hnd. unfold handleRenameSave. rewrite Hw, Hs.
  destruct (String.eqb (trim (renameText sb)) "") eqn:Hblank; simpl.
  - eexists _, _. split; [reflexivity|]. simpl. repeat split.
  - eexists _, _. split; [reflexivity|]. simpl.
    split; [reflexivity|]. split; [reflexivity|]. split; [reflexivity|].
    rewrite renameChat_result, <- Hsync, Hw, Hs. simpl.
    destruct (findIndex (idIs chatId) (side_chats sb)) as [index|] eqn:Hfind.
    + rewrite (map_if_first_id chatId _ _ index Hnd Hfind).
      unfold renameUpdated. split; reflexivity.
    + split; [|reflexivity]. apply map_if_absent, findIndex_None, Hfind.
Qed.

End SidebarRename.

(** The first conversation of [sampleStored] renamed from the sidebar. *)
Lemma handleRenameSave_matches_renameChat_witness :
  exists sb' slot',
    handleRenameSave sampleEnv (Holds sampleStored) sampleSidebar "local_1699990000000"
    = Ok (sb', slot')
    /\ renameChat sampleEnv (Holds sampleStored) "local_1699990000000" "Kyoto trip"
       = (side_chats sb' !! 0%nat, slot').
Proof.
  destruct (handleRenameSave_matches_renameChat sampleEnv (Holds sampleStored)
              sampleSidebar "local_1699990000000" eq_refl eq_refl eq_refl)
    as (sb' & slot' & Hsave & _ & _ & Hrest).
  - apply (bool_decide_unpack _). vm_compute. exact I.
  - exists sb', slot'. split; [exact Hsave|]. exact (proj2 (proj2 Hrest)).
Defined.

(** ** The assistant reply *)

Lemma messageEffect_cached m l s : hasTranslation l m = true -> messageEffect m l s = s.
Proof. intros Hc. unfold messageEffect. rewrite Hc. destruct (msg_type m); reflexivity. Qed.

Section ReplyFacts.
Context {json : JsonApi}.

Lemma replyTexts_parsed language text parsed :
  JSON_parse text = Some parsed -> nullish parsed = false ->
  replyTexts language text
  = (orElse (field parsed "en") (VStr ""), orElse (field parsed "ja") (VStr "")).
Proof.
  intros Hp Hn. unfold replyTexts. rewrite Hp, !getProp_ok by assumption. reflexivity.
Qed.

(** A reply in both languages is never sent for translation.  When the
    reply text is a JSON value with truthy [en] and [ja], the message
    built from it holds both texts in [translations]; in either
    language its original is the text of the selected language, which
    is what is displayed, and neither the on-demand path nor the batch
    flow issues a request for it.  When the reply text is not JSON (and
    not empty) it is stored as the message's original and as the one
    translation, under ['ja-JP'] when that is the selected language and
    under ['en-US'] otherwise. *)
Theorem bilingual_reply_needs_no_request text m :
  (forall language parsed,
      replyMessage language text m ->
      JSON_parse text = Some parsed -> nullish parsed = false ->
      truthy (field parsed "en") = true -> truthy (field parsed "ja") = true ->
      msg_translations m
      = Some (VObj [("en-US", field parsed "en"); ("ja-JP", field parsed "ja")])
      /\ (language = "en-US" -> VStr (msg_original m) = field parsed "en")
      /\ (language = "ja-JP" -> VStr (msg_original m) = field parsed "ja")
      /\ getMessageText "en-US" m = field parsed "en"
      /\ getMessageText "ja-JP" m = field parsed "ja"
      /\ (forall l s, l = "en-US" \/ l = "ja-JP" ->
            messageEffect m l s = s /\ ensureTranslation m l s = s
            /\ needsTranslation l m = false))
  /\ (forall language,
        replyMessage language text m ->
        JSON_parse text = None -> text <> "" ->
        msg_original m = text
        /\ msg_translations m
           = Some (VObj [(if String.eqb language "ja-JP" then "ja-JP" else "en-US",
                          VStr text)])).
Proof.
  split.
  - intros language parsed (Hty & Htr & Ho) Hp Hn Hen Hja.
    assert (Htexts : replyTexts language text = (field parsed "en", field parsed "ja")).
    { rewrite (replyTexts_parsed language text parsed Hp Hn).
      unfold orElse. rewrite Hen, Hja. reflexivity. }
    unfold replyTranslations in Htr. rewrite Htexts, Hen, Hja in Htr. simpl app in Htr.
    unfold replyOriginal, replyTranslations in Ho. rewrite Htexts, Hen, Hja in Ho.
    simpl app in Ho.
    assert (Hcen : hasTranslation "en-US" m = true).
    { unfold hasTranslation. rewrite Htr. simpl. exact Hen. }
    assert (Hcja : hasTranslation "ja-JP" m = true).
    { unfold hasTranslation. rewrite Htr. simpl. exact Hja. }
    assert (Hgen : getMessageText "en-US" m = field parsed "en").
    { unfold getMessageText, translationEntry, coalesce. rewrite Htr. simpl.
      rewrite (truthy_not_nullish _ Hen). simpl.
      rewrite (truthy_not_nullish _ Hen). reflexivity. }
    assert (Hgja : getMessageText "ja-JP" m = field parsed "ja").
    { unfold getMessageText, translationEntry, coalesce. rewrite Htr. simpl.
      rewrite (truthy_not_nullish _ Hja). simpl.
      rewrite (truthy_not_nullish _ Hja). reflexivity. }
    split; [exact Htr|]. split; [|split; [|split; [exact Hgen|split; [exact Hgja|]]]].
    + intros ->. rewrite Ho. simpl. unfold coalesce.
      rewrite (truthy_not_nullish _ Hen). simpl.
      rewrite (truthy_not_nullish _ Hen). reflexivity.
    + intros ->. rewrite Ho. simpl. unfold coalesce.
      rewrite (truthy_not_nullish _ Hja). simpl.
      rewrite (truthy_not_nullish _ Hja). reflexivity.
    + intros l s Hl.
      assert (Hc : hasTranslation l m = true) by (destruct Hl as [-> | ->]; assumption).
      split; [apply messageEffect_cached, Hc|]. split.
      * unfold ensureTranslation. rewrite Hc.
        destruct (String.eqb (msg_original m) ""); reflexivity.
      * unfold needsTranslation. rewrite Hc. rewrite andb_false_r. reflexivity.
  - intros language (Hty & Htr & Ho) Hp Hne.
    assert (Htext : truthy (VStr text) = true).
    { simpl. apply negb_true_iff, String.eqb_neq. exact Hne. }
    assert (Htexts : replyTexts language text
                     = if String.eqb language "ja-JP"
                       then (VStr "", VStr text) else (VStr text, VStr "")).
    { unfold replyTexts, orElse. rewrite Hp, Htext. reflexivity. }
    unfold replyTranslations in Htr. unfold replyOriginal, replyTranslations in Ho.
    rewrite Htexts in Htr, Ho.
    destruct (String.eqb language "ja-JP") eqn:Hl.
    + apply String.eqb_eq in Hl. subst language.
      rewrite Htext in Htr, Ho. simpl in Htr, Ho. split; [|exact Htr].
      unfold coalesce in Ho. cbn [nullish] in Ho. congruence.
    + rewrite Htext in Htr, Ho.
      change (truthy (VStr "")) with false in Htr, Ho.
      cbn [app lookupProp] in Htr, Ho. split; [|exact Htr].
      destruct (String.eqb "en-US" language); unfold coalesce in Ho;
        cbn [nullish] in Ho; congruence.
Qed.

End ReplyFacts.

(** [bilingualReply] is built from [bilingualText] and asks for nothing
    in either language. *)
Lemma bilingual_reply_needs_no_request_witness :
  getMessageText "en-US" bilingualReply = VStr "Sunny"
  /\ messageEffect bilingualReply "en-US" slotsTaken = slotsTaken.
Proof.
  assert (Hbuilt : replyMessage "ja-JP" bilingualText bilingualReply).
  { repeat split; vm_compute; reflexivity. }
  destruct (proj1 (bilingual_reply_needs_no_request bilingualText bilingualReply)
              "ja-JP" (VObj [("en", VStr "Sunny"); ("ja", VStr "晴れ")])
              Hbuilt eq_refl eq_refl eq_refl eq_refl)
    as (_ & _ & _ & Hen & _ & Hno).
  split; [exact Hen|]. exact (proj1 (Hno "en-US" slotsTaken (or_introl eq_refl))).
Defined.

(** ** The sidebar listing *)

Lemma sameChat_snippets xs ys :
  Forall2 sameChat xs ys -> List.map chat_snippet ys = List.map chat_snippet xs.
Proof.
  induction 1 as [|x y xs ys (_ & _ & Hs & _) _ IH]; [reflexivity|].
  simpl. rewrite Hs, IH. reflexivity.
Qed.

Section Listing.
Context {dates : DateApi} {json : JsonApi}.

(** The listing shows what the store wrote.  After a successful save
    of a message list with a user message, [listChatsMetadata] returns
    one entry per conversation of the list the save returned, in the
    same order, with its id, title and snippet; on an empty slot, a
    text that is not JSON, or off the browser it returns the empty
    list. *)
Theorem listChatsMetadata_after_save env env' slot messages :
  hasWindow env = true -> setItemOk env = true -> existsb isUser messages = true ->
  hasWindow env' = true ->
  let saved := fst (autoSaveChat env slot messages) in
  let listing := listChatsMetadata env' (snd (autoSaveChat env slot messages)) in
  List.map sum_id listing = List.map chat_id saved
  /\ List.map sum_title listing = List.map chat_title saved
  /\ List.map sum_snippet listing = List.map chat_snippet saved
  /\ In (getChatTitle messages) (List.map sum_title listing)
  /\ listChatsMetadata env' Empty = []
  /\ listChatsMetadata env' Corrupt = [].
Proof.
  intros Hw Hs Hu Hw' saved listing.
  assert (Hsame : Forall2 sameChat saved
                    (loadChatsFromStorage env' (snd (autoSaveChat env slot messages)))).
  { unfold saved. rewrite (autoSaveChat_saved env slot messages Hw Hs Hu). simpl.
    apply load_written. assumption. }
  assert (Htitles : List.map sum_title listing = List.map chat_title saved).
  { unfold listing, listChatsMetadata. rewrite List.map_map. simpl.
    apply sameChat_titles. assumption. }
  split; [|split; [exact Htitles|split; [|split; [|split]]]].
  - unfold listing, listChatsMetadata. rewrite List.map_map. simpl.
    apply sameChat_ids. assumption.
  - unfold listing, listChatsMetadata. rewrite List.map_map. simpl.
    apply sameChat_snippets. assumption.
  - rewrite Htitles.
    destruct (autoSaveChat_saved_index env slot messages Hw Hs Hu) as (i & c & Hi & Hc & _).
    fold saved in Hi, Hc.
    destruct (findIndex_Some _ _ _ Hi) as (c' & Hc' & Ht & _).
    unfold titleIs in Ht. apply String.eqb_eq in Ht. rewrite <- Ht.
    apply in_map. apply list_elem_of_In, list_elem_of_lookup. eauto.
  - unfold listChatsMetadata, loadChatsFromStorage. rewrite Hw'. reflexivity.
  - unfold listChatsMetadata, loadChatsFromStorage. rewrite Hw'. reflexivity.
Qed.

End Listing.

(** The listing after [sampleMessages] was saved to an empty store. *)
Lemma listChatsMetadata_after_save_witness :
  List.map sum_title
    (listChatsMetadata sampleEnv (snd (autoSaveChat sampleEnv Empty sampleMessages)))
  = List.map chat_title (fst (autoSaveChat sampleEnv Empty sampleMessages)).
Proof.
  exact (proj1 (proj2 (listChatsMetadata_after_save sampleEnv sampleEnv Empty sampleMessages
                         eq_refl eq_refl eq_refl eq_refl))).
Defined.

(** ** When the translation helpers reject *)

(** [translateText] on a text that is not empty rejects exactly when
    the response is not ok, its body is not JSON, or its body is
    [null].  For a response that is not ok: a body that is not JSON
    gives the error ['Translation API error'], and so does a body
    whose [error] is falsy or missing; a body that is [null] gives a
    [TypeError], from reading [err.error]; a body whose [error] is a
    string that is not empty gives that string; a body whose [error]
    is truthy and is refused by [String] gives a [TypeError], from
    [new Error].  A rejected on-demand request leaves the message list
    and the requests issued as they were, releases the slot and
    removes the mark. *)
Theorem translateText_rejects_iff text targetLanguage resp :
  text <> "" ->
  ((exists e, settle (translateText text targetLanguage) resp = Throw e)
   <-> (ok resp = false \/ body resp = None
        \/ exists data, body resp = Some data /\ nullish data = true))
  /\ (ok resp = false ->
      (body resp = None ->
       settle (translateText text targetLanguage) resp = Throw "Translation API error")
      /\ (forall err,
            body resp = Some err ->
            (nullish err = true ->
             settle (translateText text targetLanguage) resp = Throw TypeError)
            /\ (nullish err = false -> truthy (field err "error") = false ->
                settle (translateText text targetLanguage) resp
                = Throw "Translation API error")
            /\ (forall message,
                  nullish err = false -> field err "error" = VStr message ->
                  message <> "" ->
                  settle (translateText text targetLanguage) resp = Throw message)
            /\ (forall e,
                  nullish err = false -> truthy (field err "error") = true ->
                  toString (field err "error") = Throw e ->
                  settle (translateText text targetLanguage) resp = Throw TypeError)))
  /\ (forall s i t e,
        tasks s !! i = Some t -> task_phase t = InFlight ->
        let s' := translateSettled i (Throw e) s in
        messages s' = messages s /\ calls s' = calls s
        /\ translatingCount s' = translatingCount s - 1
        /\ task_id t ∉ translating s').
Proof.
  intros Hne. apply String.eqb_neq in Hne.
  unfold translateText. rewrite Hne. simpl settle.
  unfold translateTextResume, responseJson.
  split; [|split].
  - destruct (ok resp); simpl.
    + destruct (body resp) as [data|]; simpl.
      * destruct (nullish data) eqn:Hn.
        -- rewrite getProp_throw by assumption. simpl. split; eauto 6.
        -- rewrite getProp_ok by assumption. simpl. split.
           ++ intros [e He]. discriminate.
           ++ intros [H | [H | (d & [= <-] & Hd)]]; congruence.
      * split; eauto.
    + split; eauto.
  - intros ->. cbn [negb]. unfold apiError. split.
    + intros ->. reflexivity.
    + intros err ->. split; [|split; [|split]].
      * intros Hn. rewrite getProp_throw by assumption. reflexivity.
      * intros Hn Hf. rewrite getProp_ok by assumption. rewrite Hf. reflexivity.
      * intros message Hn Hf Hm. rewrite getProp_ok by assumption. rewrite Hf.
        apply String.eqb_neq in Hm. simpl. rewrite Hm. reflexivity.
      * intros e Hn Htr He. rewrite getProp_ok by assumption. rewrite Htr, He.
        rewrite (toString_throw _ _ He). reflexivity.
  - intros s i t e Ht Hph. unfold translateSettled. rewrite Ht, Hph. simpl.
    repeat split. rewrite elem_of_difference, elem_of_singleton. tauto.
Qed.

(** A refused request for the first reply of [slotsTaken]: the error of
    the body is what is thrown, a [TypeError] when the body is [null]. *)
Lemma translateText_rejects_iff_witness :
  settle (translateText "Sunny" "ja-JP")
         {| ok := false; body := Some (VObj [("error", VStr "quota exceeded")]) |}
  = Throw "quota exceeded"
  /\ settle (translateText "Sunny" "ja-JP") {| ok := false; body := Some VNull |}
     = Throw TypeError
  /\ messages (translateSettled 0 (Throw "quota exceeded") slotsTaken)
     = messages slotsTaken.
Proof.
  assert (Htext : "Sunny" <> "") by discriminate.
  split; [|split].
  - exact (proj1 (proj2 (proj2 (proj2 (proj1 (proj2 (translateText_rejects_iff "Sunny" "ja-JP"
             {| ok := false; body := Some (VObj [("error", VStr "quota exceeded")]) |}
             Htext)) eq_refl) _ eq_refl)))
             "quota exceeded" eq_refl eq_refl ltac:(discriminate)).
  - exact (proj1 (proj2 (proj1 (proj2 (translateText_rejects_iff "Sunny" "ja-JP"
             {| ok := false; body := Some VNull |} Htext)) eq_refl) _ eq_refl) eq_refl).
  - exact (proj1 (proj2 (proj2 (translateText_rejects_iff "Sunny" "ja-JP"
                                   {| ok := true; body := None |} Htext))
                     slotsTaken 0%nat
                     {| task_id := "a"; task_original := "Sunny";
                        task_language := "ja-JP"; task_phase := InFlight |}
                     "quota exceeded" eq_refl eq_refl)).
Defined.

Section ApiRejections.
Context {json : JsonApi}.

(** The [catch] block of [batchTranslate] throws exactly when the
    [text] it works on is truthy and not a string. *)
Lemma batchRecover_cases data :
  nullish data = false ->
  (truthy (field data "text") = true /\ isString (field data "text") = false
   /\ batchRecover data = Throw TypeError)
  \/ ((truthy (field data "text") = false \/ isString (field data "text") = true)
      /\ exists r, batchRecover data = Ok r).
Proof.
  intros Hd. unfold batchRecover. rewrite getProp_ok by assumption. cbn [bind].
  assert (Hstring : forall txt,
             exists r, match bracketSpan txt with
                       | Some span =>
                           match JSON_parse span with
                           | Some (VArr arr) =>
                               match mapString arr with
                               | Ok translated => Ok (Some translated)
                               | Throw _ => Ok None
                               end
                           | _ => Ok None
                           end
                       | None => Ok None
                       end = Ok r).
  { intros txt. destruct (bracketSpan txt) as [span|]; [|eauto].
    destruct (JSON_parse span) as [[ | | | | | | arr | ]|]; eauto.
    destruct (mapString arr); eauto. }
  unfold orElse. destruct (truthy (field data "text")) eqn:Htr.
  - destruct (field data "text") as [ | | b | n | i | txt | items | props ] eqn:Hf;
      try (left; repeat split; reflexivity).
    right. split; [right; reflexivity | apply Hstring].
  - right. split; [left; reflexivity | apply Hstring].
Qed.

(** [batchTranslate] on a list of texts that is not empty rejects
    exactly when the response is not ok, its body is not JSON, its
    body is [null], or the [text] of the body is a truthy value other
    than a string on which the [try] block throws: [String] refuses
    it, or its [String] form is not JSON, or is JSON for an array with
    an element that [String] refuses ([txt.match] is then not a
    function in the [catch] block).  In every other case it resolves to
    a list. *)
Theorem batchTranslate_rejects_iff texts targetLanguage resp :
  texts <> [] ->
  (exists e, settle (batchTranslate texts targetLanguage) resp = Throw e)
  <-> (ok resp = false \/ body resp = None
       \/ exists data,
            body resp = Some data
            /\ (nullish data = true
                \/ (truthy (field data "text") = true
                    /\ isString (field data "text") = false
                    /\ ((exists e, toString (field data "text") = Throw e)
                        \/ exists s,
                             toString (field data "text") = Ok s
                             /\ (JSON_parse s = None
                                 \/ exists arr e,
                                      JSON_parse s = Some (VArr arr)
                                      /\ mapString arr = Throw e))))).
Proof.
  intros Hne. destruct texts as [|t ts]; [contradiction|]. clear Hne.
  simpl settle. unfold batchTranslateResume, responseJson.
  destruct (ok resp); simpl; [|split; eauto].
  destruct (body resp) as [data|]; simpl; [|split; eauto].
  destruct (nullish data) eqn:Hn.
  { unfold batchExtract, batchRecover. rewrite !getProp_throw by assumption. simpl.
    split; eauto 8. }
  set (continue := fun extracted : option (list string) =>
                     match extracted with
                     | Some translated => Ok translated
                     | None => Ok (t :: List.map (fun t0 => t0) ts)
                     end).
  assert (Hresolves : forall r, ~ exists e, continue r = Throw e).
  { intros [translated|] [e He]; discriminate. }
  assert (Hcatch :
            (exists e, (let* extracted := batchRecover data in continue extracted) = Throw e)
            <-> truthy (field data "text") = true /\ isString (field data "text") = false).
  { destruct (batchRecover_cases data Hn) as [(Htr & Hs & ->) | (Hor & r & ->)].
    - split; [auto | intros _; simpl; eauto].
    - cbn [bind]. split.
      + intros H. exfalso. exact (Hresolves r H).
      + intros [Htr Hs]. destruct Hor; congruence. }
  unfold batchExtract, jsonParse. rewrite getProp_ok by assumption. cbn [bind].
  destruct (toString (field data "text")) as [s|e0] eqn:Hs; cbn [bind].
  - destruct (JSON_parse s) as [parsed|] eqn:Hp; cbn [bind].
    + destruct parsed as [ | | b | n | i | str | arr | props ];
        try (cbn [bind]; split;
             [ intros [e He]; discriminate
             | intros [H | [H | (d & [= <-] & [Hd | (_ & _ & [[e He] | (s' & Hs' & [Hp' | (a & e & Hp' & _)])])])]];
               congruence ]).
      destruct (mapString arr) as [translated|e1] eqn:Hmap; cbn [bind].
      * split; [intros [e He]; discriminate|].
        intros [H | [H | (d & [= <-] & [Hd | (_ & _ & [[e He] | (s' & Hs' & [Hp' | (a & e & Hp' & Hm)])])])]];
          congruence.
      * rewrite Hcatch. split.
        -- intros [Htr Hstr]. right. right. exists data. split; [reflexivity|].
           right. split; [exact Htr|]. split; [exact Hstr|]. right. exists s.
           split; [exact Hs|]. right. exists arr, e1. split; assumption.
        -- intros [H | [H | (d & [= <-] & [Hd | (Htr & Hstr & _)])]]; try congruence.
           split; assumption.
    + rewrite Hcatch. split.
      * intros [Htr Hstr]. right. right. exists data. split; [reflexivity|].
        right. split; [exact Htr|]. split; [exact Hstr|]. right. exists s.
        split; [exact Hs|]. left. exact Hp.
      * intros [H | [H | (d & [= <-] & [Hd | (Htr & Hstr & _)])]]; try congruence.
        split; assumption.
  - rewrite Hcatch. split.
    + intros [Htr Hstr]. right. right. exists data. split; [reflexivity|].
      right. split; [exact Htr|]. split; [exact Hstr|]. left. exists e0. exact Hs.
    + intros [H | [H | (d & [= <-] & [Hd | (Htr & Hstr & _)])]]; try congruence.
      split; assumption.
Qed.

End ApiRejections.

(** A body whose [text] is an object is rejected, and so is one whose
    [text] is an array that [String] refuses; a body whose [text] is a
    number is not. *)
Lemma batchTranslate_rejects_iff_witness :
  (exists e, settle (batchTranslate ["Sunny"] "ja-JP")
                    {| ok := true; body := Some (VObj [("text", VObj [])]) |} = Throw e)
  /\ settle (batchTranslate ["Sunny"] "ja-JP")
            {| ok := true;
               body := Some (VObj [("text", VArr [VObj [("toString", VNum 1)]])]) |}
     = Throw TypeError
  /\ settle (batchTranslate ["Sunny"] "ja-JP")
            {| ok := true; body := Some (VObj [("text", VNum 7)]) |} = Ok ["Sunny"].
Proof.
  split; [|split; vm_compute; reflexivity].
  apply (batchTranslate_rejects_iff ["Sunny"] "ja-JP"
           {| ok := true; body := Some (VObj [("text", VObj [])]) |}).
  - discriminate.
  - right. right. exists (VObj [("text", VObj [])]).
    split; [reflexivity|]. right. split; [reflexivity|]. split; [reflexivity|].
    right. exists "[object Object]". split; [reflexivity|]. left. vm_compute. reflexivity.
Defined.
